(** * Mars Hydro light control: schedule engine, device session, reconciler

    A shallow embedding of the Go program

    - [internal/timer/timer.go]  (package [timer]): the schedule engine,
    - [internal/api/mh_api.go]   (package [api]):   the device session,
    - [main.go]                  (package [main]):  the reconciliation loop,

    followed by the properties of the specification that were checked
    against it.

    Conventions.  Go's [int] is the 64-bit two's complement integer: it is a
    [Z] and every arithmetic operation wraps ([goint.wrap]).  Go's [float64]
    is IEEE 754 binary64: it is Rocq's [spec_float] and every operation
    rounds the exact rational result to nearest, ties to even
    ([float64.round]); the model is compared with the processor's floats
    (Rocq's primitive floats) on sample inputs in [float64_agreement].  The
    network and the wall clock are a [World] that every session operation
    threads through. *)

From Stdlib Require Import ZArith QArith Qround Qpower Qabs Lqa Lia.
From Stdlib Require Import List String Ascii Bool Floats DecimalString.
Import ListNotations.

Local Open Scope Z_scope.

(* ================================================================== *)
(** * Go's [int] *)

Module goint.

Definition minInt : Z := - 2 ^ 63.
Definition maxInt : Z := 2 ^ 63 - 1.

(** Two's complement wrap-around of a mathematical integer to 64 bits. *)
Definition wrap (z : Z) : Z := (z + 2 ^ 63) mod 2 ^ 64 - 2 ^ 63.

Definition add (a b : Z) : Z := wrap (a + b).
Definition sub (a b : Z) : Z := wrap (a - b).
Definition mul (a b : Z) : Z := wrap (a * b).

(** [a % b], truncated towards zero; the program only uses it with the
    constant divisor 5. *)
Definition rem (a b : Z) : Z := Z.rem a b.

Definition in_range (z : Z) : Prop := minInt <= z <= maxInt.

End goint.

(* ================================================================== *)
(** * Go's [float64] *)

Module float64.

(** A binary64 value: signed zero, signed infinity, NaN, or
    [(-1)^s * m * 2^e]. *)
Definition t : Type := spec_float.

Definition prec : Z := 53.
Definition emin : Z := -1074.
Definition emax : Z := 1024.

(** The rational a finite value stands for (0 for the others). *)
Definition F2Q (x : t) : Q :=
  match x with
  | S754_finite s m e =>
      if s then (- (inject_Z (Zpos m) * 2 ^ e))%Q
      else (inject_Z (Zpos m) * 2 ^ e)%Q
  | _ => 0%Q
  end.

Definition is_finite (x : t) : bool :=
  match x with
  | S754_zero _ | S754_finite _ _ _ => true
  | _ => false
  end.

Definition sign (x : t) : bool :=
  match x with
  | S754_zero s | S754_infinity s | S754_finite s _ _ => s
  | S754_nan => false
  end.

(** [ilog2 n d] is the integer [l] with [2^l <= n/d < 2^(l+1)]. *)
Definition ilog2 (n d : positive) : Z :=
  let l := Z.log2 (Zpos n) - Z.log2 (Zpos d) in
  if Qle_bool (2 ^ l) (Zpos n # d) then l else l - 1.

(** Nearest integer, ties to the even one. *)
Definition rne (q : Q) : Z :=
  let f := Qfloor q in
  match Qcompare (q - inject_Z f) (1 # 2) with
  | Lt => f
  | Gt => f + 1
  | Eq => if Z.even f then f else f + 1
  end.

(** The exponent of the binary64 grid around a positive rational [n/d]:
    [prec] significant bits, no finer than [2^emin]. *)
Definition grid (n d : positive) : Z := Z.max emin (ilog2 n d - (prec - 1)).

(** Rounding of the positive rational [n/d], with sign [s] attached. *)
Definition round_pos (s : bool) (n d : positive) : t :=
  let e := grid n d in
  let m := rne ((Zpos n # d) / 2 ^ e) in
  let '(m', e') := if m =? 2 ^ prec then (2 ^ (prec - 1), e + 1) else (m, e) in
  match m' with
  | Zpos p => if e' <=? emax - prec then S754_finite s p e' else S754_infinity s
  | _ => S754_zero s
  end.

(** Round to nearest, ties to even; [szero] is the sign given to an exact
    zero. *)
Definition round (szero : bool) (q : Q) : t :=
  match Qnum q with
  | Z0 => S754_zero szero
  | Zpos n => round_pos false n (Qden q)
  | Zneg n => round_pos true n (Qden q)
  end.

Definition neg (x : t) : t :=
  match x with
  | S754_zero s => S754_zero (negb s)
  | S754_infinity s => S754_infinity (negb s)
  | S754_nan => S754_nan
  | S754_finite s m e => S754_finite (negb s) m e
  end.

Definition is_zero (x : t) : bool :=
  match x with S754_zero _ => true | _ => false end.

(** [x + y] *)
Definition add (x y : t) : t :=
  match x, y with
  | S754_nan, _ | _, S754_nan => S754_nan
  | S754_infinity sx, S754_infinity sy =>
      if Bool.eqb sx sy then x else S754_nan
  | S754_infinity _, _ => x
  | _, S754_infinity _ => y
  | S754_zero sx, S754_zero sy => S754_zero (sx && sy)
  | _, _ => round false (F2Q x + F2Q y)
  end.

(** [x - y] *)
Definition sub (x y : t) : t := add x (neg y).

(** [x * y] *)
Definition mul (x y : t) : t :=
  match x, y with
  | S754_nan, _ | _, S754_nan => S754_nan
  | S754_infinity sx, S754_zero _ | S754_zero _, S754_infinity sx => S754_nan
  | S754_infinity sx, _ => S754_infinity (xorb sx (sign y))
  | _, S754_infinity sy => S754_infinity (xorb (sign x) sy)
  | _, _ => round (xorb (sign x) (sign y)) (F2Q x * F2Q y)
  end.

(** [x / y]; a division by zero is not a fault in Go's floating point: it
    yields an infinity or NaN. *)
Definition div (x y : t) : t :=
  match x, y with
  | S754_nan, _ | _, S754_nan => S754_nan
  | S754_infinity _, S754_infinity _ => S754_nan
  | S754_infinity sx, _ => S754_infinity (xorb sx (sign y))
  | _, S754_infinity sy => S754_zero (xorb (sign x) sy)
  | S754_zero _, S754_zero _ => S754_nan
  | _, S754_zero sy => S754_infinity (xorb (sign x) sy)
  | _, _ => round (xorb (sign x) (sign y)) (F2Q x / F2Q y)
  end.

(** [x < y]; false as soon as one side is NaN. *)
Definition ltb (x y : t) : bool :=
  match x, y with
  | S754_nan, _ | _, S754_nan => false
  | S754_infinity sx, S754_infinity sy => sx && negb sy
  | S754_infinity sx, _ => sx
  | _, S754_infinity sy => negb sy
  | _, _ => match Qcompare (F2Q x) (F2Q y) with Lt => true | _ => false end
  end.

(** The conversion [float64(i)] of an [int]. *)
Definition of_int (z : Z) : t := round false (inject_Z z).

(** The conversion [int(x)]: the fraction is discarded (truncation towards
    zero).  Go leaves the result open when the value does not fit; the model
    takes what amd64's conversion instruction returns there, the integer
    indefinite value [minInt]. *)
Definition to_int (x : t) : Z :=
  match x with
  | S754_zero _ => 0
  | S754_finite s m e =>
      let a := match e with
               | Zneg p => Zpos m / Z.pow_pos 2 p
               | _ => Zpos m * 2 ^ e
               end in
      let z := if s then - a else a in
      if (goint.minInt <=? z) && (z <=? goint.maxInt) then z else goint.minInt
  | _ => goint.minInt
  end.

(** [math.Round]: the nearest integer, halves away from zero; zero,
    infinities and NaN are returned unchanged, and a value that rounds to
    zero keeps its sign. *)
Definition Round (x : t) : t :=
  match x with
  | S754_finite s m (Zneg p) =>
      let d := Z.pow_pos 2 p in
      let k := Zpos m / d in
      let r := Zpos m mod d in
      match (if d <=? 2 * r then k + 1 else k) with
      | Zpos n => round_pos s n 1
      | _ => S754_zero s
      end
  | _ => x
  end.

(** ** What a rounding is worth

    The operations above return [round] of an exact rational; the
    definitions below name the rational that comes out, so that properties
    of the program can be stated and proved over [Q]. *)

(** The value of [round_pos s n d], sign apart. *)
Definition rnd_pos (n d : positive) : Q :=
  (inject_Z (rne ((Zpos n # d) / 2 ^ grid n d)) * 2 ^ grid n d)%Q.

(** The value of [round s q] (as long as it does not overflow). *)
Definition rnd (q : Q) : Q :=
  match Qnum q with
  | Z0 => 0%Q
  | Zpos n => rnd_pos n (Qden q)
  | Zneg n => (- rnd_pos n (Qden q))%Q
  end.

(** [fin x q]: [x] is a zero or a finite number, and stands for [q]. *)
Definition fin (x : t) (q : Q) : Prop := is_finite x = true /\ (F2Q x == q)%Q.

(** The nearest integer, halves away from zero: the value of [Round]. *)
Definition round_away (q : Q) : Z :=
  if Qle_bool 0 q then Qfloor (q + (1 # 2)) else - Qfloor (- q + (1 # 2)).

End float64.

(* ================================================================== *)
(** * Package [timer]: the schedule engine *)

Module timer.

Record LightTimer : Type := {
  StartHour : Z;
  PlateauHour : Z;
  EndHour : Z;
  StepSize : Z;
  PlateauOffset : Z;  (* offset in hours applied to sunrise/sunset ramp durations *)
  Brightness : Z      (* maximum brightness at plateau phase *)
}.

(** What [GetExpectedBrightness] reads of a [time.Time]: [now.Hour()],
    [now.Minute()] and [now.Second()]. *)
Record Time : Type := {
  Hour : Z;
  Minute : Z;
  Second : Z
}.

(** The two checks [LoadConfig] makes after decoding the file. *)
Definition LoadConfig_accepts (lt : LightTimer) : bool :=
  negb (EndHour lt <=? goint.add (StartHour lt) (PlateauHour lt))
  && (goint.rem (StepSize lt) 5 =? 0).

Section GetExpectedBrightness.

Variable lt : LightTimer.

Definition startSec : Z := goint.mul (StartHour lt) 3600.
Definition endSec : Z := goint.mul (EndHour lt) 3600.
Definition plateauSec : Z := goint.mul (PlateauHour lt) 3600.

(** Baseline ramp duration (in seconds) for sunrise and sunset without
    offset. *)
Definition baselineRamp : float64.t :=
  float64.div
    (float64.of_int (goint.sub (goint.sub endSec startSec) plateauSec))
    (float64.of_int 2).

(** [PlateauOffset] (in hours) converted to seconds. *)
Definition offsetSec : float64.t :=
  float64.of_int (goint.mul (PlateauOffset lt) 3600).

Definition sunriseRamp : float64.t := float64.add baselineRamp offsetSec.
Definition sunsetRamp : float64.t := float64.sub baselineRamp offsetSec.

Definition plateauStart : Z := goint.add startSec (float64.to_int sunriseRamp).
Definition plateauEnd : Z := goint.add plateauStart plateauSec.

(** The four statements both ramp branches share: interpolate from
    [StepSize] to [Brightness] along [fraction], round to a multiple of
    [StepSize], and cap at [Brightness].  Every operation is rounded on its
    own, as the amd64 compiler emits it (Go allows, and some other targets
    use, a fused multiply-add for the first statement). *)
Definition rampBrightness (fraction : float64.t) : Z :=
  let brightness :=
    float64.add (float64.of_int (StepSize lt))
      (float64.mul fraction
         (float64.sub (float64.of_int (Brightness lt))
                      (float64.of_int (StepSize lt)))) in
  let result :=
    float64.to_int
      (float64.mul
         (float64.Round
            (float64.div brightness (float64.of_int (StepSize lt))))
         (float64.of_int (StepSize lt))) in
  if result >? Brightness lt then Brightness lt else result.

Definition nowSecOf (now : Time) : Z :=
  goint.add (goint.add (goint.mul (Hour now) 3600) (goint.mul (Minute now) 60))
            (Second now).

(** The body of [GetExpectedBrightness] once [nowSec] is known. *)
Definition brightnessAt (nowSec : Z) : Z :=
  if (nowSec <? startSec) || (nowSec >=? endSec) then 0
  else
    (* Sunrise phase: from startSec to (startSec + sunriseRamp) *)
    if float64.ltb (float64.of_int nowSec)
                   (float64.add (float64.of_int startSec) sunriseRamp)
    then
      rampBrightness
        (float64.div (float64.of_int (goint.sub nowSec startSec)) sunriseRamp)
    else
      (* Plateau phase: constant brightness equals lt.Brightness. *)
      if (nowSec >=? plateauStart) && (nowSec <? plateauEnd)
      then Brightness lt
      else
        (* Sunset phase: from plateauEnd to endSec. *)
        if nowSec <? endSec then
          rampBrightness
            (float64.div (float64.of_int (goint.sub endSec nowSec)) sunsetRamp)
        else 0.

Definition GetExpectedBrightness (now : Time) : Z :=
  brightnessAt (nowSecOf now).

End GetExpectedBrightness.

(** ** The configurations and times the properties are about *)

(** Hours of a day. *)
Definition hours_of_day (lt : LightTimer) : Prop :=
  0 <= StartHour lt <= 24 /\ 0 <= PlateauHour lt <= 24 /\ 0 <= EndHour lt <= 24.

(** The ranges of the fields: hours of a day, an offset, a step and a
    brightness far inside what a [float64] holds exactly. *)
Definition in_range (lt : LightTimer) : Prop :=
  hours_of_day lt /\
  - 2 ^ 31 <= PlateauOffset lt <= 2 ^ 31 /\
  0 < StepSize lt <= 2 ^ 26 /\
  0 < Brightness lt <= 2 ^ 26.

(** The invariant of a schedule configuration: the window is longer than the
    plateau, the step is a positive multiple of 5, the brightness is
    positive. *)
Definition config_invariant (lt : LightTimer) : Prop :=
  StartHour lt + PlateauHour lt < EndHour lt /\
  0 < StepSize lt /\ StepSize lt mod 5 = 0 /\
  0 < Brightness lt.

(** A reading of the clock. *)
Definition clock_ok (now : Time) : Prop :=
  0 <= Hour now < 24 /\ 0 <= Minute now < 60 /\ 0 <= Second now < 60.

(** The lengths of the two ramps in whole seconds: the values of
    [sunriseRamp] and [sunsetRamp] for a configuration [in_range]
    ([timer_facts.sunriseRamp_fin], [timer_facts.sunsetRamp_fin]). *)
Definition sunriseSecs (lt : LightTimer) : Z :=
  1800 * (EndHour lt - StartHour lt - PlateauHour lt) + 3600 * PlateauOffset lt.

Definition sunsetSecs (lt : LightTimer) : Z :=
  1800 * (EndHour lt - StartHour lt - PlateauHour lt) - 3600 * PlateauOffset lt.

(** The number of steps [rampBrightness] comes to when its argument stands
    for the rational [qf]: each operation of the formula rounded in turn. *)
Definition rampSteps (lt : LightTimer) (qf : Q) : Z :=
  float64.round_away
    (float64.rnd
       (float64.rnd (inject_Z (StepSize lt)
                     + float64.rnd (qf * inject_Z (Brightness lt - StepSize lt)))
        / inject_Z (StepSize lt)))%Q.

(** The cap at [Brightness]. *)
Definition cap (lt : LightTimer) (z : Z) : Z :=
  if z >? Brightness lt then Brightness lt else z.

(** The value of a ramp [a] seconds into its [r] seconds. *)
Definition rampAt (lt : LightTimer) (a r : Z) : Z :=
  cap lt (rampSteps lt (float64.rnd (inject_Z a / inject_Z r)) * StepSize lt).

End timer.

(* ================================================================== *)
(** * Decoded JSON *)

Module json.

#[local] Unset Elimination Schemes.

(** What [encoding/json] stores in an [interface{}]: [nil], [bool],
    [float64], [string], [[]interface{}] and [map[string]interface{}]. *)
Inductive value : Type :=
| Null
| Bool (b : bool)
| Number (f : float64.t)
| String (s : string)
| Array (l : list value)
| Object (m : list (string * value)).
#[local] Set Elimination Schemes.

(** A decoded [map[string]interface{}]. *)
Definition object : Type := list (string * value).

(** [m[k]]: the value stored under [k], [nil] when the key is absent. *)
Fixpoint index (m : object) (k : string) : value :=
  match m with
  | [] => Null
  | (k', v) :: m' => if String.eqb k k' then v else index m' k
  end.

(** [v, exists := m[k]] *)
Fixpoint lookup (m : object) (k : string) : option value :=
  match m with
  | [] => None
  | (k', v) :: m' => if String.eqb k k' then Some v else lookup m' k
  end.

(** The type assertions [v.(string)], [v.(map[string]interface{})] and
    [v.([]interface{})], with their [ok] flag as an option. *)
Definition asString (v : value) : option string :=
  match v with String s => Some s | _ => None end.

Definition asObject (v : value) : option object :=
  match v with Object m => Some m | _ => None end.

Definition asArray (v : value) : option (list value) :=
  match v with Array l => Some l | _ => None end.

End json.

(* ================================================================== *)
(** * [fmt.Sprintf("%.0f", v)] *)

Module fmt.

Definition decimal (z : Z) : string :=
  DecimalString.NilZero.string_of_int (Z.to_int z).

(** The decimal digits of the integer nearest to [m * 2^e], ties to the even
    one. *)
Definition nearest_even (m : positive) (e : Z) : Z :=
  match e with
  | Zneg p =>
      let d := Z.pow_pos 2 p in
      let k := Zpos m / d in
      let r := Zpos m mod d in
      match 2 * r ?= d with
      | Lt => k
      | Gt => k + 1
      | Eq => if Z.even k then k else k + 1
      end
  | _ => Zpos m * 2 ^ e
  end.

Definition Sprintf_dot0f (v : float64.t) : string :=
  match v with
  | S754_nan => "NaN"
  | S754_infinity false => "+Inf"
  | S754_infinity true => "-Inf"
  | S754_zero s => if s then "-0" else "0"
  | S754_finite s m e =>
      ((if s then "-" else "") ++ decimal (nearest_even m e))%string
  end.

End fmt.

(* ================================================================== *)
(** * Package [api]: the device session *)

Module api.

Local Open Scope string_scope.
Local Open Scope list_scope.
Local Open Scope Z_scope.

(** ** The session and the world around it *)

(** [time.Time] and [time.Duration] are counted in nanoseconds; the zero
    [time.Time] is 0. *)
Definition Second : Z := 1000000000.

Record MarsHydroAPI : Type := {
  Email : string;
  Password : string;
  WifiName : string;
  Token : string;
  Timezone : string;
  Language : string;
  BaseURL : string;
  (* mu sync.Mutex: the model is sequential, the lock has no state to show *)
  LastLoginTime : Z;
  LoginInterval : Z;
  DeviceID : string;
  GroupID : string
}.

Definition NewMarsHydroAPI (email password WifiName Timezone Language : string)
  : MarsHydroAPI :=
  {| Email := email;
     Password := password;
     WifiName := WifiName;
     Token := "";
     Timezone := Timezone;
     Language := Language;
     BaseURL := "https://api.lgledsolutions.com/api/android";
     LastLoginTime := 0;
     LoginInterval := 300 * Second;
     DeviceID := "";
     GroupID := "" |}.

Definition setToken (api : MarsHydroAPI) (token : string) (now : Z) : MarsHydroAPI :=
  {| Email := Email api; Password := Password api; WifiName := WifiName api;
     Token := token;
     Timezone := Timezone api; Language := Language api; BaseURL := BaseURL api;
     LastLoginTime := now;
     LoginInterval := LoginInterval api;
     DeviceID := DeviceID api; GroupID := GroupID api |}.

Definition setDeviceID (api : MarsHydroAPI) (id : string) : MarsHydroAPI :=
  {| Email := Email api; Password := Password api; WifiName := WifiName api;
     Token := Token api;
     Timezone := Timezone api; Language := Language api; BaseURL := BaseURL api;
     LastLoginTime := LastLoginTime api;
     LoginInterval := LoginInterval api;
     DeviceID := id; GroupID := GroupID api |}.

Definition setGroupID (api : MarsHydroAPI) (id : string) : MarsHydroAPI :=
  {| Email := Email api; Password := Password api; WifiName := WifiName api;
     Token := Token api;
     Timezone := Timezone api; Language := Language api; BaseURL := BaseURL api;
     LastLoginTime := LastLoginTime api;
     LoginInterval := LoginInterval api;
     DeviceID := DeviceID api; GroupID := id |}.

(** The four endpoints below [BaseURL]. *)
Inductive Endpoint : Type :=
| mailLogin       (* /ulogin/mailLogin/v1 *)
| lampSwitch      (* /udm/lampSwitch/v1 *)
| getDeviceList   (* /udm/getDeviceList/v1 *)
| adjustLight.    (* /udm/adjustLight/v1 *)

(** The fields of the [systemData] header that depend on the session; the
    others are constants.  [reqId] and [timestamp] are both read off the
    clock, kept here as the instant [sdClock]. *)
Record SystemData : Type := {
  sdClock : Z;
  sdDeviceId : string;
  sdWifiName : string;
  sdToken : string;
  sdTimezone : string;
  sdLanguage : string
}.

Inductive Payload : Type :=
| loginPayload (email password : string)
| switchPayload (isClose : bool) (deviceId : string)
| deviceListPayload
| lightPayload (light : Z) (deviceId groupId : string).

Record Request : Type := {
  endpoint : Endpoint;
  systemData : SystemData;
  payload : Payload
}.

(** What comes back from [http.DefaultClient.Do] followed by the JSON
    decoding of the body into a [map[string]interface{}] (the body [null]
    decodes to the empty map).  [http.NewRequest] itself cannot fail on the
    fixed method and URLs of this package. *)
Inductive Reply : Type :=
| ConnError                      (* Do returned an error *)
| DecodeError                    (* the decoder returned an error *)
| Decoded (resData : json.object).

(** The errors the package returns. *)
Inductive error : Type :=
| errTransport            (* from http.DefaultClient.Do *)
| errDecode               (* from the JSON decoder *)
| errInvalidLoginResponse (* "invalid login response" *)
| errTokenNotFound        (* "token not found in response" *)
| errRetrievingDevices    (* "error retrieving light devices" *)
| errNoDevices            (* "no light devices available" *)
| errInvalidDeviceData    (* "invalid device data" *)
| errDeviceIdNotFound     (* "device id not found in response" *)
| errErrorResponse.       (* "received error response" *)

(** The lines written with [log.Println] and [log.Printf]. *)
Inductive LogLine : Type :=
| LogTokenStillValid
| LogLoginSuccessful
| LogTokenExpired
| LogErrorInResponse (msg : json.value)
| LogNoLightDevices
| LogBrightnessSet
| LogRemainsOff
| LogRemainsOn (state : Z)
| LogSetting (state : Z)
| LogLoginError (err : error)
| LogFailedToSet (err : error)
| LogStatusOff
| LogStatusOn (state : Z).

(** The outside world: the clock, the remote service as the reply (and the
    time it takes) to the n-th request of the run, the requests sent so far
    and the log written so far. *)
Record World : Type := {
  clock : Z;
  service : nat -> Z * Reply;
  sent : list Request;
  logged : list LogLine
}.

Definition log (l : LogLine) (w : World) : World :=
  {| clock := clock w; service := service w; sent := sent w;
     logged := logged w ++ [l] |}.

(** One round trip: the request goes out, time passes, the reply is in. *)
Definition roundTrip (req : Request) (w : World) : Reply * World :=
  let '(elapsed, reply) := service w (List.length (sent w)) in
  (reply,
   {| clock := clock w + elapsed; service := service w;
      sent := sent w ++ [req]; logged := logged w |}).

Definition maxDuration : Z := 2 ^ 63 - 1.
Definition minDuration : Z := - 2 ^ 63.

(** [time.Since(t)]: the difference saturates at the ends of
    [time.Duration]. *)
Definition Since (w : World) (t : Z) : Z :=
  Z.max minDuration (Z.min maxDuration (clock w - t)).

(** ** The operations *)

Definition generateSystemData (api : MarsHydroAPI) (w : World) : SystemData :=
  {| sdClock := clock w;
     sdDeviceId := DeviceID api;
     sdWifiName := WifiName api;
     sdToken := Token api;
     sdTimezone := Timezone api;
     sdLanguage := Language api |}.

Definition isEmpty (s : string) : bool := String.eqb s "".

Definition Login (api : MarsHydroAPI) (w : World)
  : option error * MarsHydroAPI * World :=
  if negb (isEmpty (Token api)) && (Since w (LastLoginTime api) <? LoginInterval api)
  then (None, api, log LogTokenStillValid w)
  else
    let systemData := generateSystemData api w in
    let payload := loginPayload (Email api) (Password api) in
    let '(resp, w) :=
      roundTrip {| endpoint := mailLogin; systemData := systemData;
                   payload := payload |} w in
    match resp with
    | ConnError => (Some errTransport, api, w)
    | DecodeError => (Some errDecode, api, w)
    | Decoded resData =>
        match json.asObject (json.index resData "data") with
        | None => (Some errInvalidLoginResponse, api, w)
        | Some data =>
            match json.asString (json.index data "token") with
            | None => (Some errTokenNotFound, api, w)
            | Some token =>
                (None, setToken api token (clock w), log LogLoginSuccessful w)
            end
        end
    end.

Definition ensureToken (api : MarsHydroAPI) (w : World)
  : option error * MarsHydroAPI * World :=
  if isEmpty (Token api) then Login api w else (None, api, w).

(** [code, ok := resData["code"].(string); ok && code == c] *)
Definition codeIs (resData : json.object) (c : string) : bool :=
  match json.asString (json.index resData "code") with
  | Some code => String.eqb code c
  | None => false
  end.

(** [ToggleSwitch] calls itself after a re-authentication; [fuel] bounds the
    depth of that recursion and [None] is returned when it is used up. *)
Fixpoint ToggleSwitch (fuel : nat) (isClose : bool) (deviceID : string)
    (api : MarsHydroAPI) (w : World)
  : option ((json.object + error) * MarsHydroAPI * World) :=
  match fuel with
  | O => None
  | S fuel =>
      match ensureToken api w with
      | (Some err, api, w) => Some (inr err, api, w)
      | (None, api, w) =>
          let systemData := generateSystemData api w in
          let payload := switchPayload isClose deviceID in
          let '(resp, w) :=
            roundTrip {| endpoint := lampSwitch; systemData := systemData;
                         payload := payload |} w in
          match resp with
          | ConnError => Some (inr errTransport, api, w)
          | DecodeError => Some (inr errDecode, api, w)
          | Decoded resData =>
              (* If token expired (code 102), re-authenticate. *)
              if codeIs resData "102" then
                let w := log LogTokenExpired w in
                match Login api w with
                | (Some err, api, w) => Some (inr err, api, w)
                | (None, api, w) => ToggleSwitch fuel isClose deviceID api w
                end
              else Some (inl resData, api, w)
          end
      end
  end.

(** The [switch v := x.(type)] on a device or group identifier. *)
Definition idOfValue (v : json.value) : option string :=
  match v with
  | json.String s => Some s
  | json.Number f => Some (fmt.Sprintf_dot0f f)
  | _ => None
  end.

(** The first [switch] of [GetLightData], on [deviceData["id"]] and again on
    [deviceData["deviceId"]]: a non-empty string or a number is stored. *)
Definition storeDeviceID (api : MarsHydroAPI) (field : option json.value)
  : MarsHydroAPI :=
  match field with
  | Some (json.String v) => if isEmpty v then api else setDeviceID api v
  | Some (json.Number v) => setDeviceID api (fmt.Sprintf_dot0f v)
  | _ => api
  end.

Definition storeGroupID (api : MarsHydroAPI) (field : option json.value)
  : MarsHydroAPI :=
  match field with
  | Some (json.String v) => setGroupID api v
  | Some (json.Number v) => setGroupID api (fmt.Sprintf_dot0f v)
  | Some _ => api
  | None => setGroupID api ""
  end.

Definition GetLightData (api : MarsHydroAPI) (w : World)
  : (json.object + error) * MarsHydroAPI * World :=
  match ensureToken api w with
  | (Some err, api, w) => (inr err, api, w)
  | (None, api, w) =>
      let systemData := generateSystemData api w in
      let '(resp, w) :=
        roundTrip {| endpoint := getDeviceList; systemData := systemData;
                     payload := deviceListPayload |} w in
      match resp with
      | ConnError => (inr errTransport, api, w)
      | DecodeError => (inr errDecode, api, w)
      | Decoded resData =>
          if negb (codeIs resData "000") then
            (inr errRetrievingDevices, api,
             log (LogErrorInResponse (json.index resData "msg")) w)
          else
            let data :=
              match json.asObject (json.index resData "data") with
              | Some data => data
              | None => []
              end in
            match json.asArray (json.index data "list") with
            | None | Some [] => (inr errNoDevices, api, log LogNoLightDevices w)
            | Some (first :: _) =>
                match json.asObject first with
                | None => (inr errInvalidDeviceData, api, w)
                | Some deviceData =>
                    (* Try retrieving device id as string; if not, check if
                       it's numeric. *)
                    let api := storeDeviceID api (json.lookup deviceData "id") in
                    (* Fallback: check "deviceId" field similarly. *)
                    let api :=
                      if isEmpty (DeviceID api)
                      then storeDeviceID api (json.lookup deviceData "deviceId")
                      else api in
                    if isEmpty (DeviceID api) then
                      (inr errDeviceIdNotFound, api, w)
                    else
                      (* Retrieve group id if available. *)
                      let api := storeGroupID api (json.lookup deviceData "groupId") in
                      let lightData :=
                        [ ("deviceName", json.index deviceData "deviceName");
                          ("deviceLightRate", json.index deviceData "deviceLightRate");
                          ("isClose", json.index deviceData "isClose");
                          ("id", json.String (DeviceID api));
                          ("deviceImage", json.index deviceData "deviceImg");
                          ("groupId", json.String (GroupID api)) ] in
                      (inl lightData, api, w)
                end
            end
      end
  end.

Definition SetBrightness (brightness : Z) (api : MarsHydroAPI) (w : World)
  : option error * MarsHydroAPI * World :=
  let discovered :=
    if isEmpty (DeviceID api) then
      match GetLightData api w with
      | (inr err, api, w) => (Some err, api, w)
      | (inl _, api, w) => (None, api, w)
      end
    else (None, api, w) in
  match discovered with
  | (Some err, api, w) => (Some err, api, w)
  | (None, api, w) =>
      match ensureToken api w with
      | (Some err, api, w) => (Some err, api, w)
      | (None, api, w) =>
          let systemData := generateSystemData api w in
          let payload := lightPayload brightness (DeviceID api) (GroupID api) in
          let '(resp, w) :=
            roundTrip {| endpoint := adjustLight; systemData := systemData;
                         payload := payload |} w in
          match resp with
          | ConnError => (None, api, w)          (* [return nil] *)
          | DecodeError => (Some errDecode, api, w)
          | Decoded resData =>
              if negb (codeIs resData "000") then
                (Some errErrorResponse, api,
                 log (LogErrorInResponse (json.index resData "msg")) w)
              else (None, api, log LogBrightnessSet w)
          end
      end
  end.

(** ** Vocabulary for the properties *)

(** [w'] is [w] after some more requests. *)
Definition extends (w w' : World) : Prop :=
  exists l, sent w' = sent w ++ l.

(** The request [ToggleSwitch] sends from the session [api] in the world
    [w]. *)
Definition switchRequest (isClose : bool) (deviceID : string)
    (api : MarsHydroAPI) (w : World) : Request :=
  {| endpoint := lampSwitch; systemData := generateSystemData api w;
     payload := switchPayload isClose deviceID |}.

(** The time a list of replies takes. *)
Definition total (delays : list Z) : Z := fold_right Z.add 0 delays.

(** [r] is a request of [ToggleSwitch] for this device, sent with this
    token. *)
Definition isSwitchRequest (isClose : bool) (deviceID token : string)
    (r : Request) : Prop :=
  endpoint r = lampSwitch /\ payload r = switchPayload isClose deviceID /\
  sdToken (systemData r) = token.

(** The request [Login] sends from the session [api] in the world [w]. *)
Definition loginRequest (api : MarsHydroAPI) (w : World) : Request :=
  {| endpoint := mailLogin; systemData := generateSystemData api w;
     payload := loginPayload (Email api) (Password api) |}.

End api.

(* ================================================================== *)
(** * Package [config] *)

Module config.

(** [MHAccountConfig] holds account credentials. *)
Record MHAccountConfig : Type := {
  Email : string;
  Password : string;
  Wifiname : string;
  Timezone : string;
  Language : string
}.

(** The check [LoadLightTimerConfig] makes after decoding the file:
    [EndHour] must be greater than [StartHour + PlateauHour]. *)
Definition LoadLightTimerConfig_accepts (lt : timer.LightTimer) : bool :=
  negb (timer.EndHour lt
        <=? goint.add (timer.StartHour lt) (timer.PlateauHour lt)).

End config.

(* ================================================================== *)
(** * Package [main]: the reconciliation loop *)

Module main.

Import api.

Local Open Scope string_scope.
Local Open Scope list_scope.
Local Open Scope Z_scope.

(** The closure [updateState] of [main]; the variable [lastBrightness] it
    captures is passed in and returned. *)
Definition updateState (mhAccount : config.MHAccountConfig)
    (lastBrightness : Z) (state : Z) (w : World) : Z * World :=
  (* Always update if lastBrightness is unknown (-1) *)
  if negb (lastBrightness =? -1) && (state =? lastBrightness) then
    (lastBrightness,
     log (if state =? 0 then LogRemainsOff else LogRemainsOn state) w)
  else
    let w := log (LogSetting state) w in
    let mhapi :=
      NewMarsHydroAPI (config.Email mhAccount) (config.Password mhAccount)
        (config.Wifiname mhAccount) (config.Timezone mhAccount)
        (config.Language mhAccount) in
    match Login mhapi w with
    | (Some err, _, w) => (lastBrightness, log (LogLoginError err) w)
    | (None, mhapi, w) =>
        match SetBrightness state mhapi w with
        | (Some err, _, w) => (lastBrightness, log (LogFailedToSet err) w)
        | (None, _, w) =>
            (state,
             log (if state =? 0 then LogStatusOff else LogStatusOn state) w)
        end
    end.

(** A delivery of the ticker: the time it carries and the time that went by
    since the previous update ended. *)
Record Tick : Type := {
  tickNow : timer.Time;
  tickAfter : Z
}.

Definition wait (d : Z) (w : World) : World :=
  {| clock := clock w + d; service := service w; sent := sent w;
     logged := logged w |}.

(** [for now := range ticker.C { ... }], over the ticks delivered so far. *)
Fixpoint eventLoop (lt : timer.LightTimer) (mhAccount : config.MHAccountConfig)
    (ticks : list Tick) (lastBrightness : Z) (w : World) : Z * World :=
  match ticks with
  | [] => (lastBrightness, w)
  | tick :: ticks =>
      let w := wait (tickAfter tick) w in
      let expected := timer.GetExpectedBrightness lt (tickNow tick) in
      let '(lastBrightness, w) := updateState mhAccount lastBrightness expected w in
      eventLoop lt mhAccount ticks lastBrightness w
  end.

(** [main], once both configurations are loaded: the update on startup, then
    the event loop. *)
Definition run (lt : timer.LightTimer) (mhAccount : config.MHAccountConfig)
    (now : timer.Time) (ticks : list Tick) (w : World) : Z * World :=
  (* Assume initial state unknown; force update on startup. *)
  let lastBrightness := -1 in
  let expected := timer.GetExpectedBrightness lt now in
  let '(lastBrightness, w) := updateState mhAccount lastBrightness expected w in
  eventLoop lt mhAccount ticks lastBrightness w.

(** ** Vocabulary for the properties *)

(** The session [updateState] builds before it applies a brightness. *)
Definition freshSession (mhAccount : config.MHAccountConfig) : MarsHydroAPI :=
  NewMarsHydroAPI (config.Email mhAccount) (config.Password mhAccount)
    (config.Wifiname mhAccount) (config.Timezone mhAccount)
    (config.Language mhAccount).

(** The login request of a session that holds neither a token nor a device
    identifier, sent at the instant [at_]. *)
Definition firstLogin (mhAccount : config.MHAccountConfig) (at_ : Z) : Request :=
  {| endpoint := mailLogin;
     systemData :=
       {| sdClock := at_; sdDeviceId := ""; sdWifiName := config.Wifiname mhAccount;
          sdToken := ""; sdTimezone := config.Timezone mhAccount;
          sdLanguage := config.Language mhAccount |};
     payload := loginPayload (config.Email mhAccount) (config.Password mhAccount) |}.

End main.

(* ================================================================== *)
(** * Sample configurations, sessions and services *)

Module sample.

Import api.

Local Open Scope string_scope.
Local Open Scope list_scope.
Local Open Scope Z_scope.

Definition at_ (h m s : Z) : timer.Time :=
  {| timer.Hour := h; timer.Minute := m; timer.Second := s |}.

(** The configuration of the README. *)
Definition readme : timer.LightTimer :=
  {| timer.StartHour := 8; timer.PlateauHour := 6; timer.EndHour := 20;
     timer.StepSize := 10; timer.PlateauOffset := -1; timer.Brightness := 100 |}.

Definition withOffset (lt : timer.LightTimer) (o : Z) : timer.LightTimer :=
  {| timer.StartHour := timer.StartHour lt; timer.PlateauHour := timer.PlateauHour lt;
     timer.EndHour := timer.EndHour lt; timer.StepSize := timer.StepSize lt;
     timer.PlateauOffset := o; timer.Brightness := timer.Brightness lt |}.

Definition withBrightness (lt : timer.LightTimer) (b : Z) : timer.LightTimer :=
  {| timer.StartHour := timer.StartHour lt; timer.PlateauHour := timer.PlateauHour lt;
     timer.EndHour := timer.EndHour lt; timer.StepSize := timer.StepSize lt;
     timer.PlateauOffset := timer.PlateauOffset lt; timer.Brightness := b |}.

Definition account : config.MHAccountConfig :=
  {| config.Email := "grower@example.org"; config.Password := "secret";
     config.Wifiname := "wifi"; config.Timezone := "Europe/Berlin";
     config.Language := "German" |}.

(** A session of that account holding [token], obtained at [lastLogin], and
    the device [deviceID]. *)
Definition session (token : string) (lastLogin : Z) (deviceID : string)
  : MarsHydroAPI :=
  {| Email := "grower@example.org"; Password := "secret"; WifiName := "wifi";
     Token := token; Timezone := "Europe/Berlin"; Language := "German";
     BaseURL := "https://api.lgledsolutions.com/api/android";
     LastLoginTime := lastLogin; LoginInterval := 300 * Second;
     DeviceID := deviceID; GroupID := "" |}.

(** A world in which nothing was sent or logged yet. *)
Definition world (now : Z) (service : nat -> Z * Reply) : World :=
  {| clock := now; service := service; sent := []; logged := [] |}.

Definition success : json.object :=
  [("code", json.String "000"); ("msg", json.String "success")].

Definition expired : json.object :=
  [("code", json.String "102"); ("msg", json.String "token expired")].

Definition loggedIn (token : string) : json.object :=
  [("code", json.String "000");
   ("data", json.Object [("token", json.String token)])].

Definition oneDevice : json.object :=
  [("code", json.String "000");
   ("data", json.Object
      [("list", json.Array
         [json.Object [("id", json.Number (float64.of_int 4711));
                       ("deviceName", json.String "lamp")]])])].

(** A service that answers the n-th request with the n-th reply of [l],
    after a second (no connection once [l] is used up). *)
Definition replies (l : list Reply) : nat -> Z * Reply :=
  fun n => (Second, nth n l ConnError).

(** The same, answering at once. *)
Definition instantly (l : list Reply) : nat -> Z * Reply :=
  fun n => (0, nth n l ConnError).

(** What went over the wire: endpoint, token and device identifier of each
    request. *)
Definition wire (w : World) : list (Endpoint * string * string) :=
  map (fun r => (endpoint r, sdToken (systemData r), sdDeviceId (systemData r)))
      (sent w).

Definition outcome {A : Type} (r : A * MarsHydroAPI * World)
  : A * list (Endpoint * string * string) :=
  (fst (fst r), wire (snd r)).

End sample.

(* ================================================================== *)
(** * A configuration at the end of the range of [int] *)

Module extremes.

Local Open Scope Z_scope.

(** The hours and the offset of the README's configuration, with a step of
    5 and the largest [int] as [Brightness]. *)
Definition brightest : timer.LightTimer :=
  {| timer.StartHour := 8; timer.PlateauHour := 6; timer.EndHour := 20;
     timer.StepSize := 5; timer.PlateauOffset := -1;
     timer.Brightness := goint.maxInt |}.

End extremes.

(* ================================================================== *)
(** * Package [timer]: the report of the timing data *)

Module report.

Import timer.

Local Open Scope Z_scope.

(** What [PrintTimingData] gives to [log.Printf], line by line: the
    durations as ["%.0f"] prints them, the clock times as the three numbers
    of ["%02d:%02d:%02d"]. *)
Record TimingData : Type := {
  referenceTime : Time;
  baselineRampLine : string;
  plateauOffsetLine : string;
  sunriseDurationLine : string;
  sunsetDurationLine : string;
  sunriseAt : Z * Z * Z;
  plateauStartsAt : Z * Z * Z;
  plateauBrightnessLine : Z;
  plateauEndsAt : Z * Z * Z;
  sunsetAt : Z * Z * Z
}.

(** [sec/3600, (sec/60)%60, sec%60], with Go's division and remainder
    (truncated towards zero). *)
Definition clockOf (sec : Z) : Z * Z * Z :=
  (Z.quot sec 3600, goint.rem (Z.quot sec 60) 60, goint.rem sec 60).

(** [PrintTimingData] computes the ramps and the plateau with the statements
    of [GetExpectedBrightness], written out a second time in the source. *)
Definition PrintTimingData (lt : LightTimer) (now : Time) : TimingData :=
  {| referenceTime := now;
     baselineRampLine := fmt.Sprintf_dot0f (baselineRamp lt);
     plateauOffsetLine := fmt.Sprintf_dot0f (offsetSec lt);
     sunriseDurationLine := fmt.Sprintf_dot0f (sunriseRamp lt);
     sunsetDurationLine := fmt.Sprintf_dot0f (sunsetRamp lt);
     sunriseAt := clockOf (startSec lt);
     plateauStartsAt := clockOf (plateauStart lt);
     plateauBrightnessLine := Brightness lt;
     plateauEndsAt := clockOf (plateauEnd lt);
     sunsetAt := clockOf (endSec lt) |}.

End report.

(* ================================================================== *)
(** * Vocabulary for the session, the loop and the requests *)

Module session.

Import api.

Local Open Scope string_scope.
Local Open Scope list_scope.
Local Open Scope Z_scope.

(** The fields of a session that come from the account file and from
    [NewMarsHydroAPI]. *)
Definition credentials (api : MarsHydroAPI)
  : string * string * string * string * string * string * Z :=
  (Email api, Password api, WifiName api, Timezone api, Language api,
   BaseURL api, LoginInterval api).

(** A request that prepares a command: a login or a device discovery. *)
Definition isSessionRequest (r : Request) : Prop :=
  endpoint r = mailLogin \/ endpoint r = getDeviceList.

(** [w'] is [w] after at most [n] more requests, all of them logins or
    discoveries. *)
Definition prepares (n : nat) (w w' : World) : Prop :=
  exists l, sent w' = sent w ++ l /\ (List.length l <= n)%nat /\
            Forall isSessionRequest l.

(** The request [GetLightData] sends from the session [api] in the world
    [w]. *)
Definition listRequest (api : MarsHydroAPI) (w : World) : Request :=
  {| endpoint := getDeviceList; systemData := generateSystemData api w;
     payload := deviceListPayload |}.

(** The request [SetBrightness] sends from the session [api] in the world
    [w]. *)
Definition adjustRequest (brightness : Z) (api : MarsHydroAPI) (w : World)
  : Request :=
  {| endpoint := adjustLight; systemData := generateSystemData api w;
     payload := lightPayload brightness (DeviceID api) (GroupID api) |}.

(** The two attempts of [GetLightData] at a device identifier. *)
Definition discover (api : MarsHydroAPI) (deviceData : json.object) : MarsHydroAPI :=
  let api := storeDeviceID api (json.lookup deviceData "id") in
  if isEmpty (DeviceID api)
  then storeDeviceID api (json.lookup deviceData "deviceId")
  else api.

(** What [SetBrightness] does once the device is known: make sure there is
    a token, send the brightness, read the response. *)
Definition applyBrightness (brightness : Z) (api : MarsHydroAPI) (w : World)
  : option error * MarsHydroAPI * World :=
  match ensureToken api w with
  | (Some err, api, w) => (Some err, api, w)
  | (None, api, w) =>
      let '(resp, w) := roundTrip (adjustRequest brightness api w) w in
      match resp with
      | ConnError => (None, api, w)
      | DecodeError => (Some errDecode, api, w)
      | Decoded resData =>
          if negb (codeIs resData "000") then
            (Some errErrorResponse, api,
             log (LogErrorInResponse (json.index resData "msg")) w)
          else (None, api, log LogBrightnessSet w)
      end
  end.

(** [r] carries the brightness [b] to a device that is named. *)
Definition setsBrightness (b : Z) (r : Request) : Prop :=
  endpoint r = adjustLight /\
  exists deviceId groupId,
    payload r = lightPayload b deviceId groupId /\ isEmpty deviceId = false.

(** A service that answers "102" twice before it accepts the command, and
    the world after [ToggleSwitch] has been through it. *)
Definition flaky : World :=
  sample.world (10 * Second)
    (sample.instantly [Decoded sample.expired; Decoded sample.expired;
                       Decoded sample.success]).

Definition afterRetries : World :=
  match ToggleSwitch 3 false "4711" (sample.session "T1" 0 "4711") flaky with
  | Some (_, _, w') => w'
  | None => flaky
  end.

End session.

Module loop.

Import api.

Local Open Scope list_scope.

(** The request [r] went out between [w] and [w']. *)
Definition sentSince (w w' : World) (r : Request) : Prop :=
  exists before after, sent w' = sent w ++ before ++ r :: after.

End loop.

Module traffic.

Import api.

Local Open Scope list_scope.

(** The request [r] is one of the session [api]: its header carries the
    Wi-Fi name, the time zone and the language of the session, and its body
    is the one of its endpoint, with the e-mail address and the password of
    the session when it is a login. *)
Definition fromAccount (api : MarsHydroAPI) (r : Request) : Prop :=
  sdWifiName (systemData r) = WifiName api /\
  sdTimezone (systemData r) = Timezone api /\
  sdLanguage (systemData r) = Language api /\
  match endpoint r with
  | mailLogin => payload r = loginPayload (Email api) (Password api)
  | lampSwitch => exists isClose deviceId, payload r = switchPayload isClose deviceId
  | getDeviceList => payload r = deviceListPayload
  | adjustLight =>
      exists light deviceId groupId, payload r = lightPayload light deviceId groupId
  end.

(** [w'] is [w] after some more requests, all of them of the session
    [api]. *)
Definition speaks (api : MarsHydroAPI) (w w' : World) : Prop :=
  exists l, sent w' = sent w ++ l /\ Forall (fromAccount api) l.

End traffic.

(* ================================================================== *)
(** * The model of [float64] against the processor's

    [Prim2SF] and [SF2Prim] convert between Rocq's primitive floats, which
    the processor computes, and [spec_float]. *)

Module float64_checks.

(** The same binary64 value, NaN included. *)
Definition same (x y : float64.t) : bool :=
  match x, y with
  | S754_zero a, S754_zero b => Bool.eqb a b
  | S754_infinity a, S754_infinity b => Bool.eqb a b
  | S754_nan, S754_nan => true
  | S754_finite a m e, S754_finite b n f => Bool.eqb a b && (m =? n)%positive && (e =? f)
  | _, _ => false
  end.

Definition third : float64.t := float64.div (float64.of_int 1) (float64.of_int 3).

Definition samples : list float64.t :=
  [ S754_zero false; S754_zero true; S754_infinity false; S754_infinity true; S754_nan;
    float64.of_int 1; float64.of_int (-3); float64.of_int 10; float64.of_int 7200;
    float64.of_int (2 ^ 53 + 1); third;
    float64.div (float64.of_int 7199) (float64.of_int 7200) ].

(** Pairs at the ends of the format: the largest finite value, the smallest
    subnormal one, overflow and underflow. *)
Definition edges : list (float64.t * float64.t) :=
  [ (S754_finite false (2 ^ 53 - 1) 971, S754_finite false (2 ^ 53 - 1) 971);
    (S754_finite false (2 ^ 53 - 1) 971, S754_finite true 1 918);
    (S754_finite false (2 ^ 53 - 1) 971, S754_finite false 1 917);
    (S754_finite false 1 (-1074), S754_finite false 1 (-1074));
    (S754_finite false 3 (-1074), float64.of_int 2);
    (S754_finite true (2 ^ 52) (-1074), S754_finite false 1 (-1074));
    (S754_finite false (2 ^ 52 + 1) (-1074), third);
    (float64.of_int 1, S754_finite false (2 ^ 52) (-1074)) ].

Definition agree (f : float64.t -> float64.t -> float64.t)
    (g : float -> float -> float) : bool :=
  forallb (fun x =>
    forallb (fun y => same (Prim2SF (g (SF2Prim x) (SF2Prim y))) (f x y)) samples)
    samples
  && forallb (fun '(x, y) => same (Prim2SF (g (SF2Prim x) (SF2Prim y))) (f x y)) edges.

Definition agree_ltb : bool :=
  forallb (fun x =>
    forallb (fun y => Bool.eqb (PrimFloat.ltb (SF2Prim x) (SF2Prim y)) (float64.ltb x y))
      samples) samples.

(** [float64(i)] on the processor: the conversion of the magnitude, negated
    for a negative [i]. *)
Definition prim_of_int (z : Z) : float :=
  if z <? 0 then PrimFloat.opp (PrimFloat.of_uint63 (Uint63.of_Z (- z)))
  else PrimFloat.of_uint63 (Uint63.of_Z z).

Definition agree_of_int : bool :=
  forallb (fun z => same (Prim2SF (prim_of_int z)) (float64.of_int z))
    [0; 1; -1; 5; 100; 3600; 86399; -36000; 2 ^ 53; 2 ^ 53 + 1; 2 ^ 53 + 3;
     - (2 ^ 53 + 1); 2 ^ 62 + 12345; goint.maxInt; - goint.maxInt].

(** The fractions of the sunrise ramp of the README configuration, one
    every ten seconds. *)
Definition agree_fractions : bool :=
  forallb (fun a =>
    same (Prim2SF (PrimFloat.div (prim_of_int (10 * Z.of_nat a + 7)) (prim_of_int 7200)))
         (float64.div (float64.of_int (10 * Z.of_nat a + 7)) (float64.of_int 7200)))
    (seq 0 (Z.to_nat 720)).

End float64_checks.

(* ================================================================== *)
(** * The model of [float64] agrees with the processor on the samples *)

Module float64_agreement.

Import float64_checks.

Example add_agrees : agree float64.add PrimFloat.add = true.
Proof. vm_compute. reflexivity. Qed.

Example sub_agrees : agree float64.sub PrimFloat.sub = true.
Proof. vm_compute. reflexivity. Qed.

Example mul_agrees : agree float64.mul PrimFloat.mul = true.
Proof. vm_compute. reflexivity. Qed.

Example div_agrees : agree float64.div PrimFloat.div = true.
Proof. vm_compute. reflexivity. Qed.

Example ltb_agrees : agree_ltb = true.
Proof. vm_compute. reflexivity. Qed.

Example of_int_agrees : agree_of_int = true.
Proof. vm_compute. reflexivity. Qed.

Example fractions_agree : agree_fractions = true.
Proof. vm_compute. reflexivity. Qed.

End float64_agreement.

(* ================================================================== *)
(** * Facts about the model of [float64] *)

Module float64_facts.

Import float64.

Local Open Scope Q_scope.

Lemma pow2_pos (e : Z) : 0 < 2 ^ e.
Proof. apply Qpower_0_lt. reflexivity. Qed.

Lemma pow2_add (a b : Z) : 2 ^ (a + b) == 2 ^ a * 2 ^ b.
Proof. apply Qpower_plus. discriminate. Qed.

Lemma pow2_le (a b : Z) : (a <= b)%Z -> 2 ^ a <= 2 ^ b.
Proof. intros H. apply Qpower_le_compat_l; [exact H | discriminate]. Qed.

Lemma pow2_lt (a b : Z) : (a < b)%Z -> 2 ^ a < 2 ^ b.
Proof. intros H. apply Qpower_lt_compat_l; [exact H | reflexivity]. Qed.

Lemma pow2_lt_inv (a b : Z) : 2 ^ a < 2 ^ b -> (a < b)%Z.
Proof. intros H. apply (Qpower_lt_compat_l_inv 2); [exact H | reflexivity]. Qed.

Lemma pow2_inject (n : Z) : (0 <= n)%Z -> inject_Z (2 ^ n) == 2 ^ n.
Proof. intros H. apply (Zpower_Qpower 2 n H). Qed.

Lemma pow2_succ (a : Z) : 2 ^ (a + 1) == 2 * 2 ^ a.
Proof. rewrite pow2_add. change (2 ^ 1) with 2. ring. Qed.

Lemma inject_Z_pos_inv (k : Z) : 0 < inject_Z k -> (0 < k)%Z.
Proof. unfold Qlt, inject_Z; simpl. lia. Qed.

Lemma inject_Z_neg_inv (k : Z) : inject_Z k < 0 -> (k < 0)%Z.
Proof. unfold Qlt, inject_Z; simpl. lia. Qed.

Lemma inject_Z_minus (a b : Z) : inject_Z (a - b) = inject_Z a - inject_Z b.
Proof. unfold Z.sub. rewrite inject_Z_plus, inject_Z_opp. reflexivity. Qed.

(** ** Nearest integer *)

Lemma rne_floor (q : Q) : (rne q = Qfloor q \/ rne q = Qfloor q + 1)%Z.
Proof.
  unfold rne. destruct (Qcompare _ _); auto. destruct (Z.even _); auto.
Qed.

(** Rounding to the nearest integer is monotone, and exact on integers. *)
Lemma rne_mono (p q : Q) : p <= q -> (rne p <= rne q)%Z.
Proof.
  intros H. pose proof (Qfloor_resp_le _ _ H) as Hf.
  destruct (Z.eq_dec (Qfloor p) (Qfloor q)) as [E | N].
  - unfold rne. rewrite E.
    destruct (Qcompare_spec (p - inject_Z (Qfloor q)) (1 # 2));
      destruct (Qcompare_spec (q - inject_Z (Qfloor q)) (1 # 2));
      destruct (Z.even (Qfloor q)); try lia; exfalso; lra.
  - destruct (rne_floor p), (rne_floor q); lia.
Qed.

Lemma rne_Z (z : Z) : rne (inject_Z z) = z.
Proof.
  unfold rne. rewrite Qfloor_Z.
  destruct (Qcompare_spec (inject_Z z - inject_Z z) (1 # 2)); try reflexivity; exfalso; lra.
Qed.

Lemma rne_comp (p q : Q) : p == q -> rne p = rne q.
Proof.
  intros H. apply Z.le_antisymm; apply rne_mono; rewrite H; apply Qle_refl.
Qed.

Lemma rne_ge (z : Z) (q : Q) : inject_Z z <= q -> (z <= rne q)%Z.
Proof. intros H. rewrite <- (rne_Z z). now apply rne_mono. Qed.

Lemma rne_le (z : Z) (q : Q) : q <= inject_Z z -> (rne q <= z)%Z.
Proof. intros H. rewrite <- (rne_Z z). now apply rne_mono. Qed.

(** ** The binary logarithm of a positive rational *)

Lemma Qmake_pos (n d : positive) : 0 < Z.pos n # d.
Proof. reflexivity. Qed.

Lemma Qmake_mul_den (n : Z) (d : positive) : (n # d) * inject_Z (Z.pos d) == inject_Z n.
Proof. unfold Qeq, Qmult, inject_Z; simpl. lia. Qed.

(** [ilog2] is the binary logarithm, rounded down. *)
Lemma ilog2_spec (n d : positive) :
  2 ^ ilog2 n d <= Z.pos n # d /\ Z.pos n # d < 2 ^ (ilog2 n d + 1).
Proof.
  unfold ilog2.
  set (a := Z.log2 (Z.pos n)). set (b := Z.log2 (Z.pos d)).
  assert (Ha : (0 <= a)%Z) by apply Z.log2_nonneg.
  assert (Hb : (0 <= b)%Z) by apply Z.log2_nonneg.
  destruct (Z.log2_spec (Z.pos n)) as [Ha1 Ha2]; [lia|]. fold a in Ha1, Ha2.
  destruct (Z.log2_spec (Z.pos d)) as [Hb1 Hb2]; [lia|]. fold b in Hb1, Hb2.
  rewrite Zle_Qle, pow2_inject in Ha1, Hb1 by lia.
  rewrite Zlt_Qlt, pow2_inject in Ha2, Hb2 by lia.
  replace (Z.succ a) with (a + 1)%Z in Ha2 by lia.
  replace (Z.succ b) with (b + 1)%Z in Hb2 by lia.
  pose proof (Qmake_mul_den (Z.pos n) d) as Hq.
  pose proof (Qmake_pos n d) as Hq0.
  set (q := Z.pos n # d) in *.
  set (dn := inject_Z (Z.pos d)) in *. set (nn := inject_Z (Z.pos n)) in *.
  pose proof (pow2_pos a). pose proof (pow2_pos b). pose proof (pow2_pos (a - b)).
  assert (E1 : 2 ^ a == 2 ^ (a - b) * 2 ^ b).
  { rewrite <- pow2_add. replace (a - b + b)%Z with a by lia. reflexivity. }
  rewrite pow2_succ in Ha2, Hb2.
  destruct (Qle_bool (2 ^ (a - b)) q) eqn:Hc.
  - apply Qle_bool_iff in Hc. split; [exact Hc|].
    rewrite pow2_succ. nra.
  - assert (Hlt : q < 2 ^ (a - b)).
    { apply Qnot_le_lt. intros C. apply Qle_bool_iff in C. congruence. }
    replace (a - b - 1 + 1)%Z with (a - b)%Z by lia. split; [|exact Hlt].
    assert (E2 : 2 ^ (a - b) == 2 * 2 ^ (a - b - 1)).
    { rewrite <- pow2_succ. replace (a - b - 1 + 1)%Z with (a - b)%Z by lia. reflexivity. }
    pose proof (pow2_pos (a - b - 1)). nra.
Qed.

Lemma ilog2_unique (n d : positive) (l : Z) :
  2 ^ l <= Z.pos n # d -> Z.pos n # d < 2 ^ (l + 1) -> ilog2 n d = l.
Proof.
  intros H1 H2. destruct (ilog2_spec n d) as [H3 H4].
  assert (ilog2 n d < l + 1)%Z by (apply pow2_lt_inv; lra).
  assert (l < ilog2 n d + 1)%Z by (apply pow2_lt_inv; lra).
  lia.
Qed.

Lemma ilog2_mono (n1 d1 n2 d2 : positive) :
  Z.pos n1 # d1 <= Z.pos n2 # d2 -> (ilog2 n1 d1 <= ilog2 n2 d2)%Z.
Proof.
  intros H. destruct (ilog2_spec n1 d1) as [H1 _], (ilog2_spec n2 d2) as [_ H2].
  assert (ilog2 n1 d1 < ilog2 n2 d2 + 1)%Z by (apply pow2_lt_inv; lra).
  lia.
Qed.

(** ** The value of a rounding *)

Lemma grid_mono (n1 d1 n2 d2 : positive) :
  Z.pos n1 # d1 <= Z.pos n2 # d2 -> (grid n1 d1 <= grid n2 d2)%Z.
Proof. intros H. apply ilog2_mono in H. unfold grid. lia. Qed.

Lemma scaled_lt (n d : positive) : (Z.pos n # d) / 2 ^ grid n d < 2 ^ 53.
Proof.
  destruct (ilog2_spec n d) as [_ H].
  apply Qlt_shift_div_r; [apply pow2_pos|].
  rewrite <- pow2_add.
  eapply Qlt_le_trans; [exact H|]. apply pow2_le. unfold grid, prec. lia.
Qed.

Lemma scaled_ge (n d : positive) :
  (emin < grid n d)%Z -> 2 ^ 52 <= (Z.pos n # d) / 2 ^ grid n d.
Proof.
  intros Hg. destruct (ilog2_spec n d) as [H _].
  apply Qle_shift_div_l; [apply pow2_pos|].
  rewrite <- pow2_add.
  eapply Qle_trans; [|exact H]. apply pow2_le. unfold grid, prec in *. lia.
Qed.

Lemma scaled_nonneg (n d : positive) : 0 <= (Z.pos n # d) / 2 ^ grid n d.
Proof.
  apply Qle_shift_div_l; [apply pow2_pos|].
  pose proof (Qmake_pos n d). lra.
Qed.

Lemma mant_le (n d : positive) : (rne ((Z.pos n # d) / 2 ^ grid n d) <= 2 ^ 53)%Z.
Proof.
  apply rne_le. rewrite pow2_inject by lia. apply Qlt_le_weak, scaled_lt.
Qed.

Lemma mant_nonneg (n d : positive) : (0 <= rne ((Z.pos n # d) / 2 ^ grid n d))%Z.
Proof. apply rne_ge. apply scaled_nonneg. Qed.

Lemma mant_ge (n d : positive) :
  (emin < grid n d)%Z -> (2 ^ 52 <= rne ((Z.pos n # d) / 2 ^ grid n d))%Z.
Proof.
  intros H. apply rne_ge. rewrite pow2_inject by lia. now apply scaled_ge.
Qed.

Lemma rnd_pos_nonneg (n d : positive) : 0 <= rnd_pos n d.
Proof.
  unfold rnd_pos. pose proof (mant_nonneg n d) as H. rewrite Zle_Qle in H.
  apply Qmult_le_0_compat; [exact H | apply Qlt_le_weak, pow2_pos].
Qed.

(** Rounding is monotone: first on positive rationals, then on all. *)
Lemma rnd_pos_mono (n1 d1 n2 d2 : positive) :
  Z.pos n1 # d1 <= Z.pos n2 # d2 -> rnd_pos n1 d1 <= rnd_pos n2 d2.
Proof.
  intros H. pose proof (grid_mono _ _ _ _ H) as Hg. unfold rnd_pos.
  destruct (Z.eq_dec (grid n1 d1) (grid n2 d2)) as [E | N].
  - rewrite E. apply Qmult_le_compat_r; [|apply Qlt_le_weak, pow2_pos].
    rewrite <- Zle_Qle. apply rne_mono.
    apply Qmult_le_compat_r; [exact H|].
    apply Qlt_le_weak, Qinv_lt_0_compat, pow2_pos.
  - assert (Hlt : (grid n1 d1 < grid n2 d2)%Z) by lia.
    pose proof (mant_le n1 d1) as H1.
    assert (H2 : (2 ^ 52 <= rne ((Z.pos n2 # d2) / 2 ^ grid n2 d2))%Z).
    { apply mant_ge. unfold grid in *. lia. }
    rewrite Zle_Qle, pow2_inject in H1, H2 by lia.
    pose proof (pow2_pos (grid n1 d1)) as Hg1. pose proof (pow2_pos (grid n2 d2)) as Hg2.
    assert (Hpp : 2 ^ 53 * 2 ^ grid n1 d1 <= 2 ^ 52 * 2 ^ grid n2 d2).
    { rewrite <- !pow2_add. apply pow2_le. lia. }
    set (m1 := inject_Z (rne ((Z.pos n1 # d1) / 2 ^ grid n1 d1))) in *.
    set (m2 := inject_Z (rne ((Z.pos n2 # d2) / 2 ^ grid n2 d2))) in *.
    set (g1 := 2 ^ grid n1 d1) in *. set (g2 := 2 ^ grid n2 d2) in *.
    set (a := 2 ^ 53) in *. set (b := 2 ^ 52) in *.
    apply Qle_trans with (a * g1); [|apply Qle_trans with (b * g2)]; nra.
Qed.

Lemma Qnum_sign (q : Q) :
  match Qnum q with
  | Z0 => q == 0
  | Zpos n => 0 < q /\ q = (Z.pos n # Qden q)
  | Zneg n => q < 0 /\ q = (Z.neg n # Qden q)
  end.
Proof. destruct q as [[|n|n] d]; simpl; repeat split. Qed.

Lemma rnd_mono (p q : Q) : p <= q -> rnd p <= rnd q.
Proof.
  intros H. unfold rnd.
  pose proof (Qnum_sign p) as Hp. pose proof (Qnum_sign q) as Hq.
  destruct (Qnum p) as [|n1|n1], (Qnum q) as [|n2|n2];
    try (pose proof (rnd_pos_nonneg n1 (Qden p)));
    try (pose proof (rnd_pos_nonneg n2 (Qden q)));
    try lra.
  - apply rnd_pos_mono. destruct Hp as [_ <-], Hq as [_ <-]. exact H.
  - apply Qopp_le_compat. apply rnd_pos_mono.
    destruct Hp as [_ Ep], Hq as [_ Eq].
    change (Z.pos n2 # Qden q) with (- (Z.neg n2 # Qden q)).
    change (Z.pos n1 # Qden p) with (- (Z.neg n1 # Qden p)).
    rewrite <- Ep, <- Eq. lra.
Qed.

Lemma rnd_comp (p q : Q) : p == q -> rnd p == rnd q.
Proof. intros H. apply Qle_antisym; apply rnd_mono; rewrite H; apply Qle_refl. Qed.

#[export] Instance rnd_Proper : Proper (Qeq ==> Qeq) rnd.
Proof. intros p q H. now apply rnd_comp. Qed.

Lemma rnd_opp (q : Q) : rnd (- q) == - rnd q.
Proof. unfold rnd. destruct q as [[|n|n] d]; simpl; lra. Qed.

(** A value of the binary64 grid is its own rounding. *)
Lemma rnd_pos_dyadic (n d : positive) (k j : Z) :
  (0 < k < 2 ^ 53)%Z -> (emin <= j)%Z ->
  Z.pos n # d == inject_Z k * 2 ^ j -> rnd_pos n d == inject_Z k * 2 ^ j.
Proof.
  intros Hk Hj E. unfold rnd_pos.
  destruct (ilog2_spec n d) as [H1 _].
  assert (Hg : (grid n d <= j)%Z).
  { assert (ilog2 n d < 53 + j)%Z.
    { apply pow2_lt_inv. rewrite pow2_add.
      destruct Hk as [_ Hk]. rewrite Zlt_Qlt, pow2_inject in Hk by lia.
      pose proof (pow2_pos j). nra. }
    unfold grid, prec. lia. }
  assert (E2 : (Z.pos n # d) / 2 ^ grid n d == inject_Z (k * 2 ^ (j - grid n d))).
  { rewrite inject_Z_mult, pow2_inject by lia. rewrite E.
    replace j with ((j - grid n d) + grid n d)%Z at 1 by lia.
    rewrite pow2_add. field. pose proof (pow2_pos (grid n d)). lra. }
  rewrite (rne_comp _ _ E2), rne_Z, inject_Z_mult, pow2_inject by lia.
  replace j with ((j - grid n d) + grid n d)%Z at 2 by lia.
  rewrite pow2_add. ring.
Qed.

Lemma rnd_dyadic (q : Q) (k j : Z) :
  (Z.abs k < 2 ^ 53)%Z -> (emin <= j)%Z ->
  q == inject_Z k * 2 ^ j -> rnd q == q.
Proof.
  intros Hk Hj E. pose proof (pow2_pos j) as Hp.
  pose proof (Qnum_sign q) as Hq. unfold rnd.
  destruct (Qnum q) as [|n|n].
  - lra.
  - destruct Hq as [Hq0 Hq].
    apply Qeq_trans with (inject_Z k * 2 ^ j); [|symmetry; exact E].
    apply rnd_pos_dyadic; [|exact Hj|rewrite <- Hq; exact E].
    assert (Hk0 : 0 < inject_Z k) by nra. apply inject_Z_pos_inv in Hk0. lia.
  - destruct Hq as [Hq0 Hq].
    assert (E' : Z.pos n # Qden q == inject_Z (- k) * 2 ^ j).
    { change (Z.pos n # Qden q) with (- (Z.neg n # Qden q)). rewrite <- Hq, E, inject_Z_opp. ring. }
    assert (Hk0 : inject_Z k < 0) by nra. apply inject_Z_neg_inv in Hk0.
    assert (Hk' : (0 < - k < 2 ^ 53)%Z) by lia.
    rewrite (rnd_pos_dyadic _ _ _ _ Hk' Hj E').
    apply Qeq_trans with (inject_Z k * 2 ^ j); [|symmetry; exact E].
    rewrite inject_Z_opp. ring.
Qed.

(** Integers up to [2^53] are their own rounding. *)
Lemma rnd_Z (z : Z) : (Z.abs z <= 2 ^ 53)%Z -> rnd (inject_Z z) == inject_Z z.
Proof.
  intros H. destruct (Z.eq_dec (Z.abs z) (2 ^ 53)) as [E | N].
  - apply (rnd_dyadic _ (Z.sgn z) 53); [simpl; lia | unfold emin; lia |].
    rewrite <- pow2_inject, <- inject_Z_mult by lia. rewrite <- E, Z.mul_comm, Z.abs_sgn. reflexivity.
  - apply (rnd_dyadic _ z 0); [lia | unfold emin; lia |]. change (2 ^ 0) with 1. ring.
Qed.

Lemma rnd_0 : rnd 0 == 0.
Proof. reflexivity. Qed.

(** ** Finite values and what the operations compute on them *)

Lemma fin_comp (x : t) (p q : Q) : p == q -> fin x p -> fin x q.
Proof. intros E [H1 H2]. split; [exact H1|]. now rewrite H2. Qed.

Lemma ilog2_lt (n d : positive) (b : Z) : Z.pos n # d < 2 ^ b -> (ilog2 n d < b)%Z.
Proof.
  intros H. destruct (ilog2_spec n d) as [H1 _]. apply pow2_lt_inv. lra.
Qed.

Lemma round_pos_fin (s : bool) (n d : positive) :
  Z.pos n # d < 2 ^ 1023 ->
  fin (round_pos s n d) (if s then - rnd_pos n d else rnd_pos n d).
Proof.
  intros Hb. apply ilog2_lt in Hb.
  assert (Hg : (grid n d <= 970)%Z) by (unfold grid, prec, emin; lia).
  unfold round_pos, rnd_pos.
  pose proof (mant_nonneg n d) as Hm0.
  set (e := grid n d) in *. set (m := rne _) in *.
  destruct (m =? 2 ^ prec)%Z eqn:Em.
  - apply Z.eqb_eq in Em. rewrite Em.
    change (2 ^ (prec - 1))%Z with (Z.pos (2 ^ 52)).
    replace (e + 1 <=? emax - prec)%Z with true
      by (symmetry; apply Z.leb_le; unfold emax, prec; lia).
    split; [reflexivity|]. unfold F2Q.
    assert (E : inject_Z (Z.pos (2 ^ 52)) * 2 ^ (e + 1) == inject_Z (2 ^ prec) * 2 ^ e).
    { rewrite pow2_succ. change (inject_Z (2 ^ prec)) with (2 * inject_Z (Z.pos (2 ^ 52))). ring. }
    destruct s; rewrite E; reflexivity.
  - destruct m as [|p|p]; [| |lia].
    + split; [reflexivity|]. simpl. destruct s; ring.
    + replace (e <=? emax - prec)%Z with true
        by (symmetry; apply Z.leb_le; unfold emax, prec; lia).
      split; [reflexivity|]. unfold F2Q. destruct s; reflexivity.
Qed.

Lemma Qabs_lt_iff (q b : Q) : Qabs q < b <-> - b < q /\ q < b.
Proof.
  split.
  - intros H. split.
    + pose proof (Qle_Qabs (- q)) as H1. rewrite Qabs_opp in H1. lra.
    + pose proof (Qle_Qabs q). lra.
  - intros [H1 H2]. apply Qabs_case; intros; lra.
Qed.

(** Below the overflow threshold, [round] returns a finite number that
    stands for [rnd q]. *)
Lemma round_fin (s : bool) (q : Q) : Qabs q < 2 ^ 1023 -> fin (round s q) (rnd q).
Proof.
  intros H. apply Qabs_lt_iff in H. destruct H as [H1 H2].
  unfold round, rnd. pose proof (Qnum_sign q) as Hq.
  destruct (Qnum q) as [|n|n].
  - split; reflexivity.
  - destruct Hq as [_ Hq]. apply (round_pos_fin false). rewrite <- Hq. exact H2.
  - destruct Hq as [_ Hq]. apply (round_pos_fin true).
    change (Z.pos n # Qden q) with (- (Z.neg n # Qden q)). rewrite <- Hq. lra.
Qed.

Lemma fin_cases (x : t) (q : Q) :
  fin x q ->
  (exists s, x = S754_zero s) \/ (exists s m e, x = S754_finite s m e).
Proof.
  intros [H _]. destruct x; try discriminate; [left | right]; eauto.
Qed.

Lemma fin_neg (x : t) (q : Q) : fin x q -> fin (neg x) (- q).
Proof.
  intros [H1 H2]. destruct x as [s|s| |s m e]; try discriminate; split; try reflexivity.
  - simpl in *. rewrite <- H2. reflexivity.
  - unfold neg, F2Q in *. rewrite <- H2. destruct s; simpl; ring.
Qed.

(** On finite operands, each operation returns the rounding of the exact
    result. *)
Lemma fin_add (x y : t) (a b : Q) :
  fin x a -> fin y b -> Qabs (a + b) < 2 ^ 1023 -> fin (add x y) (rnd (a + b)).
Proof.
  intros [Fx Ex] [Fy Ey] Hb.
  assert (R : fin (round false (F2Q x + F2Q y)) (rnd (a + b))).
  { apply fin_comp with (rnd (F2Q x + F2Q y)); [now rewrite Ex, Ey|].
    apply round_fin. now rewrite Ex, Ey. }
  destruct x as [sx|sx| |sx mx ex], y as [sy|sy| |sy my ey]; try discriminate; exact R.
Qed.

Lemma fin_sub (x y : t) (a b : Q) :
  fin x a -> fin y b -> Qabs (a - b) < 2 ^ 1023 -> fin (sub x y) (rnd (a - b)).
Proof.
  intros Hx Hy Hb. unfold sub. apply fin_neg in Hy.
  apply (fin_add _ _ _ _ Hx Hy). exact Hb.
Qed.

Lemma fin_mul (x y : t) (a b : Q) :
  fin x a -> fin y b -> Qabs (a * b) < 2 ^ 1023 -> fin (mul x y) (rnd (a * b)).
Proof.
  intros [Fx Ex] [Fy Ey] Hb.
  assert (R : forall s, fin (round s (F2Q x * F2Q y)) (rnd (a * b))).
  { intros s. apply fin_comp with (rnd (F2Q x * F2Q y)); [now rewrite Ex, Ey|].
    apply round_fin. now rewrite Ex, Ey. }
  destruct x as [sx|sx| |sx mx ex], y as [sy|sy| |sy my ey]; try discriminate; apply R.
Qed.

Lemma fin_div (x y : t) (a b : Q) :
  fin x a -> fin y b -> ~ b == 0 -> Qabs (a / b) < 2 ^ 1023 ->
  fin (div x y) (rnd (a / b)).
Proof.
  intros [Fx Ex] [Fy Ey] Hb0 Hb.
  assert (R : forall s, fin (round s (F2Q x / F2Q y)) (rnd (a / b))).
  { intros s. apply fin_comp with (rnd (F2Q x / F2Q y)); [now rewrite Ex, Ey|].
    apply round_fin. now rewrite Ex, Ey. }
  destruct x as [sx|sx| |sx mx ex], y as [sy|sy| |sy my ey]; try discriminate;
    try apply R; exfalso; apply Hb0; rewrite <- Ey; reflexivity.
Qed.

(** On finite operands, [ltb] compares the values. *)
Lemma ltb_fin (x y : t) (a b : Q) :
  fin x a -> fin y b -> (ltb x y = true <-> a < b).
Proof.
  intros [Fx Ex] [Fy Ey].
  assert (R : (match F2Q x ?= F2Q y with Lt => true | _ => false end) = true <-> a < b).
  { rewrite <- Ex, <- Ey. destruct (Qcompare_spec (F2Q x) (F2Q y)); split; intros; try discriminate; try reflexivity; try assumption; exfalso; lra. }
  destruct x as [sx|sx| |sx mx ex], y as [sy|sy| |sy my ey]; try discriminate; exact R.
Qed.

Lemma fin_of_int_rnd (z : Z) :
  (Z.abs z <= 2 ^ 64)%Z -> fin (of_int z) (rnd (inject_Z z)).
Proof.
  intros H. apply round_fin. apply Qabs_lt_iff.
  assert (H1 : (- 2 ^ 64 <= z <= 2 ^ 64)%Z) by lia. destruct H1 as [H1 H2].
  rewrite Zle_Qle in H1, H2. rewrite inject_Z_opp, pow2_inject in H1 by lia.
  rewrite pow2_inject in H2 by lia.
  pose proof (pow2_lt 64 1023 eq_refl). lra.
Qed.

Lemma fin_of_int (z : Z) : (Z.abs z <= 2 ^ 53)%Z -> fin (of_int z) (inject_Z z).
Proof.
  intros H. apply fin_comp with (rnd (inject_Z z)); [now apply rnd_Z|].
  apply fin_of_int_rnd. lia.
Qed.

(** ** Conversion to [int] and [math.Round] *)

Lemma inject_Z_inj (a b : Z) : inject_Z a == inject_Z b -> a = b.
Proof. unfold Qeq, inject_Z; simpl. lia. Qed.

Lemma pow2_neg (p : positive) : 2 ^ Z.neg p == / inject_Z (Z.pow_pos 2 p).
Proof.
  change (Z.neg p) with (- Z.pos p)%Z. rewrite Qpower_opp.
  rewrite <- pow2_inject by lia. reflexivity.
Qed.

Lemma pow_pos_gt0 (p : positive) : (0 < Z.pow_pos 2 p)%Z.
Proof. change (Z.pow_pos 2 p) with (2 ^ Z.pos p)%Z. lia. Qed.

Lemma scaled_Z (m : positive) (e w : Z) :
  inject_Z (Z.pos m) * 2 ^ e == inject_Z w ->
  match e with
  | Zneg p => (Z.pos m / Z.pow_pos 2 p)%Z
  | _ => (Z.pos m * 2 ^ e)%Z
  end = w.
Proof.
  intros H. destruct e as [|p|p].
  - apply inject_Z_inj. rewrite inject_Z_mult. rewrite <- H. reflexivity.
  - apply inject_Z_inj. rewrite inject_Z_mult, pow2_inject by lia. exact H.
  - rewrite pow2_neg in H. pose proof (pow_pos_gt0 p) as Hd.
    set (d := Z.pow_pos 2 p) in *.
    assert (Hd' : 0 < inject_Z d) by (rewrite Zlt_Qlt in Hd; exact Hd).
    assert (E : inject_Z (Z.pos m) == inject_Z (w * d)).
    { rewrite inject_Z_mult, <- H. field. lra. }
    apply inject_Z_inj in E. rewrite E. apply Z.div_mul. lia.
Qed.

(** [to_int] gives back an integer that fits. *)
Lemma to_int_fin (x : t) (z : Z) :
  fin x (inject_Z z) -> (goint.minInt <= z <= goint.maxInt)%Z -> to_int x = z.
Proof.
  intros [Fx Ex] Hz. destruct x as [s|s| |s m e]; try discriminate.
  - simpl in Ex. apply (inject_Z_inj 0 z) in Ex. subst z. reflexivity.
  - unfold to_int, F2Q in *.
    assert (Ez : match e with
                 | Zneg p => (Z.pos m / Z.pow_pos 2 p)%Z
                 | _ => (Z.pos m * 2 ^ e)%Z
                 end = if s then (- z)%Z else z).
    { apply scaled_Z. destruct s; [rewrite inject_Z_opp|]; rewrite <- Ex; ring. }
    rewrite Ez.
    replace (if s then (- (if s then - z else z))%Z else if s then (- z)%Z else z) with z
      by (destruct s; lia).
    destruct Hz as [Hz1 Hz2]. apply Z.leb_le in Hz1, Hz2. rewrite Hz1, Hz2. reflexivity.
Qed.

Lemma Qle_bool_true (a b : Q) : a <= b -> Qle_bool a b = true.
Proof. apply Qle_bool_iff. Qed.

Lemma Qle_bool_false (a b : Q) : b < a -> Qle_bool a b = false.
Proof.
  intros H. destruct (Qle_bool a b) eqn:E; [|reflexivity].
  apply Qle_bool_iff in E. exfalso. lra.
Qed.

Lemma Qfloor_half (z : Z) : Qfloor (inject_Z z + (1 # 2)) = z.
Proof.
  pose proof (Qfloor_le (inject_Z z + (1 # 2))) as H1.
  pose proof (Qlt_floor (inject_Z z + (1 # 2))) as H2.
  set (f := Qfloor _) in *. rewrite inject_Z_plus in H2.
  change (inject_Z 1) with 1 in H2.
  assert (A : inject_Z f < inject_Z (z + 1))
    by (rewrite inject_Z_plus; change (inject_Z 1) with 1; lra).
  assert (B : inject_Z z < inject_Z (f + 1))
    by (rewrite inject_Z_plus; change (inject_Z 1) with 1; lra).
  rewrite <- Zlt_Qlt in A, B. lia.
Qed.

Lemma round_away_Z (z : Z) : round_away (inject_Z z) = z.
Proof.
  unfold round_away. destruct (Qle_bool 0 (inject_Z z)).
  - apply Qfloor_half.
  - rewrite <- inject_Z_opp, Qfloor_half. lia.
Qed.

Lemma round_away_comp (p q : Q) : p == q -> round_away p = round_away q.
Proof.
  intros H. unfold round_away.
  assert (E : Qle_bool 0 p = Qle_bool 0 q).
  { destruct (Qle_bool 0 q) eqn:Eq.
    - apply Qle_bool_iff in Eq. apply Qle_bool_iff. lra.
    - destruct (Qle_bool 0 p) eqn:Ep; [|reflexivity].
      apply Qle_bool_iff in Ep. assert (C : 0 <= q) by lra.
      apply Qle_bool_iff in C. congruence. }
  rewrite E. destruct (Qle_bool 0 q).
  - apply Qfloor_comp. now rewrite H.
  - f_equal. apply Qfloor_comp. now rewrite H.
Qed.

Lemma round_away_mono (p q : Q) : p <= q -> (round_away p <= round_away q)%Z.
Proof.
  intros H. unfold round_away.
  destruct (Qle_bool 0 p) eqn:Ep, (Qle_bool 0 q) eqn:Eq.
  - apply Qfloor_resp_le. lra.
  - apply Qle_bool_iff in Ep.
    assert (C : 0 <= q) by lra. apply Qle_bool_iff in C. congruence.
  - assert (Hp : p < 0).
    { apply Qnot_le_lt. intros C. apply Qle_bool_iff in C. congruence. }
    apply Qle_bool_iff in Eq.
    assert (A : (0 <= Qfloor (- p + (1 # 2)))%Z).
    { change 0%Z with (Qfloor 0). apply Qfloor_resp_le. lra. }
    assert (B : (0 <= Qfloor (q + (1 # 2)))%Z).
    { change 0%Z with (Qfloor 0). apply Qfloor_resp_le. lra. }
    lia.
  - assert (A : (Qfloor (- q + (1 # 2)) <= Qfloor (- p + (1 # 2)))%Z).
    { apply Qfloor_resp_le. lra. }
    lia.
Qed.

Lemma half_up_div (m d : Z) :
  (0 < d)%Z -> (0 <= m)%Z ->
  ((2 * m + d) / (2 * d) = if d <=? 2 * (m mod d) then m / d + 1 else m / d)%Z.
Proof.
  intros Hd Hm. pose proof (Z.div_mod m d ltac:(lia)) as E.
  pose proof (Z.mod_pos_bound m d Hd) as Hr.
  set (k := (m / d)%Z) in *. set (r := (m mod d)%Z) in *.
  destruct (d <=? 2 * r)%Z eqn:C.
  - apply Z.leb_le in C. symmetry. apply (Z.div_unique _ _ _ (2 * r - d)); nia.
  - apply Z.leb_gt in C. symmetry. apply (Z.div_unique _ _ _ (2 * r + d)); nia.
Qed.

Lemma Qfloor_half_frac (m d : Z) :
  (0 < d)%Z ->
  Qfloor (inject_Z m / inject_Z d + (1 # 2)) = ((2 * m + d) / (2 * d))%Z.
Proof.
  intros Hd. rewrite Zdiv_Qdiv. apply Qfloor_comp.
  rewrite inject_Z_plus, !inject_Z_mult.
  assert (0 < inject_Z d) by (rewrite Zlt_Qlt in Hd; exact Hd).
  change (inject_Z 2) with 2. field. lra.
Qed.

(** [Round] computes [round_away]. *)
Lemma fin_Round (x : t) (q : Q) :
  fin x q -> Qabs q <= 2 ^ 52 -> fin (Round x) (inject_Z (round_away q)).
Proof.
  intros [Fx Ex] Hb. apply Qabs_Qle_condition in Hb.
  assert (Hint : forall N : Z, F2Q x == inject_Z N -> fin x (inject_Z (round_away q))).
  { intros N EN. split; [exact Fx|].
    rewrite (round_away_comp q (inject_Z N)) by (rewrite <- Ex; exact EN).
    rewrite round_away_Z. exact EN. }
  destruct x as [s|s| |s m e]; try discriminate.
  - apply (Hint 0%Z). reflexivity.
  - destruct e as [|p|p].
    + apply (Hint (if s then - Z.pos m else Z.pos m)%Z).
      unfold F2Q. destruct s; [rewrite inject_Z_opp|]; change (2 ^ 0) with 1; ring.
    + apply (Hint (if s then - (Z.pos m * 2 ^ Z.pos p) else Z.pos m * 2 ^ Z.pos p)%Z).
      unfold F2Q. destruct s; [rewrite inject_Z_opp|]; rewrite inject_Z_mult, pow2_inject by lia; ring.
    + unfold Round. pose proof (pow_pos_gt0 p) as Hd.
      set (d := Z.pow_pos 2 p) in *.
      assert (Hd' : 0 < inject_Z d) by (rewrite Zlt_Qlt in Hd; exact Hd).
      assert (Ea : inject_Z (Z.pos m) * 2 ^ Z.neg p == inject_Z (Z.pos m) / inject_Z d).
      { rewrite pow2_neg. reflexivity. }
      assert (Hpos : 0 < inject_Z (Z.pos m) / inject_Z d).
      { apply Qlt_shift_div_l; [exact Hd'|]. rewrite Qmult_0_l. reflexivity. }
      rewrite <- half_up_div by lia.
      rewrite <- Qfloor_half_frac by exact Hd.
      set (a := inject_Z (Z.pos m) / inject_Z d) in *.
      assert (Er : round_away q = if s then (- Qfloor (a + (1 # 2)))%Z else Qfloor (a + (1 # 2))).
      { unfold F2Q in Ex. destruct s.
        - rewrite (round_away_comp q (- a)) by (rewrite <- Ex, Ea; reflexivity).
          unfold round_away. rewrite Qle_bool_false by lra.
          f_equal. apply Qfloor_comp. ring.
        - rewrite (round_away_comp q a) by (rewrite <- Ex, Ea; reflexivity).
          unfold round_away. rewrite Qle_bool_true by lra. reflexivity. }
      assert (Hn0 : (0 <= Qfloor (a + (1 # 2)))%Z).
      { change 0%Z with (Qfloor 0). apply Qfloor_resp_le. lra. }
      assert (Hn1 : (Qfloor (a + (1 # 2)) <= 2 ^ 52 + 1)%Z).
      { rewrite <- (Qfloor_Z (2 ^ 52 + 1)). apply Qfloor_resp_le.
        rewrite inject_Z_plus, pow2_inject by lia.
        assert (Ha : a <= 2 ^ 52).
        { destruct Hb as [Hb1 Hb2]. unfold F2Q in Ex. destruct s; rewrite Ea in Ex; lra. }
        change (inject_Z 1) with 1. lra. }
      rewrite Er. destruct (Qfloor (a + (1 # 2))) as [|n|n]; [| |lia].
      * split; [reflexivity|]. simpl. destruct s; reflexivity.
      * apply (fin_comp _ (if s then - rnd_pos n 1 else rnd_pos n 1)).
        { assert (E : rnd_pos n 1 == inject_Z (Z.pos n)).
          { apply (rnd_Z (Z.pos n)). lia. }
          destruct s; [rewrite inject_Z_opp|]; rewrite E; reflexivity. }
        apply round_pos_fin.
        change (Z.pos n # 1) with (inject_Z (Z.pos n)).
        assert (Hn2 : (Z.pos n < 2 ^ 1023)%Z) by lia.
        rewrite Zlt_Qlt, pow2_inject in Hn2 by lia. exact Hn2.
Qed.

End float64_facts.

(* ================================================================== *)
(** * Facts about the schedule engine *)

Module timer_facts.

Import float64 float64_facts timer sample.

Local Open Scope Z_scope.

(** An integer that fits is not changed by the wrap-around. *)
Lemma wrap_small (z : Z) : goint.minInt <= z <= goint.maxInt -> goint.wrap z = z.
Proof.
  unfold goint.wrap, goint.minInt, goint.maxInt. intros H.
  rewrite Z.mod_small; lia.
Qed.

Ltac unwrap :=
  unfold goint.add, goint.sub, goint.mul;
  repeat match goal with
         | |- context [goint.wrap ?z] =>
             rewrite (wrap_small z) by (unfold goint.minInt, goint.maxInt; lia)
         end.

Lemma Qabs_small (q : Q) (b : Z) :
  (- inject_Z b <= q <= inject_Z b)%Q -> (b < 2 ^ 1023)%Z -> (Qabs q < 2 ^ 1023)%Q.
Proof.
  intros [H1 H2] Hb. apply Qabs_lt_iff.
  assert (0 <= b). { assert (- inject_Z b <= inject_Z b)%Q by lra. rewrite <- inject_Z_opp, <- Zle_Qle in H. lia. }
  rewrite Zlt_Qlt, pow2_inject in Hb by lia. lra.
Qed.

Lemma rnd_sandwich (a b : Z) (q : Q) :
  Z.abs a <= 2 ^ 53 -> Z.abs b <= 2 ^ 53 ->
  (inject_Z a <= q <= inject_Z b)%Q -> (inject_Z a <= rnd q <= inject_Z b)%Q.
Proof.
  intros Ha Hb [H1 H2]. split.
  - rewrite <- (rnd_Z a Ha). now apply rnd_mono.
  - rewrite <- (rnd_Z b Hb). now apply rnd_mono.
Qed.

(** The integers and ramp lengths of a configuration [in_range] are exact
    in [float64]: no wrap-around, no rounding. *)
Section Exact.

Variable lt : LightTimer.
Hypothesis Hr : in_range lt.

Lemma startSec_eq : startSec lt = 3600 * StartHour lt.
Proof. destruct Hr as [(? & ? & ?) _]. unfold startSec. unwrap. lia. Qed.

Lemma endSec_eq : endSec lt = 3600 * EndHour lt.
Proof. destruct Hr as [(? & ? & ?) _]. unfold endSec. unwrap. lia. Qed.

Lemma plateauSec_eq : plateauSec lt = 3600 * PlateauHour lt.
Proof. destruct Hr as [(? & ? & ?) _]. unfold plateauSec. unwrap. lia. Qed.

Lemma baselineRamp_fin :
  fin (baselineRamp lt)
      (inject_Z (1800 * (EndHour lt - StartHour lt - PlateauHour lt))).
Proof.
  pose proof Hr as [(? & ? & ?) _].
  unfold baselineRamp. rewrite startSec_eq, endSec_eq, plateauSec_eq. unwrap.
  set (n := 3600 * EndHour lt - 3600 * StartHour lt - 3600 * PlateauHour lt).
  assert (Hn : Z.abs n <= 200000) by (unfold n; lia).
  assert (Eq : (inject_Z n / inject_Z 2 == inject_Z (1800 * (EndHour lt - StartHour lt - PlateauHour lt)))%Q).
  { replace n with (2 * (1800 * (EndHour lt - StartHour lt - PlateauHour lt))) by (unfold n; lia).
    rewrite inject_Z_mult. field. }
  apply (fin_comp _ (rnd (inject_Z n / inject_Z 2))).
  { rewrite Eq. apply rnd_Z. lia. }
  apply fin_div.
  - apply fin_of_int. lia.
  - apply fin_of_int. lia.
  - discriminate.
  - rewrite Eq. apply (Qabs_small _ (2 ^ 53)); [|lia].
    rewrite <- inject_Z_opp, <- !Zle_Qle. lia.
Qed.

Lemma offsetSec_fin : fin (offsetSec lt) (inject_Z (3600 * PlateauOffset lt)).
Proof.
  pose proof Hr as (_ & ? & _).
  unfold offsetSec. unwrap. rewrite Z.mul_comm. apply fin_of_int. lia.
Qed.

Lemma sunriseRamp_fin : fin (sunriseRamp lt) (inject_Z (sunriseSecs lt)).
Proof.
  pose proof Hr as ((? & ? & ?) & ? & _).
  unfold sunriseRamp, sunriseSecs. rewrite inject_Z_plus.
  set (a := 1800 * _). set (b := 3600 * _).
  apply (fin_comp _ (rnd (inject_Z a + inject_Z b))).
  { rewrite <- inject_Z_plus. apply rnd_Z. unfold a, b. lia. }
  apply fin_add; [apply baselineRamp_fin | apply offsetSec_fin |].
  rewrite <- inject_Z_plus. apply (Qabs_small _ (2 ^ 53)); [|lia].
  rewrite <- inject_Z_opp, <- !Zle_Qle. unfold a, b. lia.
Qed.

Lemma sunsetRamp_fin : fin (sunsetRamp lt) (inject_Z (sunsetSecs lt)).
Proof.
  pose proof Hr as ((? & ? & ?) & ? & _).
  unfold sunsetRamp, sunsetSecs. rewrite inject_Z_minus.
  set (a := 1800 * _). set (b := 3600 * _).
  apply (fin_comp _ (rnd (inject_Z a - inject_Z b))).
  { rewrite <- inject_Z_minus. apply rnd_Z. unfold a, b. lia. }
  apply fin_sub; [apply baselineRamp_fin | apply offsetSec_fin |].
  rewrite <- inject_Z_minus. apply (Qabs_small _ (2 ^ 53)); [|lia].
  rewrite <- inject_Z_opp, <- !Zle_Qle. unfold a, b. lia.
Qed.

Lemma plateauStart_eq : plateauStart lt = 3600 * StartHour lt + sunriseSecs lt.
Proof.
  pose proof Hr as ((? & ? & ?) & ? & _).
  unfold plateauStart. rewrite startSec_eq.
  rewrite (to_int_fin _ _ sunriseRamp_fin)
    by (unfold goint.minInt, goint.maxInt, sunriseSecs; lia).
  unfold sunriseSecs. unwrap. lia.
Qed.

Lemma plateauEnd_eq :
  plateauEnd lt = 3600 * StartHour lt + sunriseSecs lt + 3600 * PlateauHour lt.
Proof.
  pose proof Hr as ((? & ? & ?) & ? & _).
  unfold plateauEnd. rewrite plateauStart_eq, plateauSec_eq.
  unfold sunriseSecs. unwrap. lia.
Qed.

Lemma sunrise_test (nowSec : Z) :
  0 <= nowSec < 86400 ->
  float64.ltb (of_int nowSec) (float64.add (of_int (startSec lt)) (sunriseRamp lt))
  = (nowSec <? 3600 * StartHour lt + sunriseSecs lt).
Proof.
  intros Hn. pose proof Hr as ((? & ? & ?) & ? & _).
  rewrite startSec_eq.
  assert (F : fin (float64.add (of_int (3600 * StartHour lt)) (sunriseRamp lt))
                  (inject_Z (3600 * StartHour lt + sunriseSecs lt))).
  { rewrite inject_Z_plus.
    apply (fin_comp _ (rnd (inject_Z (3600 * StartHour lt) + inject_Z (sunriseSecs lt)))).
    { rewrite <- inject_Z_plus. apply rnd_Z. unfold sunriseSecs. lia. }
    apply fin_add; [apply fin_of_int; lia | apply sunriseRamp_fin |].
    rewrite <- inject_Z_plus. apply (Qabs_small _ (2 ^ 53)); [|lia].
    rewrite <- inject_Z_opp, <- !Zle_Qle. unfold sunriseSecs. lia. }
  pose proof (ltb_fin _ _ _ _ (fin_of_int nowSec ltac:(lia)) F) as L.
  rewrite <- Zlt_Qlt in L.
  destruct (Z.ltb_spec nowSec (3600 * StartHour lt + sunriseSecs lt)) as [C | C].
  - now apply L.
  - destruct (float64.ltb _ _); [|reflexivity]. exfalso.
    pose proof (proj1 L eq_refl). lia.
Qed.

End Exact.

(** ** The ramp formula *)

Lemma Qabs_int_bound (q : Q) (b : Z) :
  (- inject_Z b <= q <= inject_Z b)%Q -> b <= 2 ^ 53 -> (Qabs q < 2 ^ 1023)%Q.
Proof. intros H Hb. apply (Qabs_small q b H). lia. Qed.

Section Ramp.

Variable lt : LightTimer.
Hypothesis Hr : in_range lt.

Let s := StepSize lt.
Let M := Brightness lt.
Let B := 2 ^ 27.

Lemma step_pos_Q : (0 < inject_Z (StepSize lt))%Q.
Proof. destruct Hr as (_ & _ & [H _] & _). rewrite Zlt_Qlt in H. exact H. Qed.

Lemma step_ge1_Q : (1 <= inject_Z (StepSize lt))%Q.
Proof.
  destruct Hr as (_ & _ & [H _] & _).
  assert (H1 : 1 <= StepSize lt) by lia. rewrite Zle_Qle in H1. exact H1.
Qed.

Lemma step_le_Q : (inject_Z (StepSize lt) <= inject_Z (2 ^ 26))%Q.
Proof. destruct Hr as (_ & _ & [_ H] & _). rewrite <- Zle_Qle. exact H. Qed.

(** Intermediate values of the formula at an exact fraction in [0, 1]. *)
Lemma ramp_term_bounds (qf : Q) :
  (0 <= qf <= 1)%Q ->
  (- inject_Z (2 ^ 26) <= qf * inject_Z (M - s) <= inject_Z (2 ^ 26))%Q.
Proof.
  intros [H0 H1]. destruct Hr as (_ & _ & [Hs1 Hs2] & [HM1 HM2]). fold s in Hs1, Hs2. fold M in HM1, HM2.
  assert (Hd : - 2 ^ 26 <= M - s <= 2 ^ 26) by lia. destruct Hd as [Hd1 Hd2].
  rewrite Zle_Qle in Hd1, Hd2. rewrite inject_Z_opp in Hd1.
  set (d := inject_Z (M - s)) in *. set (b := inject_Z (2 ^ 26)) in *.
  assert (0 <= b)%Q by (unfold b; rewrite <- (Zle_Qle 0); lia).
  split; nra.
Qed.

Lemma ramp_sum_bounds (qf : Q) :
  (0 <= qf <= 1)%Q ->
  (- inject_Z B <= rnd (inject_Z s + rnd (qf * inject_Z (M - s))) <= inject_Z B)%Q.
Proof.
  intros Hq. pose proof (ramp_term_bounds qf Hq) as Ht.
  rewrite <- inject_Z_opp in Ht |- *.
  apply rnd_sandwich in Ht; [|simpl; lia|simpl; lia].
  apply rnd_sandwich; [unfold B; simpl; lia|unfold B; simpl; lia|].
  pose proof step_pos_Q as Hs0. pose proof step_le_Q as Hs2. fold s in Hs0, Hs2.
  unfold B. rewrite inject_Z_opp in *.
  change (inject_Z (2 ^ 27)) with (2 * inject_Z (2 ^ 26))%Q.
  destruct Ht as [T1 T2]. split; lra.
Qed.

Lemma ramp_quot_bounds (qf : Q) :
  (0 <= qf <= 1)%Q ->
  (- inject_Z B
   <= rnd (rnd (inject_Z s + rnd (qf * inject_Z (M - s))) / inject_Z s)
   <= inject_Z B)%Q.
Proof.
  intros Hq. pose proof (ramp_sum_bounds qf Hq) as [H1 H2].
  set (b := rnd (inject_Z s + _)) in *.
  rewrite <- inject_Z_opp.
  apply rnd_sandwich; [unfold B; simpl; lia|unfold B; simpl; lia|].
  rewrite inject_Z_opp.
  pose proof step_pos_Q as Hs0. pose proof step_ge1_Q as Hs1. fold s in Hs0, Hs1.
  assert (HB : (0 <= inject_Z B)%Q) by (unfold B; rewrite <- (Zle_Qle 0); lia).
  split.
  - apply Qle_shift_div_l; [exact Hs0|]. nra.
  - apply Qle_shift_div_r; [exact Hs0|]. nra.
Qed.

Lemma rampSteps_bounds (qf : Q) :
  (0 <= qf <= 1)%Q -> - B <= rampSteps lt qf <= B.
Proof.
  intros Hq. pose proof (ramp_quot_bounds qf Hq) as [H1 H2].
  unfold rampSteps. fold s M. split.
  - rewrite <- (round_away_Z (- B)). apply round_away_mono.
    rewrite inject_Z_opp. exact H1.
  - rewrite <- (round_away_Z B). now apply round_away_mono.
Qed.

(** [rampBrightness] on a fraction that stands for [qf] in [0, 1]: every
    intermediate value is finite, the rounded product is an exact integer,
    and the result is [rampSteps] steps, capped. *)
Lemma rampBrightness_spec (f : float64.t) (qf : Q) :
  fin f qf -> (0 <= qf <= 1)%Q ->
  rampBrightness lt f = cap lt (rampSteps lt qf * StepSize lt).
Proof.
  intros Ff Hq.
  pose proof Hr as (_ & _ & [Hs1 Hs2] & [HM1 HM2]).
  pose proof (ramp_term_bounds qf Hq) as Ht.
  pose proof (ramp_sum_bounds qf Hq) as Hb.
  pose proof (ramp_quot_bounds qf Hq) as Hd.
  pose proof (rampSteps_bounds qf Hq) as Hk.
  unfold rampSteps in Hk. fold s M in Hs1, Hs2, HM1, HM2, Hk.
  unfold rampBrightness, cap, rampSteps. fold s M.
  assert (Fs : fin (of_int s) (inject_Z s)) by (apply fin_of_int; lia).
  assert (FM : fin (of_int M) (inject_Z M)) by (apply fin_of_int; lia).
  assert (Fd : fin (float64.sub (of_int M) (of_int s)) (inject_Z (M - s))).
  { apply (fin_comp _ (rnd (inject_Z M - inject_Z s))).
    { rewrite <- inject_Z_minus. apply rnd_Z. lia. }
    apply fin_sub; [exact FM | exact Fs |].
    rewrite <- inject_Z_minus. apply (Qabs_int_bound _ (2 ^ 26)); [|lia].
    rewrite <- inject_Z_opp, <- !Zle_Qle. lia. }
  assert (Ft : fin (float64.mul f (float64.sub (of_int M) (of_int s)))
                   (rnd (qf * inject_Z (M - s)))).
  { apply fin_mul; [exact Ff | exact Fd |].
    apply (Qabs_int_bound _ (2 ^ 26)); [exact Ht | lia]. }
  set (tq := rnd (qf * inject_Z (M - s))) in *.
  assert (Htq : (- inject_Z (2 ^ 26) <= tq <= inject_Z (2 ^ 26))%Q).
  { rewrite <- inject_Z_opp in Ht |- *. apply rnd_sandwich; [simpl; lia | simpl; lia | exact Ht]. }
  assert (Fb : fin (float64.add (of_int s) (float64.mul f (float64.sub (of_int M) (of_int s))))
                   (rnd (inject_Z s + tq))).
  { apply fin_add; [exact Fs | exact Ft |].
    apply (Qabs_int_bound _ (2 ^ 27)); [|lia].
    destruct Htq as [T1 T2].
    pose proof step_pos_Q as Hs0. pose proof step_le_Q as Hs2'. fold s in Hs0, Hs2'.
    change (inject_Z (2 ^ 27)) with (2 * inject_Z (2 ^ 26))%Q.
    split; lra. }
  set (bq := rnd (inject_Z s + tq)) in *.
  pose proof step_pos_Q as Hs0. fold s in Hs0.
  assert (Fq : fin (float64.div
                      (float64.add (of_int s) (float64.mul f (float64.sub (of_int M) (of_int s))))
                      (of_int s))
                   (rnd (bq / inject_Z s))).
  { apply fin_div; [exact Fb | exact Fs | lra |].
    apply (Qabs_int_bound _ B); [|unfold B; lia].
    pose proof step_ge1_Q as Hs1'. fold s in Hs1'.
    assert (HB : (0 <= inject_Z B)%Q) by (unfold B; rewrite <- (Zle_Qle 0); lia).
    destruct Hb as [Hb1 Hb2]. split.
    - apply Qle_shift_div_l; [exact Hs0|]. nra.
    - apply Qle_shift_div_r; [exact Hs0|]. nra. }
  set (dq := rnd (bq / inject_Z s)) in *.
  assert (Fk : fin (Round (float64.div
                      (float64.add (of_int s) (float64.mul f (float64.sub (of_int M) (of_int s))))
                      (of_int s)))
                   (inject_Z (round_away dq))).
  { apply fin_Round; [exact Fq|]. apply Qabs_Qle_condition.
    assert (HB : (inject_Z B <= 2 ^ 52)%Q).
    { rewrite <- pow2_inject by lia. rewrite <- Zle_Qle. unfold B. lia. }
    destruct Hd as [Hd1 Hd2]. split; lra. }
  set (k := round_away dq) in *.
  assert (Hks : Z.abs (k * s) <= 2 ^ 53).
  { rewrite Z.abs_mul. unfold B in Hk.
    assert (Z.abs k <= 2 ^ 27) by lia. assert (Z.abs s <= 2 ^ 26) by lia.
    change (2 ^ 53) with (2 ^ 27 * 2 ^ 26). apply Z.mul_le_mono_nonneg; lia. }
  assert (FP : fin (float64.mul
                      (Round (float64.div
                        (float64.add (of_int s) (float64.mul f (float64.sub (of_int M) (of_int s))))
                        (of_int s)))
                      (of_int s))
                   (inject_Z (k * s))).
  { apply (fin_comp _ (rnd (inject_Z k * inject_Z s))).
    { rewrite <- inject_Z_mult. apply rnd_Z. exact Hks. }
    apply fin_mul; [exact Fk | exact Fs |].
    rewrite <- inject_Z_mult. apply (Qabs_int_bound _ (2 ^ 53)); [|lia].
    rewrite <- inject_Z_opp, <- !Zle_Qle. lia. }
  rewrite (to_int_fin _ _ FP) by (unfold goint.minInt, goint.maxInt; lia).
  reflexivity.
Qed.

Lemma rampSteps_mono (p q : Q) :
  StepSize lt <= Brightness lt -> (p <= q)%Q -> rampSteps lt p <= rampSteps lt q.
Proof.
  intros HsM Hpq. unfold rampSteps. fold s M. fold s M in HsM.
  pose proof step_pos_Q as Hs0. fold s in Hs0.
  assert (Hd : (0 <= inject_Z (M - s))%Q) by (rewrite <- (Zle_Qle 0); lia).
  apply round_away_mono, rnd_mono.
  apply Qmult_le_compat_r; [|apply Qlt_le_weak, Qinv_lt_0_compat, Hs0].
  apply rnd_mono. apply Qplus_le_r. apply rnd_mono.
  apply Qmult_le_compat_r; assumption.
Qed.

Lemma rampSteps_ge1 (q : Q) :
  StepSize lt <= Brightness lt -> (0 <= q)%Q -> 1 <= rampSteps lt q.
Proof.
  intros HsM Hq. pose proof Hr as (_ & _ & [Hs1 Hs2] & _).
  pose proof step_pos_Q as Hs0.
  apply Z.le_trans with (rampSteps lt 0); [|apply rampSteps_mono; assumption].
  unfold rampSteps. fold s M. fold s in Hs0, Hs1, Hs2.
  assert (E : (rnd (rnd (inject_Z s + rnd (0 * inject_Z (M - s))) / inject_Z s) == inject_Z 1)%Q).
  { assert (E0 : (rnd (0 * inject_Z (M - s)) == 0)%Q) by (rewrite Qmult_0_l; reflexivity).
    rewrite E0, Qplus_0_r, (rnd_Z s) by lia.
    assert (E1 : (inject_Z s / inject_Z s == inject_Z 1)%Q) by (field; lra).
    rewrite E1. apply rnd_Z. simpl; lia. }
  rewrite (round_away_comp _ _ E), round_away_Z. lia.
Qed.

End Ramp.

(** ** The phases of the schedule *)

Lemma nowSecOf_eq (now : Time) :
  clock_ok now ->
  nowSecOf now = 3600 * Hour now + 60 * Minute now + Second now /\
  0 <= nowSecOf now < 86400.
Proof.
  intros (? & ? & ?). unfold nowSecOf. unwrap. lia.
Qed.

Section Phases.

Variable lt : LightTimer.
Hypothesis Hr : in_range lt.

Lemma fraction_fin (a r : Z) (x : float64.t) :
  fin x (inject_Z r) -> 0 <= a <= r -> 0 < r -> r <= 2 ^ 52 ->
  fin (float64.div (of_int a) x) (rnd (inject_Z a / inject_Z r)) /\
  (0 <= rnd (inject_Z a / inject_Z r) <= 1)%Q.
Proof.
  intros Fx Ha Hr0 Hrb.
  assert (Hr' : (0 < inject_Z r)%Q) by (rewrite <- (Zlt_Qlt 0); exact Hr0).
  assert (Hq : (inject_Z 0 <= inject_Z a / inject_Z r <= inject_Z 1)%Q).
  { destruct Ha as [Ha1 Ha2]. rewrite Zle_Qle in Ha1, Ha2. split.
    - apply Qle_shift_div_l; [exact Hr'|]. change (inject_Z 0) with 0%Q in *. lra.
    - apply Qle_shift_div_r; [exact Hr'|]. change (inject_Z 1) with 1%Q. lra. }
  split.
  - apply fin_div; [apply fin_of_int; lia | exact Fx | lra |].
    apply (Qabs_int_bound _ 1); [|lia].
    change (inject_Z 0) with 0%Q in Hq. change (inject_Z 1) with 1%Q in *. lra.
  - apply (rnd_sandwich 0 1) in Hq; [exact Hq | simpl; lia | simpl; lia].
Qed.

(** The branch [brightnessAt] takes, by integer tests alone. *)
Lemma brightnessAt_branches (nowSec : Z) :
  0 <= nowSec < 86400 ->
  brightnessAt lt nowSec =
    if (nowSec <? 3600 * StartHour lt) || (nowSec >=? 3600 * EndHour lt) then 0
    else if nowSec <? 3600 * StartHour lt + sunriseSecs lt
    then rampBrightness lt
           (float64.div (of_int (nowSec - 3600 * StartHour lt)) (sunriseRamp lt))
    else if nowSec <? 3600 * StartHour lt + sunriseSecs lt + 3600 * PlateauHour lt
    then Brightness lt
    else rampBrightness lt
           (float64.div (of_int (3600 * EndHour lt - nowSec)) (sunsetRamp lt)).
Proof.
  intros Hn. pose proof Hr as ((? & ? & ?) & ? & _).
  unfold brightnessAt.
  rewrite (sunrise_test lt Hr nowSec Hn).
  rewrite (plateauStart_eq lt Hr), (plateauEnd_eq lt Hr).
  rewrite (startSec_eq lt Hr), (endSec_eq lt Hr).
  destruct (Z.ltb_spec nowSec (3600 * StartHour lt)) as [C1 | C1]; [reflexivity|].
  destruct (Z.geb_spec nowSec (3600 * EndHour lt)) as [C2 | C2]; [reflexivity|].
  cbn [orb].
  destruct (Z.ltb_spec nowSec (3600 * StartHour lt + sunriseSecs lt)) as [C3 | C3].
  - unwrap. reflexivity.
  - destruct (Z.geb_spec nowSec (3600 * StartHour lt + sunriseSecs lt)) as [_ | C4]; [|lia].
    cbn [andb].
    destruct (Z.ltb_spec nowSec (3600 * StartHour lt + sunriseSecs lt + 3600 * PlateauHour lt))
      as [C5 | C5]; [reflexivity|].
    destruct (Z.ltb_spec nowSec (3600 * EndHour lt)) as [_ | C6]; [|lia].
    unwrap. reflexivity.
Qed.

Lemma ramps_sum :
  sunriseSecs lt + sunsetSecs lt
  = 3600 * (EndHour lt - StartHour lt - PlateauHour lt).
Proof. unfold sunriseSecs, sunsetSecs. lia. Qed.

Lemma sunrise_value (nowSec : Z) :
  3600 * StartHour lt <= nowSec < 3600 * StartHour lt + sunriseSecs lt ->
  rampBrightness lt
    (float64.div (of_int (nowSec - 3600 * StartHour lt)) (sunriseRamp lt))
  = rampAt lt (nowSec - 3600 * StartHour lt) (sunriseSecs lt).
Proof.
  intros Hn. pose proof Hr as ((? & ? & ?) & ? & _).
  destruct (fraction_fin (nowSec - 3600 * StartHour lt) (sunriseSecs lt) (sunriseRamp lt))
    as [F Hq]; [apply (sunriseRamp_fin lt Hr) | lia | lia | unfold sunriseSecs; lia |].
  apply (rampBrightness_spec lt Hr _ _ F Hq).
Qed.

Lemma sunset_value (nowSec : Z) :
  0 < 3600 * EndHour lt - nowSec <= sunsetSecs lt ->
  rampBrightness lt
    (float64.div (of_int (3600 * EndHour lt - nowSec)) (sunsetRamp lt))
  = rampAt lt (3600 * EndHour lt - nowSec) (sunsetSecs lt).
Proof.
  intros Hn. pose proof Hr as ((? & ? & ?) & ? & _).
  destruct (fraction_fin (3600 * EndHour lt - nowSec) (sunsetSecs lt) (sunsetRamp lt))
    as [F Hq]; [apply (sunsetRamp_fin lt Hr) | lia | lia | unfold sunsetSecs; lia |].
  apply (rampBrightness_spec lt Hr _ _ F Hq).
Qed.

Theorem brightnessAt_phases (nowSec : Z) :
  0 <= nowSec < 86400 ->
  brightnessAt lt nowSec =
    if (nowSec <? 3600 * StartHour lt) || (nowSec >=? 3600 * EndHour lt) then 0
    else if nowSec <? 3600 * StartHour lt + sunriseSecs lt
    then rampAt lt (nowSec - 3600 * StartHour lt) (sunriseSecs lt)
    else if nowSec <? 3600 * StartHour lt + sunriseSecs lt + 3600 * PlateauHour lt
    then Brightness lt
    else rampAt lt (3600 * EndHour lt - nowSec) (sunsetSecs lt).
Proof.
  intros Hn. rewrite (brightnessAt_branches nowSec Hn).
  pose proof ramps_sum as Hsum.
  destruct (Z.ltb_spec nowSec (3600 * StartHour lt)) as [C1 | C1]; [reflexivity|].
  destruct (Z.geb_spec nowSec (3600 * EndHour lt)) as [C2 | C2]; [reflexivity|].
  cbn [orb].
  destruct (Z.ltb_spec nowSec (3600 * StartHour lt + sunriseSecs lt)) as [C3 | C3].
  - apply sunrise_value. lia.
  - destruct (Z.ltb_spec nowSec (3600 * StartHour lt + sunriseSecs lt + 3600 * PlateauHour lt))
      as [C5 | C5]; [reflexivity|].
    apply sunset_value. lia.
Qed.

(** Properties of a ramp value *)

Lemma fraction_nonneg (a r : Z) :
  0 <= a -> 0 < r -> (0 <= rnd (inject_Z a / inject_Z r))%Q.
Proof.
  intros Ha Hr0. rewrite <- rnd_0. apply rnd_mono.
  apply Qle_shift_div_l; [rewrite <- (Zlt_Qlt 0); exact Hr0|].
  rewrite Qmult_0_l. rewrite <- (Zle_Qle 0). exact Ha.
Qed.

Lemma cap_le (z : Z) : cap lt z <= Brightness lt.
Proof. unfold cap. destruct (Z.gtb_spec z (Brightness lt)); lia. Qed.

Lemma cap_mono (y z : Z) : y <= z -> cap lt y <= cap lt z.
Proof.
  intros H. unfold cap.
  destruct (Z.gtb_spec y (Brightness lt)), (Z.gtb_spec z (Brightness lt)); lia.
Qed.

Lemma cap_cases (z : Z) : cap lt z = z \/ cap lt z = Brightness lt.
Proof. unfold cap. destruct (z >? Brightness lt); auto. Qed.

Lemma rampAt_le (a r : Z) : rampAt lt a r <= Brightness lt.
Proof. apply cap_le. Qed.

Lemma rampAt_multiple (a r : Z) :
  (StepSize lt | rampAt lt a r) \/ rampAt lt a r = Brightness lt.
Proof.
  unfold rampAt. destruct (cap_cases (rampSteps lt (rnd (inject_Z a / inject_Z r)) * StepSize lt))
    as [E | E]; rewrite E; [left | right; reflexivity].
  apply Z.divide_factor_r.
Qed.

Lemma rampAt_ge_step (a r : Z) :
  StepSize lt <= Brightness lt -> 0 <= a -> 0 < r -> StepSize lt <= rampAt lt a r.
Proof.
  intros HsM Ha Hr0. pose proof Hr as (_ & _ & [Hs _] & _).
  pose proof (rampSteps_ge1 lt Hr _ HsM (fraction_nonneg a r Ha Hr0)) as Hk.
  unfold rampAt, cap.
  destruct (Z.gtb_spec (rampSteps lt (rnd (inject_Z a / inject_Z r)) * StepSize lt)
                       (Brightness lt)); [exact HsM | nia].
Qed.

Lemma rampAt_mono (a b r : Z) :
  StepSize lt <= Brightness lt -> a <= b -> 0 < r -> rampAt lt a r <= rampAt lt b r.
Proof.
  intros HsM Hab Hr0. pose proof Hr as (_ & _ & [Hs _] & _).
  unfold rampAt. apply cap_mono. apply Z.mul_le_mono_nonneg_r; [lia|].
  apply (rampSteps_mono lt Hr _ _ HsM). apply rnd_mono.
  apply Qmult_le_compat_r.
  - rewrite <- Zle_Qle. exact Hab.
  - apply Qlt_le_weak, Qinv_lt_0_compat. rewrite <- (Zlt_Qlt 0). exact Hr0.
Qed.

End Phases.

Lemma GetExpectedBrightness_phases (lt : LightTimer) (now : Time) :
  in_range lt -> clock_ok now ->
  GetExpectedBrightness lt now =
    let nowSec := nowSecOf now in
    if (nowSec <? 3600 * StartHour lt) || (nowSec >=? 3600 * EndHour lt) then 0
    else if nowSec <? 3600 * StartHour lt + sunriseSecs lt
    then rampAt lt (nowSec - 3600 * StartHour lt) (sunriseSecs lt)
    else if nowSec <? 3600 * StartHour lt + sunriseSecs lt + 3600 * PlateauHour lt
    then Brightness lt
    else rampAt lt (3600 * EndHour lt - nowSec) (sunsetSecs lt).
Proof.
  intros Hr Hc. destruct (nowSecOf_eq now Hc) as [_ Hn].
  unfold GetExpectedBrightness. apply (brightnessAt_phases lt Hr _ Hn).
Qed.

(** ** The properties of the specification *)

(** C9.  For the configuration {startHour:8, endHour:20, plateauHours:6,
    plateauOffset:-1, stepSize:10, maxBrightness:100},
    [GetExpectedBrightness] returns 10 at 08:00:00, 100 at 14:00:00, 0 at
    21:00:00 and 0 at 07:59:59. *)
Theorem readme_examples :
  GetExpectedBrightness readme (at_ 8 0 0) = 10 /\
  GetExpectedBrightness readme (at_ 14 0 0) = 100 /\
  GetExpectedBrightness readme (at_ 21 0 0) = 0 /\
  GetExpectedBrightness readme (at_ 7 59 59) = 0.
Proof. repeat split; vm_compute; reflexivity. Qed.

(** C6, as stated, fails: with [StepSize] 10 and [Brightness] 95 (the
    invariant holds) the plateau value at 14:00:00 is 95, which is not a
    multiple of 10. *)
Lemma plateau_value_not_a_multiple :
  config_invariant (withBrightness readme 95) /\
  GetExpectedBrightness (withBrightness readme 95) (at_ 14 0 0) = 95 /\
  ~ (StepSize (withBrightness readme 95) | 95).
Proof.
  split; [|split].
  - unfold config_invariant; cbn. lia.
  - vm_compute. reflexivity.
  - cbn. intros [k Hk]. lia.
Qed.

(** C6, amended.  For every configuration [in_range] and every time of day,
    the value [GetExpectedBrightness] returns never exceeds [Brightness],
    and it is an exact multiple of [StepSize] or [Brightness] itself (the
    plateau value and the cap of both ramps); it is a multiple of [StepSize]
    whenever [StepSize] divides [Brightness]. *)
Theorem brightness_quantised (lt : LightTimer) (now : Time) :
  in_range lt -> clock_ok now ->
  GetExpectedBrightness lt now <= Brightness lt /\
  ((StepSize lt | GetExpectedBrightness lt now)
   \/ GetExpectedBrightness lt now = Brightness lt) /\
  ((StepSize lt | Brightness lt) -> (StepSize lt | GetExpectedBrightness lt now)).
Proof.
  intros Hr Hc. rewrite (GetExpectedBrightness_phases lt now Hr Hc). cbv zeta.
  pose proof Hr as (_ & _ & _ & [HM _]).
  set (n := nowSecOf now).
  assert (A : forall a r, (StepSize lt | Brightness lt) -> (StepSize lt | rampAt lt a r)).
  { intros a r Hd. destruct (rampAt_multiple lt a r) as [H | H]; [exact H | now rewrite H]. }
  destruct ((n <? 3600 * StartHour lt) || (n >=? 3600 * EndHour lt)).
  { split; [lia|]. split; [left|intros _]; apply Z.divide_0_r. }
  destruct (n <? 3600 * StartHour lt + sunriseSecs lt).
  { split; [apply rampAt_le|]. split; [apply rampAt_multiple | apply A]. }
  destruct (n <? 3600 * StartHour lt + sunriseSecs lt + 3600 * PlateauHour lt).
  { split; [lia|]. split; [right; reflexivity | intros H; exact H]. }
  split; [apply rampAt_le|]. split; [apply rampAt_multiple | apply A].
Qed.

(** The README configuration at 09:30:00, on the sunrise ramp. *)
Lemma brightness_quantised_witness :
  GetExpectedBrightness readme (at_ 9 30 0) <= Brightness readme /\
  ((StepSize readme | GetExpectedBrightness readme (at_ 9 30 0))
   \/ GetExpectedBrightness readme (at_ 9 30 0) = Brightness readme) /\
  ((StepSize readme | Brightness readme) ->
   (StepSize readme | GetExpectedBrightness readme (at_ 9 30 0))).
Proof.
  apply (brightness_quantised readme (at_ 9 30 0)).
  - unfold in_range, hours_of_day; cbn; lia.
  - unfold clock_ok; cbn; lia.
Defined.

(** C10, as stated, fails: with [Brightness] the largest [int] and
    [StepSize] 5 ([extremes.brightest]) both ramps are positive and [Brightness] is at least
    [StepSize], and at 16:00:00, the first second of the sunset ramp inside
    the window, the interpolated value is 2^63 as a [float64], which no
    [int] holds: the conversion gives the least [int], the cap does not
    apply, and [GetExpectedBrightness] returns -2^63. *)
Lemma lower_bound_fails_for_huge_brightness :
  float64.ltb (float64.of_int 0) (sunriseRamp extremes.brightest) = true /\
  float64.ltb (float64.of_int 0) (sunsetRamp extremes.brightest) = true /\
  0 < StepSize extremes.brightest <= Brightness extremes.brightest /\
  startSec extremes.brightest <= nowSecOf (at_ 16 0 0) < endSec extremes.brightest /\
  GetExpectedBrightness extremes.brightest (at_ 16 0 0) = - 2 ^ 63 /\
  ~ StepSize extremes.brightest <= GetExpectedBrightness extremes.brightest (at_ 16 0 0).
Proof.
  repeat split; try (vm_compute; reflexivity); try (vm_compute; discriminate).
  vm_compute. intros H. apply H. reflexivity.
Qed.

(** C10, amended.  For every configuration with fields [in_range] whose
    sunrise and sunset ramps are both strictly positive and whose
    [Brightness] is at least [StepSize] > 0, and for every time of day
    inside the window [startSec, endSec), [GetExpectedBrightness] returns at
    least [StepSize]: the lamp is never computed as off inside the window. *)
Theorem in_window_at_least_step (lt : LightTimer) (now : Time) :
  in_range lt -> clock_ok now ->
  0 < sunriseSecs lt -> 0 < sunsetSecs lt ->
  StepSize lt <= Brightness lt ->
  startSec lt <= nowSecOf now < endSec lt ->
  StepSize lt <= GetExpectedBrightness lt now.
Proof.
  intros Hr Hc Hsr Hss HsM Hw.
  rewrite (startSec_eq lt Hr), (endSec_eq lt Hr) in Hw.
  rewrite (GetExpectedBrightness_phases lt now Hr Hc). cbv zeta.
  pose proof (ramps_sum lt) as Hsum.
  set (n := nowSecOf now) in *.
  destruct (Z.ltb_spec n (3600 * StartHour lt)) as [C1 | C1]; [lia|].
  destruct (Z.geb_spec n (3600 * EndHour lt)) as [C2 | C2]; [lia|].
  cbn [orb].
  destruct (Z.ltb_spec n (3600 * StartHour lt + sunriseSecs lt)) as [C3 | C3].
  { apply (rampAt_ge_step lt Hr); [exact HsM | lia | exact Hsr]. }
  destruct (Z.ltb_spec n (3600 * StartHour lt + sunriseSecs lt + 3600 * PlateauHour lt))
    as [C5 | C5]; [exact HsM|].
  apply (rampAt_ge_step lt Hr); [exact HsM | lia | exact Hss].
Qed.

(** The README configuration one second before the window ends. *)
Lemma in_window_at_least_step_witness :
  StepSize readme <= GetExpectedBrightness readme (at_ 19 59 59).
Proof.
  apply (in_window_at_least_step readme (at_ 19 59 59)).
  - unfold in_range, hours_of_day; cbn; lia.
  - unfold clock_ok; cbn; lia.
  - reflexivity.
  - reflexivity.
  - cbn; lia.
  - vm_compute. split; [discriminate | reflexivity].
Defined.

(** C8, as stated, fails: with [StepSize] 10 and [Brightness] 4 (the
    invariant holds, both ramps last three hours) the value falls from 4 at
    08:00:00 to 0 at 10:59:59, both inside the sunrise window. *)
Lemma sunrise_decrease :
  config_invariant (withOffset (withBrightness readme 4) 0) /\
  0 < sunriseSecs (withOffset (withBrightness readme 4) 0) /\
  0 < sunsetSecs (withOffset (withBrightness readme 4) 0) /\
  startSec (withOffset (withBrightness readme 4) 0) <= nowSecOf (at_ 8 0 0) /\
  nowSecOf (at_ 8 0 0) < nowSecOf (at_ 10 59 59) /\
  nowSecOf (at_ 10 59 59)
    < startSec (withOffset (withBrightness readme 4) 0)
      + sunriseSecs (withOffset (withBrightness readme 4) 0) /\
  GetExpectedBrightness (withOffset (withBrightness readme 4) 0) (at_ 8 0 0) = 4 /\
  GetExpectedBrightness (withOffset (withBrightness readme 4) 0) (at_ 10 59 59) = 0.
Proof.
  repeat split; try (vm_compute; reflexivity); try (vm_compute; discriminate).
Qed.

(** C8, amended.  For a fixed configuration [in_range] with positive ramp
    durations and [StepSize <= Brightness], [GetExpectedBrightness] is
    non-decreasing as the time of day increases through the sunrise window
    [startSec, startSec + sunriseRamp) and non-increasing as it increases
    through the sunset window [plateauEnd, endSec). *)
Theorem ramps_monotone (lt : LightTimer) (t1 t2 : Time) :
  in_range lt -> clock_ok t1 -> clock_ok t2 ->
  0 < sunriseSecs lt -> 0 < sunsetSecs lt ->
  StepSize lt <= Brightness lt ->
  nowSecOf t1 <= nowSecOf t2 ->
  (startSec lt <= nowSecOf t1 ->
   nowSecOf t2 < startSec lt + sunriseSecs lt ->
   GetExpectedBrightness lt t1 <= GetExpectedBrightness lt t2) /\
  (plateauEnd lt <= nowSecOf t1 ->
   nowSecOf t2 < endSec lt ->
   GetExpectedBrightness lt t2 <= GetExpectedBrightness lt t1).
Proof.
  intros Hr Hc1 Hc2 Hsr Hss HsM H12.
  pose proof Hr as ((? & ? & ?) & _).
  rewrite (startSec_eq lt Hr), (endSec_eq lt Hr), (plateauEnd_eq lt Hr).
  rewrite (GetExpectedBrightness_phases lt t1 Hr Hc1).
  rewrite (GetExpectedBrightness_phases lt t2 Hr Hc2). cbv zeta.
  pose proof (ramps_sum lt) as Hsum.
  set (n1 := nowSecOf t1) in *. set (n2 := nowSecOf t2) in *.
  split.
  - intros Hlo Hhi.
    destruct (Z.ltb_spec n1 (3600 * StartHour lt)) as [A1 | A1]; [lia|].
    destruct (Z.geb_spec n1 (3600 * EndHour lt)) as [A2 | A2]; [lia|].
    destruct (Z.ltb_spec n2 (3600 * StartHour lt)) as [B1 | B1]; [lia|].
    destruct (Z.geb_spec n2 (3600 * EndHour lt)) as [B2 | B2]; [lia|].
    cbn [orb].
    destruct (Z.ltb_spec n1 (3600 * StartHour lt + sunriseSecs lt)) as [A3 | A3]; [|lia].
    destruct (Z.ltb_spec n2 (3600 * StartHour lt + sunriseSecs lt)) as [B3 | B3]; [|lia].
    apply (rampAt_mono lt Hr); [exact HsM | lia | exact Hsr].
  - intros Hlo Hhi.
    destruct (Z.ltb_spec n1 (3600 * StartHour lt)) as [A1 | A1]; [lia|].
    destruct (Z.geb_spec n1 (3600 * EndHour lt)) as [A2 | A2]; [lia|].
    destruct (Z.ltb_spec n2 (3600 * StartHour lt)) as [B1 | B1]; [lia|].
    destruct (Z.geb_spec n2 (3600 * EndHour lt)) as [B2 | B2]; [lia|].
    cbn [orb].
    destruct (Z.ltb_spec n1 (3600 * StartHour lt + sunriseSecs lt)) as [A3 | A3]; [lia|].
    destruct (Z.ltb_spec n2 (3600 * StartHour lt + sunriseSecs lt)) as [B3 | B3]; [lia|].
    destruct (Z.ltb_spec n1 (3600 * StartHour lt + sunriseSecs lt + 3600 * PlateauHour lt))
      as [A5 | A5]; [lia|].
    destruct (Z.ltb_spec n2 (3600 * StartHour lt + sunriseSecs lt + 3600 * PlateauHour lt))
      as [B5 | B5]; [lia|].
    apply (rampAt_mono lt Hr); [exact HsM | lia | exact Hss].
Qed.

(** The README configuration at 08:00:00 and 09:00:00, on the sunrise ramp. *)
Lemma ramps_monotone_witness :
  GetExpectedBrightness readme (at_ 8 0 0) <= GetExpectedBrightness readme (at_ 9 0 0).
Proof.
  refine (proj1 (ramps_monotone readme (at_ 8 0 0) (at_ 9 0 0) _ _ _ _ _ _ _) _ _).
  - unfold in_range, hours_of_day; cbn; lia.
  - unfold clock_ok; cbn; lia.
  - unfold clock_ok; cbn; lia.
  - reflexivity.
  - reflexivity.
  - cbn; lia.
  - vm_compute. discriminate.
  - vm_compute. discriminate.
  - vm_compute. reflexivity.
Defined.

(** C5, as stated, fails: with [PlateauOffset] -10 the sunrise ramp is
    negative and the value at 08:00:00, the start of the window, is 90; with
    [PlateauOffset] 10 the sunset ramp is negative and the value at 19:00:00
    is 90; [Brightness] is 100 in both. *)
Lemma nonpositive_ramp_without_jump :
  config_invariant (withOffset readme (-10)) /\
  float64.ltb (sunriseRamp (withOffset readme (-10))) (of_int 0) = true /\
  startSec (withOffset readme (-10)) <= nowSecOf (at_ 8 0 0)
    < endSec (withOffset readme (-10)) /\
  GetExpectedBrightness (withOffset readme (-10)) (at_ 8 0 0) = 90 /\
  config_invariant (withOffset readme 10) /\
  float64.ltb (sunsetRamp (withOffset readme 10)) (of_int 0) = true /\
  startSec (withOffset readme 10) <= nowSecOf (at_ 19 0 0)
    < endSec (withOffset readme 10) /\
  GetExpectedBrightness (withOffset readme 10) (at_ 19 0 0) = 90 /\
  Brightness readme = 100.
Proof.
  repeat split; try (vm_compute; reflexivity); try (vm_compute; discriminate).
Qed.

(** C5, amended.  [GetExpectedBrightness] is total and cannot fault (it has
    no integer division, and a [float64] division returns a value whatever
    the divisor), and it has no guard for a ramp that is zero or negative.
    For a configuration [in_range] and a time inside the window: a sunset
    ramp that is zero or negative is never divided by, the value is that of
    the sunrise ramp before [startSec + sunriseRamp] and [Brightness] from
    there on; a sunrise ramp that is zero or negative is never divided by,
    the value is [Brightness] before [plateauEnd] and that of the sunset
    ramp from [plateauEnd] on. *)
Theorem nonpositive_ramp_never_divides (lt : LightTimer) (now : Time) :
  in_range lt -> clock_ok now ->
  startSec lt <= nowSecOf now < endSec lt ->
  (F2Q (sunriseRamp lt) == inject_Z (sunriseSecs lt))%Q /\
  (F2Q (sunsetRamp lt) == inject_Z (sunsetSecs lt))%Q /\
  (sunsetSecs lt <= 0 ->
     (nowSecOf now < startSec lt + sunriseSecs lt ->
        0 < sunriseSecs lt /\
        GetExpectedBrightness lt now
        = rampBrightness lt
            (float64.div (of_int (goint.sub (nowSecOf now) (startSec lt)))
                         (sunriseRamp lt))) /\
     (startSec lt + sunriseSecs lt <= nowSecOf now ->
        GetExpectedBrightness lt now = Brightness lt)) /\
  (sunriseSecs lt <= 0 ->
     (nowSecOf now < plateauEnd lt ->
        GetExpectedBrightness lt now = Brightness lt) /\
     (plateauEnd lt <= nowSecOf now ->
        0 < sunsetSecs lt /\
        GetExpectedBrightness lt now
        = rampBrightness lt
            (float64.div (of_int (goint.sub (endSec lt) (nowSecOf now)))
                         (sunsetRamp lt)))).
Proof.
  intros Hr Hc Hw. pose proof Hr as ((? & ? & ?) & _).
  destruct (nowSecOf_eq now Hc) as [_ Hn].
  split; [apply (sunriseRamp_fin lt Hr)|]. split; [apply (sunsetRamp_fin lt Hr)|].
  rewrite (plateauEnd_eq lt Hr).
  rewrite (startSec_eq lt Hr), (endSec_eq lt Hr) in *.
  unfold GetExpectedBrightness. rewrite (brightnessAt_branches lt Hr _ Hn).
  pose proof (ramps_sum lt) as Hsum.
  set (n := nowSecOf now) in *.
  destruct (Z.ltb_spec n (3600 * StartHour lt)) as [C1 | C1]; [lia|].
  destruct (Z.geb_spec n (3600 * EndHour lt)) as [C2 | C2]; [lia|].
  cbn [orb].
  assert (U1 : goint.sub n (3600 * StartHour lt) = n - 3600 * StartHour lt) by (unwrap; reflexivity).
  assert (U2 : goint.sub (3600 * EndHour lt) n = 3600 * EndHour lt - n) by (unwrap; reflexivity).
  rewrite U1, U2.
  split.
  - intros Hss. split.
    + intros C3. split; [lia|].
      destruct (Z.ltb_spec n (3600 * StartHour lt + sunriseSecs lt)); [reflexivity | lia].
    + intros C3.
      destruct (Z.ltb_spec n (3600 * StartHour lt + sunriseSecs lt)); [lia|].
      destruct (Z.ltb_spec n (3600 * StartHour lt + sunriseSecs lt + 3600 * PlateauHour lt));
        [reflexivity | lia].
  - intros Hsr.
    destruct (Z.ltb_spec n (3600 * StartHour lt + sunriseSecs lt)); [lia|].
    split.
    + intros C5.
      destruct (Z.ltb_spec n (3600 * StartHour lt + sunriseSecs lt + 3600 * PlateauHour lt));
        [reflexivity | lia].
    + intros C5. split; [lia|].
      destruct (Z.ltb_spec n (3600 * StartHour lt + sunriseSecs lt + 3600 * PlateauHour lt));
        [lia | reflexivity].
Qed.

(** [PlateauOffset] -3 makes the sunrise ramp zero: the window starts on
    the plateau. *)
Lemma nonpositive_ramp_never_divides_witness :
  GetExpectedBrightness (withOffset readme (-3)) (at_ 8 0 0) = 100.
Proof.
  refine (proj1 (proj2 (proj2 (proj2
     (nonpositive_ramp_never_divides (withOffset readme (-3)) (at_ 8 0 0) _ _ _))) _) _).
  - unfold in_range, hours_of_day; cbn; lia.
  - unfold clock_ok; cbn; lia.
  - vm_compute. split; [discriminate | reflexivity].
  - vm_compute. discriminate.
  - vm_compute. reflexivity.
Defined.

End timer_facts.

(* ================================================================== *)
(** * Facts about the device session and the reconciliation loop *)

Module api_facts.

Import api main sample.

Local Open Scope string_scope.
Local Open Scope list_scope.
Local Open Scope Z_scope.

(** ** Requests are only ever appended *)

Lemma extends_refl w : extends w w.
Proof. exists []. now rewrite app_nil_r. Qed.

Lemma extends_trans w1 w2 w3 : extends w1 w2 -> extends w2 w3 -> extends w1 w3.
Proof. intros [l1 H1] [l2 H2]. exists (l1 ++ l2). now rewrite H2, H1, app_assoc. Qed.

Lemma extends_log l w : extends w (log l w).
Proof. exists []. simpl. now rewrite app_nil_r. Qed.

Lemma extends_log_r l w w' : extends w w' -> extends w (log l w').
Proof. intros H. exact H. Qed.

Lemma roundTrip_sent req w :
  sent (snd (roundTrip req w)) = sent w ++ [req].
Proof. unfold roundTrip. destruct (service w _). reflexivity. Qed.

Lemma roundTrip_extends req w : extends w (snd (roundTrip req w)).
Proof. exists [req]. apply roundTrip_sent. Qed.

Lemma Login_extends api w : extends w (snd (Login api w)).
Proof.
  unfold Login. destruct (_ && _); [apply extends_log|].
  pose proof (roundTrip_extends
    {| endpoint := mailLogin; systemData := generateSystemData api w;
       payload := loginPayload (Email api) (Password api) |} w) as H.
  destruct (roundTrip _ w) as [resp w1]. simpl in H.
  destruct resp as [| |resData]; try exact H.
  destruct (json.asObject _); [|exact H].
  destruct (json.asString _); exact H.
Qed.

Lemma ensureToken_extends api w : extends w (snd (ensureToken api w)).
Proof.
  unfold ensureToken. destruct (isEmpty _); [apply Login_extends | apply extends_refl].
Qed.

Lemma GetLightData_extends api w : extends w (snd (GetLightData api w)).
Proof.
  unfold GetLightData.
  pose proof (ensureToken_extends api w) as H0.
  destruct (ensureToken api w) as [[[err|] api1] w1]; simpl in H0; [exact H0|].
  pose proof (roundTrip_extends
    {| endpoint := getDeviceList; systemData := generateSystemData api1 w1;
       payload := deviceListPayload |} w1) as H.
  destruct (roundTrip _ w1) as [resp w2]. simpl in H.
  assert (H2 : extends w w2) by (eapply extends_trans; eassumption).
  destruct resp as [| |resData]; try exact H2.
  destruct (negb _); [exact H2|].
  destruct (json.asArray _) as [[|first ?]|]; try exact H2.
  destruct (json.asObject first); [|exact H2].
  destruct (isEmpty (DeviceID _)); exact H2.
Qed.

Lemma SetBrightness_extends b api w : extends w (snd (SetBrightness b api w)).
Proof.
  unfold SetBrightness.
  assert (H0 : extends w (snd (if isEmpty (DeviceID api)
     then match GetLightData api w with
          | (inl _, api0, w0) => (None, api0, w0)
          | (inr err, api0, w0) => (Some err, api0, w0)
          end
     else (@None error, api, w)))).
  { destruct (isEmpty _); [|apply extends_refl].
    pose proof (GetLightData_extends api w) as H.
    destruct (GetLightData api w) as [[[?|?] ?] ?]; exact H. }
  destruct (if isEmpty (DeviceID api) then _ else _) as [[[err|] api1] w1];
    simpl in H0; [exact H0|].
  pose proof (ensureToken_extends api1 w1) as H1.
  destruct (ensureToken api1 w1) as [[[err|] api2] w2]; simpl in H1;
    [eapply extends_trans; eassumption|].
  pose proof (roundTrip_extends
    {| endpoint := adjustLight; systemData := generateSystemData api2 w2;
       payload := lightPayload b (DeviceID api2) (GroupID api2) |} w2) as H.
  destruct (roundTrip _ w2) as [resp w3]. simpl in H.
  assert (H3 : extends w w3) by (eapply extends_trans; [|eassumption]; eapply extends_trans; eassumption).
  destruct resp as [| |resData]; try exact H3.
  destruct (negb _); exact H3.
Qed.

(** ** ensureToken and Login *)

(** [Login] sends its request when the token is empty or old, and returns at
    once otherwise. *)
Lemma Login_contacts api w :
  isEmpty (Token api) = true \/ LoginInterval api <= Since w (LastLoginTime api) ->
  sent (snd (Login api w))
  = sent w ++ [loginRequest api w].
Proof.
  intros H. unfold Login.
  replace (negb (isEmpty (Token api)) && (Since w (LastLoginTime api) <? LoginInterval api))
    with false.
  2:{ symmetry. apply andb_false_iff. destruct H as [H | H].
      - left. now rewrite H.
      - right. apply Z.ltb_ge. exact H. }
  pose proof (roundTrip_sent
    {| endpoint := mailLogin; systemData := generateSystemData api w;
       payload := loginPayload (Email api) (Password api) |} w) as R.
  destruct (roundTrip _ w) as [resp w1]. simpl in R.
  destruct resp as [| |resData]; try exact R.
  destruct (json.asObject _); [|exact R].
  destruct (json.asString _); exact R.
Qed.

Lemma Login_skips api w :
  isEmpty (Token api) = false -> Since w (LastLoginTime api) < LoginInterval api ->
  Login api w = (None, api, log LogTokenStillValid w).
Proof.
  intros H1 H2. unfold Login. rewrite H1. apply Z.ltb_lt in H2. rewrite H2. reflexivity.
Qed.

(** C3, amended.  [ensureToken] performs a login exactly when the cached
    token is empty, whatever its age; with a token it is a no-op that leaves
    the session and the world unchanged.  The age of the token is looked at
    by [Login] alone: it returns at once when there is a token younger than
    [LoginInterval], and contacts the login endpoint when the token is empty
    or at least [LoginInterval] old. *)
Theorem ensureToken_spec (api : MarsHydroAPI) (w : World) :
  (isEmpty (Token api) = false -> ensureToken api w = (None, api, w)) /\
  (isEmpty (Token api) = true ->
     ensureToken api w = Login api w /\
     sent (snd (ensureToken api w))
     = sent w ++ [loginRequest api w]) /\
  (isEmpty (Token api) = false -> Since w (LastLoginTime api) < LoginInterval api ->
     Login api w = (None, api, log LogTokenStillValid w)) /\
  (isEmpty (Token api) = true \/ LoginInterval api <= Since w (LastLoginTime api) ->
     sent (snd (Login api w))
     = sent w ++ [loginRequest api w]).
Proof.
  repeat split.
  - intros H. unfold ensureToken. now rewrite H.
  - unfold ensureToken. now rewrite H.
  - unfold ensureToken. rewrite H. apply Login_contacts. now left.
  - apply Login_skips.
  - apply Login_contacts.
Qed.

(** ** ToggleSwitch *)

Lemma ensureToken_nonempty api w :
  isEmpty (Token api) = false -> ensureToken api w = (None, api, w).
Proof. intros H. unfold ensureToken. now rewrite H. Qed.

Lemma Since_mono (w1 w2 : World) (t : Z) :
  clock w1 <= clock w2 -> Since w1 t <= Since w2 t.
Proof.
  intros H. unfold Since. lia.
Qed.

Lemma total_nonneg (delays : list Z) : Forall (fun e => 0 <= e) delays -> 0 <= total delays.
Proof. unfold total. induction 1 as [|e l He _ IH]; cbn; lia. Qed.

(** How far the resending goes while the token stays younger than
    [LoginInterval]: the [Login] that [ToggleSwitch] calls after a response
    with the code "102" sends nothing then, and as many such responses in a
    row as there are [delays] are followed by one request more than that in
    all, each with the token that was turned down.  (The recursion of the
    source has no counter; the fuel given here is what the model needs to
    follow it to its end.) *)
Theorem ToggleSwitch_retries (delays : list Z) :
  forall (isClose : bool) (deviceID : string) (api : MarsHydroAPI) (w : World)
         (resData : json.object) (d : Z),
  isEmpty (Token api) = false ->
  Forall (fun e => 0 <= e) delays ->
  Since (wait (total delays) w) (LastLoginTime api) < LoginInterval api ->
  (forall k, (k < List.length delays)%nat ->
     exists r, service w (List.length (sent w) + k)%nat = (nth k delays 0, Decoded r)
               /\ codeIs r "102" = true) ->
  service w (List.length (sent w) + List.length delays)%nat = (d, Decoded resData) ->
  codeIs resData "102" = false ->
  exists w' reqs,
    ToggleSwitch (S (List.length delays)) isClose deviceID api w
    = Some (inl resData, api, w') /\
    sent w' = sent w ++ reqs /\
    List.length reqs = S (List.length delays) /\
    Forall (isSwitchRequest isClose deviceID (Token api)) reqs /\
    clock w' = clock w + total delays + d.
Proof.
  induction delays as [|e delays IH];
    intros isClose deviceID api w resData d Htok Hpos Hfresh Hexp Hlast Hcode.
  - cbn [ToggleSwitch List.length]. rewrite (ensureToken_nonempty api w Htok).
    unfold roundTrip. cbn [List.length] in Hlast. rewrite Nat.add_0_r in Hlast.
    rewrite Hlast, Hcode.
    eexists. exists [switchRequest isClose deviceID api w].
    split; [reflexivity|]. cbn. repeat split; try lia.
    constructor; [|constructor]. repeat split.
  - destruct (Hexp 0%nat ltac:(cbn; lia)) as (r & Hr & Hc).
    rewrite Nat.add_0_r in Hr. cbn [nth] in Hr.
    inversion Hpos as [|? ? He Hpos']; subst.
    pose proof (total_nonneg delays Hpos') as Ht.
    change (ToggleSwitch (S (List.length (e :: delays))) isClose deviceID api w)
      with (match ensureToken api w with
            | (Some err, api, w) => Some (inr err, api, w)
            | (None, api, w) =>
                let '(resp, w) := roundTrip (switchRequest isClose deviceID api w) w in
                match resp with
                | ConnError => Some (inr errTransport, api, w)
                | DecodeError => Some (inr errDecode, api, w)
                | Decoded resData =>
                    if codeIs resData "102" then
                      match Login api (log LogTokenExpired w) with
                      | (Some err, api, w) => Some (inr err, api, w)
                      | (None, api, w) =>
                          ToggleSwitch (S (List.length delays)) isClose deviceID api w
                      end
                    else Some (inl resData, api, w)
                end
            end).
    rewrite (ensureToken_nonempty api w Htok).
    unfold roundTrip. rewrite Hr, Hc.
    set (w1 := {| clock := clock w + e; service := service w;
                  sent := sent w ++ [switchRequest isClose deviceID api w];
                  logged := logged w |}).
    assert (Hfresh1 : Since (log LogTokenExpired w1) (LastLoginTime api) < LoginInterval api).
    { eapply Z.le_lt_trans; [|exact Hfresh]. apply Since_mono. unfold total in *. cbn. lia. }
    rewrite (Login_skips api (log LogTokenExpired w1) Htok Hfresh1).
    set (w2 := log LogTokenStillValid (log LogTokenExpired w1)).
    assert (Hlen : List.length (sent w2) = S (List.length (sent w))).
    { cbn. rewrite length_app. cbn. lia. }
    destruct (IH isClose deviceID api w2 resData d Htok Hpos') as (w' & reqs & E & Hs & Hl & Hf & Hc').
    + eapply Z.le_lt_trans; [|exact Hfresh]. apply Since_mono. unfold total in *. cbn. lia.
    + intros k Hk. rewrite Hlen. cbn [service w2 log w1].
      destruct (Hexp (S k) ltac:(cbn; lia)) as (r' & Hr' & Hc'').
      exists r'. split; [|exact Hc'']. cbn [nth] in Hr'. rewrite <- Hr'. f_equal. lia.
    + rewrite Hlen. cbn [service w2 log w1]. rewrite <- Hlast. f_equal. cbn. lia.
    + exact Hcode.
    + exists w', (switchRequest isClose deviceID api w :: reqs).
      split; [exact E|]. repeat split.
      * rewrite Hs. cbn [sent w2 log w1]. rewrite <- app_assoc. reflexivity.
      * cbn. lia.
      * constructor; [repeat split | exact Hf].
      * rewrite Hc'. unfold total. cbn. lia.
Qed.

(** The fuel only bounds the depth the model follows the recursion to: a
    call that returns keeps its result when given more. *)
Lemma ToggleSwitch_more_fuel (fuel : nat) :
  forall isClose deviceID api w r,
  ToggleSwitch fuel isClose deviceID api w = Some r ->
  ToggleSwitch (S fuel) isClose deviceID api w = Some r.
Proof.
  induction fuel as [|fuel IH]; intros isClose deviceID api w r H; [discriminate|].
  cbn [ToggleSwitch] in H |- *.
  destruct (ensureToken api w) as [[[err|] api1] w1]; [exact H|].
  destruct (roundTrip _ w1) as [resp w2].
  destruct resp as [| |resData]; try exact H.
  destruct (codeIs resData "102"); [|exact H].
  destruct (Login api1 (log LogTokenExpired w2)) as [[[err|] api3] w3]; [exact H|].
  apply IH. exact H.
Qed.

(** Against a service that answers "102" to everything, a call with a
    token younger than [LoginInterval] never returns. *)
Lemma ToggleSwitch_never_returns (fuel : nat) :
  forall isClose deviceID api w,
  isEmpty (Token api) = false ->
  Since w (LastLoginTime api) < LoginInterval api ->
  (forall k, service w k = (0, Decoded expired)) ->
  ToggleSwitch fuel isClose deviceID api w = None.
Proof.
  induction fuel as [|fuel IH]; intros isClose deviceID api w Htok Hfresh Hsvc; [reflexivity|].
  cbn [ToggleSwitch]. rewrite (ensureToken_nonempty api w Htok).
  unfold roundTrip. rewrite Hsvc.
  change (codeIs expired "102") with true. cbv iota.
  set (w1 := {| clock := clock w + 0; service := service w;
                sent := sent w ++ _; logged := logged w |}).
  assert (Hfresh1 : Since (log LogTokenExpired w1) (LastLoginTime api) < LoginInterval api).
  { unfold Since in *. cbn. rewrite Z.add_0_r. exact Hfresh. }
  rewrite (Login_skips api (log LogTokenExpired w1) Htok Hfresh1).
  apply IH; [exact Htok | | exact Hsvc].
  unfold Since in *. cbn. rewrite Z.add_0_r. exact Hfresh.
Qed.

(** ** updateState *)

(** The two branches of [updateState]. *)
Lemma updateState_skip mhAccount lastBrightness state w :
  lastBrightness <> -1 -> state = lastBrightness ->
  updateState mhAccount lastBrightness state w
  = (lastBrightness, log (if state =? 0 then LogRemainsOff else LogRemainsOn state) w).
Proof.
  intros H1 H2. unfold updateState.
  apply Z.eqb_neq in H1. apply Z.eqb_eq in H2. rewrite H1, H2. reflexivity.
Qed.

Lemma updateState_apply mhAccount lastBrightness state w :
  lastBrightness = -1 \/ state <> lastBrightness ->
  (exists rest,
     sent (snd (updateState mhAccount lastBrightness state w))
     = sent w ++ firstLogin mhAccount (clock w) :: rest) /\
  fst (updateState mhAccount lastBrightness state w)
  = match Login (freshSession mhAccount) (log (LogSetting state) w) with
    | (Some _, _, _) => lastBrightness
    | (None, mhapi, w1) =>
        match SetBrightness state mhapi w1 with
        | (Some _, _, _) => lastBrightness
        | (None, _, _) => state
        end
    end.
Proof.
  intros H. unfold updateState.
  replace (negb (lastBrightness =? -1) && (state =? lastBrightness)) with false.
  2:{ symmetry. apply andb_false_iff. destruct H as [H | H].
      - left. subst. reflexivity.
      - right. now apply Z.eqb_neq. }
  fold (freshSession mhAccount).
  pose proof (Login_contacts (freshSession mhAccount) (log (LogSetting state) w)
                (or_introl eq_refl)) as L.
  change (sent (log (LogSetting state) w)) with (sent w) in L.
  change (loginRequest (freshSession mhAccount) (log (LogSetting state) w))
    with (firstLogin mhAccount (clock w)) in L.
  destruct (Login (freshSession mhAccount) (log (LogSetting state) w)) as [[[err|] api1] w1];
    simpl in L.
  - split; [|reflexivity]. exists []. exact L.
  - pose proof (SetBrightness_extends state api1 w1) as [l S].
    destruct (SetBrightness state api1 w1) as [[[err|] api2] w2]; simpl in S;
      (split; [|reflexivity]); exists l; cbn [snd sent log]; rewrite S, L, <- app_assoc; reflexivity.
Qed.

(** ** The properties of the specification *)

(** C1, at the failing input.  The comment in [ToggleSwitch] says that a
    response with the code "102" makes it re-authenticate, and with a token
    older than [LoginInterval] it does: it logs in, and sends the command
    again with the new token (first equation).  With a token that is ten
    seconds old the [Login] it calls returns at once, so no login request
    goes out: the command is sent again with the token that was just turned
    down, and after a second "102" a third time (second equation).
    [SetBrightness] has no such branch: answered with "102" it sends
    nothing more and returns an error (third equation). *)
Theorem expired_token_sent_again_without_login :
  option_map outcome
    (ToggleSwitch 2 false "4711" (session "T1" 0 "4711")
       (world (301 * Second)
          (instantly [Decoded expired; Decoded (loggedIn "T2"); Decoded success])))
  = Some (inl success,
          [(lampSwitch, "T1", "4711"); (mailLogin, "T1", "4711");
           (lampSwitch, "T2", "4711")])
  /\
  option_map outcome
    (ToggleSwitch 3 false "4711" (session "T1" 0 "4711")
       (world (10 * Second)
          (instantly [Decoded expired; Decoded expired; Decoded success])))
  = Some (inl success,
          [(lampSwitch, "T1", "4711"); (lampSwitch, "T1", "4711");
           (lampSwitch, "T1", "4711")])
  /\
  outcome
    (SetBrightness 50 (session "T1" 0 "4711")
       (world (10 * Second) (instantly [Decoded expired; Decoded success])))
  = (Some errErrorResponse, [(adjustLight, "T1", "4711")]).
Proof. repeat split; vm_compute; reflexivity. Qed.

(** Two expiries, then a success: three requests in three seconds. *)
Lemma ToggleSwitch_retries_witness :
  exists w' reqs,
    ToggleSwitch 3 false "4711" (session "T1" 0 "4711")
      (world (10 * Second)
         (replies [Decoded expired; Decoded expired; Decoded success]))
    = Some (inl success, session "T1" 0 "4711", w') /\
    sent w' = [] ++ reqs /\
    List.length reqs = 3%nat /\
    Forall (isSwitchRequest false "4711" "T1") reqs /\
    clock w' = 10 * Second + total [Second; Second] + Second.
Proof.
  apply (ToggleSwitch_retries [Second; Second] false "4711" (session "T1" 0 "4711")
           (world (10 * Second)
              (replies [Decoded expired; Decoded expired; Decoded success]))
           success Second).
  - reflexivity.
  - repeat constructor; discriminate.
  - vm_compute. reflexivity.
  - intros k Hk. destruct k as [|[|k]].
    + exists expired. split; reflexivity.
    + exists expired. split; reflexivity.
    + cbn in Hk. lia.
  - reflexivity.
  - reflexivity.
Defined.

(** C2, at the failing input.  When [http.DefaultClient.Do] fails,
    [SetBrightness] returns [nil]: no error is surfaced, and [updateState]
    records the brightness as applied.  A body that does not decode is
    returned as an error. *)
Theorem connection_error_reported_as_success :
  outcome
    (SetBrightness 50 (session "T1" 0 "4711")
       (world (10 * Second) (replies [ConnError])))
  = (None, [(adjustLight, "T1", "4711")])
  /\
  fst (updateState account (-1) 50
         (world (10 * Second)
            (replies [Decoded (loggedIn "T1"); Decoded oneDevice; ConnError])))
  = 50
  /\
  outcome
    (SetBrightness 50 (session "T1" 0 "4711")
       (world (10 * Second) (replies [DecodeError])))
  = (Some errDecode, [(adjustLight, "T1", "4711")]).
Proof. repeat split; vm_compute; reflexivity. Qed.

(** C3, as stated, fails: with a token obtained 301 seconds ago and a
    [LoginInterval] of 300 seconds, [ensureToken] changes nothing and sends
    nothing. *)
Lemma ensureToken_ignores_age :
  LoginInterval (session "T1" 0 "4711")
    <= Since (world (301 * Second) (replies [])) (LastLoginTime (session "T1" 0 "4711"))
  /\
  ensureToken (session "T1" 0 "4711") (world (301 * Second) (replies []))
  = (None, session "T1" 0 "4711", world (301 * Second) (replies [])).
Proof. split; [vm_compute; discriminate | reflexivity]. Qed.

(** C4, as stated, fails: the update on startup logs in (token T1) and
    discovers the device 4711; the update of the tick 57 seconds later
    starts again without token and device, logs in (token T2) and discovers
    the device once more. *)
Lemma session_rebuilt_on_every_apply :
  (fun r => (fst r, wire (snd r)))
    (run readme account (at_ 8 6 0)
       [ {| tickNow := at_ 8 7 0; tickAfter := 57 * Second |} ]
       (world (10 * Second)
          (replies [Decoded (loggedIn "T1"); Decoded oneDevice; Decoded success;
                    Decoded (loggedIn "T2"); Decoded oneDevice; Decoded success])))
  = (20,
     [(mailLogin, "", ""); (getDeviceList, "T1", ""); (adjustLight, "T1", "4711");
      (mailLogin, "", ""); (getDeviceList, "T2", ""); (adjustLight, "T2", "4711")]).
Proof. vm_compute. reflexivity. Qed.

(** C4, amended.  The session is not kept from one tick to the next: every
    call of [updateState] that applies a brightness builds a new
    [MarsHydroAPI] with [NewMarsHydroAPI], so the first request it sends is
    a login that carries neither a token nor a device identifier; the
    session is changed in place by the login and the discovery of that call
    and is dropped when the call returns. *)
Theorem updateState_starts_unauthenticated
    (mhAccount : config.MHAccountConfig) (lastBrightness state : Z) (w : World) :
  lastBrightness = -1 \/ state <> lastBrightness ->
  exists first rest,
    sent (snd (updateState mhAccount lastBrightness state w)) = sent w ++ first :: rest /\
    endpoint first = mailLogin /\
    sdToken (systemData first) = "" /\
    sdDeviceId (systemData first) = "" /\
    payload first = loginPayload (config.Email mhAccount) (config.Password mhAccount).
Proof.
  intros H. destruct (updateState_apply mhAccount lastBrightness state w H) as [[rest E] _].
  exists (firstLogin mhAccount (clock w)), rest. repeat split. exact E.
Qed.

(** A change from 10 to 20. *)
Lemma updateState_starts_unauthenticated_witness :
  exists first rest,
    sent (snd (updateState account 10 20
                 (world (10 * Second)
                    (replies [Decoded (loggedIn "T2"); Decoded oneDevice;
                              Decoded success]))))
    = sent (world (10 * Second)
              (replies [Decoded (loggedIn "T2"); Decoded oneDevice; Decoded success]))
      ++ first :: rest /\
    endpoint first = mailLogin /\
    sdToken (systemData first) = "" /\
    sdDeviceId (systemData first) = "" /\
    payload first = loginPayload (config.Email account) (config.Password account).
Proof.
  apply (updateState_starts_unauthenticated account 10 20). right. lia.
Defined.

(** C7, at the failing input.  At noon, with nothing applied yet, the login
    and the discovery succeed and the request to [adjustLight] fails in
    transport: [SetBrightness] returns [nil] (C2), [updateState] takes 100
    as applied, and the two ticks that follow send nothing and log that the
    lamp remains at 100 (first equation).  When it is the discovery that
    fails in transport, the error is returned, nothing is taken as applied,
    and the next tick starts again and sets the brightness (second
    equation). *)
Theorem transport_failure_recorded_as_applied :
  (fun r => (fst r, wire (snd r), logged (snd r)))
    (run readme account (at_ 12 0 0)
       [ {| tickNow := at_ 12 1 0; tickAfter := 57 * Second |};
         {| tickNow := at_ 12 2 0; tickAfter := 60 * Second |} ]
       (world (10 * Second)
          (replies [Decoded (loggedIn "T1"); Decoded oneDevice; ConnError;
                    Decoded (loggedIn "T2"); Decoded oneDevice; Decoded success])))
  = (100,
     [(mailLogin, "", ""); (getDeviceList, "T1", ""); (adjustLight, "T1", "4711")],
     [LogSetting 100; LogLoginSuccessful; LogStatusOn 100;
      LogRemainsOn 100; LogRemainsOn 100])
  /\
  (fun r => (fst r, wire (snd r), logged (snd r)))
    (run readme account (at_ 12 0 0)
       [ {| tickNow := at_ 12 1 0; tickAfter := 57 * Second |};
         {| tickNow := at_ 12 2 0; tickAfter := 60 * Second |} ]
       (world (10 * Second)
          (replies [Decoded (loggedIn "T1"); ConnError;
                    Decoded (loggedIn "T2"); Decoded oneDevice; Decoded success])))
  = (100,
     [(mailLogin, "", ""); (getDeviceList, "T1", "");
      (mailLogin, "", ""); (getDeviceList, "T2", ""); (adjustLight, "T2", "4711")],
     [LogSetting 100; LogLoginSuccessful; LogFailedToSet errTransport;
      LogSetting 100; LogLoginSuccessful; LogBrightnessSet; LogStatusOn 100;
      LogRemainsOn 100]).
Proof. split; vm_compute; reflexivity. Qed.

(** What [updateState] does with what [Login] and [SetBrightness] return:
    with a known [lastBrightness] equal to the target it sends nothing and
    keeps it; otherwise it logs in and sets the brightness, and
    [lastBrightness] becomes the target when both return no error and stays
    as it was when either returns one. *)
Theorem updateState_debounce
    (mhAccount : config.MHAccountConfig) (lastBrightness state : Z) (w : World) :
  (lastBrightness <> -1 /\ state = lastBrightness ->
     fst (updateState mhAccount lastBrightness state w) = lastBrightness /\
     sent (snd (updateState mhAccount lastBrightness state w)) = sent w) /\
  (lastBrightness = -1 \/ state <> lastBrightness ->
     (exists rest,
        sent (snd (updateState mhAccount lastBrightness state w))
        = sent w ++ firstLogin mhAccount (clock w) :: rest) /\
     fst (updateState mhAccount lastBrightness state w)
     = match Login (freshSession mhAccount) (log (LogSetting state) w) with
       | (Some _, _, _) => lastBrightness
       | (None, mhapi, w1) =>
           match SetBrightness state mhapi w1 with
           | (Some _, _, _) => lastBrightness
           | (None, _, _) => state
           end
       end).
Proof.
  split.
  - intros [H1 H2]. rewrite (updateState_skip mhAccount lastBrightness state w H1 H2).
    split; reflexivity.
  - apply updateState_apply.
Qed.

End api_facts.

(* ================================================================== *)
(** * More about the schedule *)

Module schedule_facts.

Import float64 float64_facts timer sample timer_facts.

Local Open Scope Z_scope.

(** X1.  Before [StartHour] and from [EndHour] on the lamp is off: for hours
    of a day and a reading of the clock whose hour is outside the window,
    [GetExpectedBrightness] is 0, whatever the offset, the step and the
    brightness are. *)
Theorem off_outside_the_hours (lt : LightTimer) (now : Time) :
  hours_of_day lt -> clock_ok now ->
  Hour now < StartHour lt \/ EndHour lt <= Hour now ->
  GetExpectedBrightness lt now = 0.
Proof.
  intros (Hs & Hp & He) Hc Hout.
  destruct (nowSecOf_eq now Hc) as [En Hn]. destruct Hc as (Hh & Hm & Hsec).
  unfold GetExpectedBrightness, brightnessAt, startSec, endSec. unwrap. rewrite En.
  destruct Hout as [H | H].
  - destruct (Z.ltb_spec (3600 * Hour now + 60 * Minute now + Second now) (StartHour lt * 3600));
      [reflexivity | lia].
  - destruct (Z.ltb_spec (3600 * Hour now + 60 * Minute now + Second now) (StartHour lt * 3600));
      [reflexivity |].
    destruct (Z.geb_spec (3600 * Hour now + 60 * Minute now + Second now) (EndHour lt * 3600));
      [reflexivity | lia].
Qed.

Lemma off_outside_the_hours_witness :
  GetExpectedBrightness readme (at_ 20 0 0) = 0.
Proof.
  apply (off_outside_the_hours readme (at_ 20 0 0)).
  - unfold hours_of_day; cbn; lia.
  - unfold clock_ok; cbn; lia.
  - right. cbn. lia.
Defined.

(** X2.  On the plateau, from [plateauStart] to just before [plateauEnd]
    inside the window, [GetExpectedBrightness] is [Brightness], whether or
    not [StepSize] divides it. *)
Theorem plateau_is_full_brightness (lt : LightTimer) (now : Time) :
  in_range lt -> clock_ok now ->
  startSec lt <= nowSecOf now < endSec lt ->
  plateauStart lt <= nowSecOf now < plateauEnd lt ->
  GetExpectedBrightness lt now = Brightness lt.
Proof.
  intros Hr Hc Hw Hp. pose proof Hr as ((? & ? & ?) & _).
  rewrite (startSec_eq lt Hr), (endSec_eq lt Hr) in Hw.
  rewrite (plateauStart_eq lt Hr), (plateauEnd_eq lt Hr) in Hp.
  rewrite (GetExpectedBrightness_phases lt now Hr Hc). cbv zeta.
  set (n := nowSecOf now) in *.
  destruct (Z.ltb_spec n (3600 * StartHour lt)); [lia|].
  destruct (Z.geb_spec n (3600 * EndHour lt)); [lia|]. cbn [orb].
  destruct (Z.ltb_spec n (3600 * StartHour lt + sunriseSecs lt)); [lia|].
  destruct (Z.ltb_spec n (3600 * StartHour lt + sunriseSecs lt + 3600 * PlateauHour lt));
    [reflexivity | lia].
Qed.

Lemma plateau_is_full_brightness_witness :
  GetExpectedBrightness readme (at_ 10 0 0) = Brightness readme.
Proof.
  apply (plateau_is_full_brightness readme (at_ 10 0 0)).
  - unfold in_range, hours_of_day; cbn; lia.
  - unfold clock_ok; cbn; lia.
  - vm_compute. split; [discriminate | reflexivity].
  - vm_compute. split; [discriminate | reflexivity].
Defined.

Lemma rampSteps_comp (lt : LightTimer) (p q : Q) :
  (p == q)%Q -> rampSteps lt p = rampSteps lt q.
Proof.
  intros H. unfold rampSteps. apply round_away_comp. now rewrite H.
Qed.

Lemma rampSteps_nonneg (lt : LightTimer) (q : Q) :
  in_range lt -> (0 <= q <= 1)%Q -> 0 <= rampSteps lt q.
Proof.
  intros Hr [H0 H1]. pose proof Hr as (_ & _ & [Hs1 Hs2] & [HM1 HM2]).
  pose proof (step_pos_Q lt Hr) as Hs0.
  unfold rampSteps.
  set (s := StepSize lt) in *. set (M := Brightness lt) in *.
  assert (Ht : (inject_Z (Z.min 0 (M - s)) <= rnd (q * inject_Z (M - s)))%Q).
  { rewrite <- (rnd_Z (Z.min 0 (M - s))) by lia. apply rnd_mono.
    destruct (Z.min_spec 0 (M - s)) as [[Hlt E] | [Hge E]]; rewrite E.
    - assert (0 <= inject_Z (M - s))%Q by (rewrite <- (Zle_Qle 0); lia).
      change (inject_Z 0) with 0%Q. nra.
    - assert (inject_Z (M - s) <= 0)%Q by (rewrite <- (Zle_Qle _ 0); lia). nra. }
  assert (Hb : (inject_Z 1 <= rnd (inject_Z s + rnd (q * inject_Z (M - s))))%Q).
  { rewrite <- (rnd_Z 1) by (simpl; lia). apply rnd_mono.
    assert (1 <= s + Z.min 0 (M - s)) by lia.
    rewrite Zle_Qle, inject_Z_plus in H. lra. }
  rewrite <- (round_away_Z 0). apply round_away_mono.
  rewrite <- rnd_0. apply rnd_mono.
  apply Qle_shift_div_l; [exact Hs0|]. change (inject_Z 1) with 1%Q in Hb. lra.
Qed.

Lemma rampAt_nonneg (lt : LightTimer) (a r : Z) :
  in_range lt -> 0 <= a <= r -> 0 < r -> 0 <= rampAt lt a r.
Proof.
  intros Hr Ha Hr0. pose proof Hr as (_ & _ & [Hs1 _] & [HM1 _]).
  assert (Hq : (0 <= rnd (inject_Z a / inject_Z r) <= 1)%Q).
  { assert (Hr' : (0 < inject_Z r)%Q) by (rewrite <- (Zlt_Qlt 0); exact Hr0).
    destruct Ha as [Ha1 Ha2]. rewrite Zle_Qle in Ha1, Ha2.
    change (inject_Z 0) with 0%Q in Ha1.
    apply (rnd_sandwich 0 1); [simpl; lia | simpl; lia |]. split.
    - apply Qle_shift_div_l; [exact Hr'|]. change (inject_Z 0) with 0%Q. lra.
    - apply Qle_shift_div_r; [exact Hr'|]. change (inject_Z 1) with 1%Q. lra. }
  pose proof (rampSteps_nonneg lt _ Hr Hq) as Hk.
  unfold rampAt, cap.
  destruct (Z.gtb_spec (rampSteps lt (rnd (inject_Z a / inject_Z r)) * StepSize lt)
                       (Brightness lt)); nia.
Qed.

(** X3.  [GetExpectedBrightness] is never negative for a configuration in
    range: in particular it is never -1, the value [main] keeps for a
    brightness that is not known. *)
Theorem brightness_never_negative (lt : LightTimer) (now : Time) :
  in_range lt -> clock_ok now -> 0 <= GetExpectedBrightness lt now.
Proof.
  intros Hr Hc. pose proof Hr as ((? & ? & ?) & _ & _ & [HM _]).
  rewrite (GetExpectedBrightness_phases lt now Hr Hc). cbv zeta.
  pose proof (ramps_sum lt) as Hsum.
  set (n := nowSecOf now) in *.
  destruct (Z.ltb_spec n (3600 * StartHour lt)); [cbn; lia|].
  destruct (Z.geb_spec n (3600 * EndHour lt)); [cbn; lia|]. cbn [orb].
  destruct (Z.ltb_spec n (3600 * StartHour lt + sunriseSecs lt)).
  { apply (rampAt_nonneg lt); [exact Hr | lia | lia]. }
  destruct (Z.ltb_spec n (3600 * StartHour lt + sunriseSecs lt + 3600 * PlateauHour lt));
    [lia|].
  apply (rampAt_nonneg lt); [exact Hr | lia | lia].
Qed.

Lemma brightness_never_negative_witness :
  0 <= GetExpectedBrightness (withBrightness readme 4) (at_ 10 59 59).
Proof.
  apply (brightness_never_negative (withBrightness readme 4) (at_ 10 59 59)).
  - unfold in_range, hours_of_day; cbn; lia.
  - unfold clock_ok; cbn; lia.
Defined.

Lemma rampSteps_0 (lt : LightTimer) : in_range lt -> rampSteps lt 0 = 1.
Proof.
  intros Hr. pose proof Hr as (_ & _ & [Hs1 Hs2] & _).
  pose proof (step_pos_Q lt Hr) as Hs0. unfold rampSteps.
  set (s := StepSize lt) in *. set (M := Brightness lt) in *.
  assert (E : (rnd (rnd (inject_Z s + rnd (0 * inject_Z (M - s))) / inject_Z s) == inject_Z 1)%Q).
  { assert (E0 : (rnd (0 * inject_Z (M - s)) == 0)%Q) by (rewrite Qmult_0_l; reflexivity).
    rewrite E0, Qplus_0_r, (rnd_Z s) by lia.
    assert (E1 : (inject_Z s / inject_Z s == inject_Z 1)%Q) by (field; lra).
    rewrite E1. apply rnd_Z. simpl; lia. }
  rewrite (round_away_comp _ _ E). apply round_away_Z.
Qed.

Lemma rampSteps_1 (lt : LightTimer) :
  in_range lt -> (StepSize lt | Brightness lt) ->
  rampSteps lt 1 * StepSize lt = Brightness lt.
Proof.
  intros Hr [k Hk]. pose proof Hr as (_ & _ & [Hs1 Hs2] & [HM1 HM2]).
  pose proof (step_pos_Q lt Hr) as Hs0. unfold rampSteps.
  set (s := StepSize lt) in *. set (M := Brightness lt) in *.
  assert (Hk0 : 0 < k <= 2 ^ 26) by nia.
  assert (E : (rnd (rnd (inject_Z s + rnd (1 * inject_Z (M - s))) / inject_Z s) == inject_Z k)%Q).
  { rewrite Qmult_1_l, (rnd_Z (M - s)) by lia.
    rewrite <- inject_Z_plus. replace (s + (M - s)) with M by lia.
    rewrite (rnd_Z M) by lia.
    assert (E1 : (inject_Z M / inject_Z s == inject_Z k)%Q).
    { rewrite Hk, inject_Z_mult. field. lra. }
    rewrite E1. apply rnd_Z. lia. }
  rewrite (round_away_comp _ _ E), round_away_Z. lia.
Qed.

(** X4.  For a configuration in range whose window is not empty, a sunrise
    ramp of positive length starts at one step: at the first second of the
    window ([nowSec = startSec]) [GetExpectedBrightness] is [StepSize], or
    [Brightness] when that is less. *)
Theorem window_opens_at_one_step (lt : LightTimer) (now : Time) :
  in_range lt -> clock_ok now ->
  0 < sunriseSecs lt ->
  StartHour lt < EndHour lt ->
  nowSecOf now = startSec lt ->
  GetExpectedBrightness lt now = Z.min (StepSize lt) (Brightness lt).
Proof.
  intros Hr Hc Hsr Hse En. pose proof Hr as ((? & ? & ?) & _).
  rewrite (startSec_eq lt Hr) in En.
  rewrite (GetExpectedBrightness_phases lt now Hr Hc). cbv zeta. rewrite En.
  destruct (Z.ltb_spec (3600 * StartHour lt) (3600 * StartHour lt)); [lia|].
  destruct (Z.geb_spec (3600 * StartHour lt) (3600 * EndHour lt)); [lia|]. cbn [orb].
  destruct (Z.ltb_spec (3600 * StartHour lt) (3600 * StartHour lt + sunriseSecs lt)); [|lia].
  unfold rampAt. rewrite Z.sub_diag.
  assert (E : (rnd (inject_Z 0 / inject_Z (sunriseSecs lt)) == 0)%Q).
  { assert (E0 : (inject_Z 0 / inject_Z (sunriseSecs lt) == 0)%Q).
    { unfold Qdiv. change (inject_Z 0) with 0%Q. apply Qmult_0_l. }
    rewrite E0. reflexivity. }
  rewrite (rampSteps_comp lt _ _ E), (rampSteps_0 lt Hr). unfold cap.
  destruct (Z.gtb_spec (1 * StepSize lt) (Brightness lt)); lia.
Qed.

Lemma window_opens_at_one_step_witness :
  GetExpectedBrightness readme (at_ 8 0 0) = Z.min (StepSize readme) (Brightness readme).
Proof.
  apply (window_opens_at_one_step readme (at_ 8 0 0)).
  - unfold in_range, hours_of_day; cbn; lia.
  - unfold clock_ok; cbn; lia.
  - reflexivity.
  - reflexivity.
  - reflexivity.
Defined.

(** X5.  For a configuration in range in which [StepSize] divides
    [Brightness], a sunset ramp of positive length that starts inside the
    window ([startSec <= plateauEnd]) starts at [Brightness]: at the second
    the plateau ends ([nowSec = plateauEnd]) [GetExpectedBrightness] is
    [Brightness], there is no drop. *)
Theorem sunset_starts_at_full_brightness (lt : LightTimer) (now : Time) :
  in_range lt -> clock_ok now ->
  (StepSize lt | Brightness lt) ->
  0 < sunsetSecs lt ->
  startSec lt <= nowSecOf now ->
  nowSecOf now = plateauEnd lt ->
  GetExpectedBrightness lt now = Brightness lt.
Proof.
  intros Hr Hc Hd Hss Hw En. pose proof Hr as ((? & ? & ?) & _).
  rewrite (startSec_eq lt Hr) in Hw. rewrite (plateauEnd_eq lt Hr) in En.
  rewrite (GetExpectedBrightness_phases lt now Hr Hc). cbv zeta.
  pose proof (ramps_sum lt) as Hsum.
  set (n := nowSecOf now) in *.
  destruct (Z.ltb_spec n (3600 * StartHour lt)); [lia|].
  destruct (Z.geb_spec n (3600 * EndHour lt)); [lia|]. cbn [orb].
  destruct (Z.ltb_spec n (3600 * StartHour lt + sunriseSecs lt)); [lia|].
  destruct (Z.ltb_spec n (3600 * StartHour lt + sunriseSecs lt + 3600 * PlateauHour lt)); [lia|].
  replace (3600 * EndHour lt - n) with (sunsetSecs lt) by lia.
  unfold rampAt.
  assert (E : (rnd (inject_Z (sunsetSecs lt) / inject_Z (sunsetSecs lt)) == 1)%Q).
  { assert (E0 : (inject_Z (sunsetSecs lt) / inject_Z (sunsetSecs lt) == inject_Z 1)%Q).
    { assert (0 < inject_Z (sunsetSecs lt))%Q by (rewrite <- (Zlt_Qlt 0); exact Hss).
      field. lra. }
    rewrite E0. apply (rnd_Z 1). simpl; lia. }
  rewrite (rampSteps_comp lt _ _ E), (rampSteps_1 lt Hr Hd). unfold cap.
  destruct (Z.gtb_spec (Brightness lt) (Brightness lt)); lia.
Qed.

Lemma sunset_starts_at_full_brightness_witness :
  GetExpectedBrightness readme (at_ 16 0 0) = Brightness readme.
Proof.
  apply (sunset_starts_at_full_brightness readme (at_ 16 0 0)).
  - unfold in_range, hours_of_day; cbn; lia.
  - unfold clock_ok; cbn; lia.
  - exists 10. reflexivity.
  - reflexivity.
  - vm_compute. discriminate.
  - vm_compute. reflexivity.
Defined.

(** X6.  [PlateauOffset] moves the plateau and keeps its length: with the
    offset [o] in place of the configured one, the plateau starts and ends
    [o - PlateauOffset] hours later, and it lasts [PlateauHour] hours. *)
Theorem offset_shifts_plateau (lt : LightTimer) (o : Z) :
  in_range lt -> - 2 ^ 31 <= o <= 2 ^ 31 ->
  plateauStart (withOffset lt o) = plateauStart lt + 3600 * (o - PlateauOffset lt) /\
  plateauEnd (withOffset lt o) = plateauEnd lt + 3600 * (o - PlateauOffset lt) /\
  plateauEnd (withOffset lt o) - plateauStart (withOffset lt o) = 3600 * PlateauHour lt.
Proof.
  intros Hr Ho.
  assert (Hr' : in_range (withOffset lt o)).
  { destruct Hr as (H1 & H2 & H3 & H4). repeat split; try apply H1; try apply H3;
      try apply H4; cbn [PlateauOffset withOffset]; lia. }
  rewrite (plateauStart_eq _ Hr'), (plateauEnd_eq _ Hr'),
          (plateauStart_eq _ Hr), (plateauEnd_eq _ Hr).
  unfold sunriseSecs. cbn [StartHour PlateauHour EndHour PlateauOffset withOffset]. lia.
Qed.

Lemma offset_shifts_plateau_witness :
  plateauStart (withOffset readme 1) = plateauStart readme + 3600 * (1 - PlateauOffset readme) /\
  plateauEnd (withOffset readme 1) = plateauEnd readme + 3600 * (1 - PlateauOffset readme) /\
  plateauEnd (withOffset readme 1) - plateauStart (withOffset readme 1)
  = 3600 * PlateauHour readme.
Proof.
  apply (offset_shifts_plateau readme 1).
  - unfold in_range, hours_of_day; cbn; lia.
  - lia.
Defined.

End schedule_facts.

(* ================================================================== *)
(** * The report of the timing data *)

Module report_facts.

Import float64 float64_facts timer sample timer_facts report.

Local Open Scope Z_scope.

(** ** Printing a float that is an integer *)

Lemma nearest_even_int (m : positive) (e w : Z) :
  (inject_Z (Z.pos m) * 2 ^ e == inject_Z w)%Q -> fmt.nearest_even m e = w.
Proof.
  intros H. pose proof (scaled_Z m e w H) as S. unfold fmt.nearest_even.
  destruct e as [|p|p]; try exact S.
  rewrite pow2_neg in H. pose proof (pow_pos_gt0 p) as Hd.
  set (d := Z.pow_pos 2 p) in *.
  assert (Hd' : (0 < inject_Z d)%Q) by (rewrite Zlt_Qlt in Hd; exact Hd).
  assert (E : (inject_Z (Z.pos m) == inject_Z (w * d))%Q).
  { rewrite inject_Z_mult, <- H. field. lra. }
  apply inject_Z_inj in E. rewrite E, Z.mod_mul, Z.div_mul by lia.
  replace (2 * 0 ?= d) with Lt by (symmetry; apply Z.compare_lt_iff; lia).
  reflexivity.
Qed.

Lemma decimal_neg (p : positive) :
  ("-" ++ fmt.decimal (Z.pos p))%string = fmt.decimal (Z.neg p).
Proof. reflexivity. Qed.

Lemma Sprintf_int (x : float64.t) (z : Z) :
  fin x (inject_Z z) -> x <> S754_zero true ->
  fmt.Sprintf_dot0f x = fmt.decimal z.
Proof.
  intros [Fx Ex] Hnz. destruct x as [s|s| |s m e]; try discriminate.
  - destruct s; [congruence|]. simpl in Ex. apply (inject_Z_inj 0 z) in Ex. now subst.
  - unfold F2Q in Ex. unfold fmt.Sprintf_dot0f. destruct s.
    + assert (E : (inject_Z (Z.pos m) * 2 ^ e == inject_Z (- z))%Q)
        by (rewrite inject_Z_opp, <- Ex; ring).
      rewrite (nearest_even_int m e (- z) E).
      assert (Hpos : (0 < inject_Z (- z))%Q).
      { rewrite <- E. apply Qmult_lt_0_compat; [reflexivity | apply pow2_pos]. }
      apply inject_Z_pos_inv in Hpos. destruct z as [|p|p]; try lia.
      apply decimal_neg.
    + rewrite (nearest_even_int m e z Ex).
      assert (Hpos : (0 < inject_Z z)%Q).
      { rewrite <- Ex. apply Qmult_lt_0_compat; [reflexivity | apply pow2_pos]. }
      apply inject_Z_pos_inv in Hpos. destruct z as [|p|p]; try lia. reflexivity.
Qed.

(** A rounding to an integer is not the negative zero, unless an exact
    zero is given that sign. *)
Lemma round_int_not_negzero (q : Q) (z : Z) :
  (q == inject_Z z)%Q -> Z.abs z <= 2 ^ 53 -> round false q <> S754_zero true.
Proof.
  intros Eq Hz C.
  assert (F : fin (round false q) (inject_Z z)).
  { apply (fin_comp _ (rnd q)); [rewrite Eq; now apply rnd_Z|].
    apply round_fin. rewrite Eq. apply (Qabs_int_bound _ (2 ^ 53)); [|lia].
    rewrite <- inject_Z_opp, <- !Zle_Qle. lia. }
  destruct F as [_ F]. rewrite C in F.
  change (F2Q (S754_zero true)) with (inject_Z 0) in F. apply inject_Z_inj in F. subst z.
  assert (Qnum q = 0).
  { unfold Qeq in Eq. simpl in Eq. lia. }
  unfold round in C. rewrite H in C. discriminate.
Qed.

Lemma of_int_not_negzero (z : Z) : Z.abs z <= 2 ^ 53 -> of_int z <> S754_zero true.
Proof. intros H. apply (round_int_not_negzero _ z); [reflexivity | exact H]. Qed.

Lemma add_not_negzero (x y : float64.t) (a b : Z) :
  fin x (inject_Z a) -> fin y (inject_Z b) -> Z.abs (a + b) <= 2 ^ 53 ->
  x <> S754_zero true -> float64.add x y <> S754_zero true.
Proof.
  intros [Fx Ex] [Fy Ey] Hab Hx.
  assert (R : round false (F2Q x + F2Q y) <> S754_zero true).
  { apply (round_int_not_negzero _ (a + b)); [|exact Hab].
    rewrite Ex, Ey, inject_Z_plus. reflexivity. }
  destruct x as [sx|sx| |sx mx ex], y as [sy|sy| |sy my ey]; try discriminate; try exact R.
  destruct sx; [congruence|]. cbn. discriminate.
Qed.

(** The decimal digits of an [int] that went through [float64]. *)
Lemma Sprintf_of_int (z : Z) :
  Z.abs z <= 2 ^ 53 -> fmt.Sprintf_dot0f (float64.of_int z) = fmt.decimal z.
Proof.
  intros H. apply Sprintf_int; [now apply fin_of_int | now apply of_int_not_negzero].
Qed.

(** ** The clock times of the report *)

(** X7.  The clock times [PrintTimingData] prints undo the seconds of the
    day [GetExpectedBrightness] counts: the second of the day of a reading
    of the clock prints as that reading, and a second of the day prints as
    a reading of the clock that counts back to it. *)
Theorem clockOf_nowSecOf :
  (forall now : Time,
     clock_ok now -> clockOf (nowSecOf now) = (Hour now, Minute now, Second now)) /\
  (forall sec : Z,
     0 <= sec < 86400 ->
     let '(h, m, s) := clockOf sec in
     clock_ok {| Hour := h; Minute := m; Second := s |} /\
     nowSecOf {| Hour := h; Minute := m; Second := s |} = sec).
Proof.
  split.
  - intros now Hc. destruct (nowSecOf_eq now Hc) as [E _]. destruct Hc as (Hh & Hm & Hs).
    rewrite E. unfold clockOf, goint.rem.
    rewrite !Z.quot_div_nonneg, !Z.rem_mod_nonneg by (try apply Z.div_pos; lia).
    assert (E1 : (3600 * Hour now + 60 * Minute now + Second now) / 3600 = Hour now).
    { symmetry. apply (Z.div_unique _ _ _ (60 * Minute now + Second now)); lia. }
    assert (E2 : (3600 * Hour now + 60 * Minute now + Second now) / 60
                 = 60 * Hour now + Minute now).
    { symmetry. apply (Z.div_unique _ _ _ (Second now)); lia. }
    assert (E3 : (60 * Hour now + Minute now) mod 60 = Minute now).
    { symmetry. apply (Z.mod_unique _ _ (Hour now)); lia. }
    assert (E4 : (3600 * Hour now + 60 * Minute now + Second now) mod 60 = Second now).
    { symmetry. apply (Z.mod_unique _ _ (60 * Hour now + Minute now)); lia. }
    rewrite E1, E2, E3, E4. reflexivity.
  - intros sec Hs. unfold clockOf, goint.rem.
    rewrite !Z.quot_div_nonneg, !Z.rem_mod_nonneg by (try apply Z.div_pos; lia).
    pose proof (Z.div_mod sec 60 ltac:(lia)) as D1.
    pose proof (Z.mod_pos_bound sec 60 ltac:(lia)) as B1.
    pose proof (Z.div_mod (sec / 60) 60 ltac:(lia)) as D2.
    pose proof (Z.mod_pos_bound (sec / 60) 60 ltac:(lia)) as B2.
    assert (D3 : sec / 3600 = sec / 60 / 60) by (rewrite Z.div_div by lia; reflexivity).
    assert (B3 : 0 <= sec / 60 / 60 < 24).
    { split; [apply Z.div_pos; [apply Z.div_pos|]; lia|].
      apply Z.div_lt_upper_bound; [lia|]. apply Z.div_lt_upper_bound; lia. }
    rewrite D3.
    assert (Hc : clock_ok {| Hour := sec / 60 / 60; Minute := (sec / 60) mod 60;
                             Second := sec mod 60 |}).
    { unfold clock_ok; cbn [Hour Minute Second]. lia. }
    split; [exact Hc|].
    destruct (nowSecOf_eq _ Hc) as [E _]. rewrite E. cbn [Hour Minute Second]. lia.
Qed.

(** Half past nine and a quarter of a minute. *)
Lemma clockOf_nowSecOf_witness :
  clockOf (nowSecOf (at_ 9 30 15)) = (9, 30, 15).
Proof.
  apply (proj1 clockOf_nowSecOf (at_ 9 30 15)). unfold clock_ok; cbn; lia.
Defined.

(** ** The report of a configuration in range *)

Lemma baselineRamp_not_negzero (lt : LightTimer) :
  in_range lt -> baselineRamp lt <> S754_zero true.
Proof.
  intros Hr C. pose proof Hr as ((? & ? & ?) & _).
  pose proof (baselineRamp_fin lt Hr) as [_ F]. rewrite C in F.
  change (F2Q (S754_zero true)) with (inject_Z 0) in F. apply inject_Z_inj in F.
  assert (E : goint.sub (goint.sub (endSec lt) (startSec lt)) (plateauSec lt) = 0).
  { rewrite (startSec_eq lt Hr), (endSec_eq lt Hr), (plateauSec_eq lt Hr). unwrap. lia. }
  unfold baselineRamp in C. rewrite E in C. vm_compute in C. discriminate.
Qed.

(** X8.  For a configuration in range [PrintTimingData] prints whole
    numbers of seconds with no sign of a fraction: the baseline ramp is
    half the window less the plateau, the two ramps are the baseline plus
    and minus the offset, the sunrise and the sunset are at [StartHour] and
    [EndHour] sharp, and the plateau starts one sunrise ramp after the
    sunrise and ends [PlateauHour] hours later. *)
Theorem PrintTimingData_in_range (lt : LightTimer) (now : Time) :
  in_range lt ->
  PrintTimingData lt now =
  {| referenceTime := now;
     baselineRampLine :=
       fmt.decimal (1800 * (EndHour lt - StartHour lt - PlateauHour lt));
     plateauOffsetLine := fmt.decimal (3600 * PlateauOffset lt);
     sunriseDurationLine := fmt.decimal (sunriseSecs lt);
     sunsetDurationLine := fmt.decimal (sunsetSecs lt);
     sunriseAt := (StartHour lt, 0, 0);
     plateauStartsAt := clockOf (3600 * StartHour lt + sunriseSecs lt);
     plateauBrightnessLine := Brightness lt;
     plateauEndsAt :=
       clockOf (3600 * StartHour lt + sunriseSecs lt + 3600 * PlateauHour lt);
     sunsetAt := (EndHour lt, 0, 0) |}.
Proof.
  intros Hr. pose proof Hr as ((? & ? & ?) & ? & _).
  pose proof (baselineRamp_not_negzero lt Hr) as Hb.
  unfold PrintTimingData.
  rewrite (Sprintf_int _ _ (baselineRamp_fin lt Hr) Hb).
  rewrite (Sprintf_int _ _ (offsetSec_fin lt Hr))
    by (unfold offsetSec; unwrap; apply of_int_not_negzero; lia).
  rewrite (Sprintf_int _ _ (sunriseRamp_fin lt Hr)).
  2:{ unfold sunriseRamp.
      apply (add_not_negzero _ _ _ _ (baselineRamp_fin lt Hr) (offsetSec_fin lt Hr)); [lia | exact Hb]. }
  rewrite (Sprintf_int _ _ (sunsetRamp_fin lt Hr)).
  2:{ unfold sunsetRamp, float64.sub.
      pose proof (fin_neg _ _ (offsetSec_fin lt Hr)) as Fn. rewrite <- inject_Z_opp in Fn.
      apply (add_not_negzero _ _ _ _ (baselineRamp_fin lt Hr) Fn); [lia | exact Hb]. }
  rewrite (plateauStart_eq lt Hr), (plateauEnd_eq lt Hr), (startSec_eq lt Hr), (endSec_eq lt Hr).
  assert (C : forall h, 0 <= h <= 24 -> clockOf (3600 * h) = (h, 0, 0)).
  { intros h Hh. unfold clockOf, goint.rem.
    rewrite !Z.quot_div_nonneg, !Z.rem_mod_nonneg by (try apply Z.div_pos; lia).
    replace (3600 * h) with (h * 3600) by lia. rewrite Z.div_mul by lia.
    replace (h * 3600) with (h * 60 * 60) by lia. rewrite Z.div_mul, !Z.mod_mul by lia.
    reflexivity. }
  rewrite !C by lia. reflexivity.
Qed.

(** The report of the README's configuration. *)
Lemma PrintTimingData_in_range_witness :
  PrintTimingData readme (at_ 12 0 0) =
  {| referenceTime := at_ 12 0 0;
     baselineRampLine := "10800"%string;
     plateauOffsetLine := "-3600"%string;
     sunriseDurationLine := "7200"%string;
     sunsetDurationLine := "14400"%string;
     sunriseAt := (8, 0, 0);
     plateauStartsAt := (10, 0, 0);
     plateauBrightnessLine := 100;
     plateauEndsAt := (16, 0, 0);
     sunsetAt := (20, 0, 0) |}.
Proof.
  apply (PrintTimingData_in_range readme (at_ 12 0 0)).
  unfold in_range, hours_of_day; cbn; lia.
Defined.

End report_facts.

(* ================================================================== *)
(** * More about the session *)

Module session_facts.

Import api main sample api_facts session.

Local Open Scope string_scope.
Local Open Scope list_scope.
Local Open Scope Z_scope.

(** ** What a login changes *)

Lemma Login_frame api w :
  snd (fst (Login api w)) = api \/
  exists token, snd (fst (Login api w)) = setToken api token (clock (snd (Login api w))).
Proof.
  unfold Login. destruct (_ && _); [now left|].
  unfold roundTrip. destruct (service w _) as [elapsed reply].
  destruct reply as [| |resData]; try (now left).
  destruct (json.asObject _); [|now left].
  destruct (json.asString _) as [token|]; [|now left].
  right. exists token. reflexivity.
Qed.

Lemma ensureToken_frame api w :
  snd (fst (ensureToken api w)) = api \/
  exists token t, snd (fst (ensureToken api w)) = setToken api token t.
Proof.
  unfold ensureToken. destruct (isEmpty _); [|now left].
  destruct (Login_frame api w) as [H | [token H]]; [now left|].
  right. eexists _, _. exact H.
Qed.

(** X9.  A [Login] that returns an error has sent exactly one request and
    left the session and the log as they were.  A [Login] that returns no
    error has either sent nothing, the token being younger than
    [LoginInterval], or has sent one request and stored the string found
    under ["data"]["token"] in the response, with the time the response
    came in as [LastLoginTime]. *)
Theorem Login_outcome (api : MarsHydroAPI) (w : World) :
  match Login api w with
  | (Some _, api', w') =>
      api' = api /\ sent w' = sent w ++ [loginRequest api w] /\
      logged w' = logged w
  | (None, api', w') =>
      (isEmpty (Token api) = false /\
       Since w (LastLoginTime api) < LoginInterval api /\
       api' = api /\ sent w' = sent w)
      \/
      (exists elapsed resData data token,
         service w (List.length (sent w)) = (elapsed, Decoded resData) /\
         json.index resData "data" = json.Object data /\
         json.index data "token" = json.String token /\
         api' = setToken api token (clock w + elapsed) /\
         clock w' = clock w + elapsed /\
         sent w' = sent w ++ [loginRequest api w])
  end.
Proof.
  unfold Login. destruct (_ && _) eqn:G.
  - left. apply andb_true_iff in G. destruct G as [G1 G2].
    apply negb_true_iff in G1. apply Z.ltb_lt in G2. repeat split; assumption.
  - unfold roundTrip. destruct (service w _) as [elapsed reply] eqn:S.
    destruct reply as [| |resData]; try (repeat split).
    destruct (json.index resData "data") as [|?|?|?|?|data] eqn:D;
      try (repeat split).
    cbn [json.asObject].
    destruct (json.index data "token") as [|?|?|token|?|?] eqn:T;
      try (repeat split).
    cbn [json.asString]. right. exists elapsed, resData, data, token.
    repeat split; assumption.
Qed.

(** A login from an empty token that returns no error has fetched one: the
    session holds the time the response came in. *)
Lemma Login_fetched api w api1 w1 :
  isEmpty (Token api) = true -> Login api w = (None, api1, w1) ->
  LastLoginTime api1 = clock w1 /\ LoginInterval api1 = LoginInterval api.
Proof.
  intros He. unfold Login. rewrite He. cbn [negb andb].
  unfold roundTrip. destruct (service w _) as [elapsed reply].
  destruct reply as [| |resData]; try discriminate.
  destruct (json.asObject _); [|discriminate].
  destruct (json.asString _) as [token|]; [|discriminate].
  intros H. injection H as <- <-. split; reflexivity.
Qed.

(** X10.  A token that [Login] has fetched is used again without a request
    for as long as less than [LoginInterval] has gone by since the response
    came in. *)
Theorem Login_reuses_token (api api1 : MarsHydroAPI) (w w1 w2 : World) :
  isEmpty (Token api) = true ->
  Login api w = (None, api1, w1) ->
  isEmpty (Token api1) = false ->
  minDuration < LoginInterval api ->
  clock w2 - clock w1 < LoginInterval api ->
  Login api1 w2 = (None, api1, log LogTokenStillValid w2).
Proof.
  intros He L Hne Hmin Hage.
  destruct (Login_fetched api w api1 w1 He L) as [Et Ei].
  apply Login_skips; [exact Hne|]. rewrite Et, Ei.
  unfold Since. unfold minDuration, maxDuration in *. lia.
Qed.

Lemma Login_reuses_token_witness :
  Login (session "T1" (11 * Second) "") (world (310 * Second) (replies []))
  = (None, session "T1" (11 * Second) "",
     log LogTokenStillValid (world (310 * Second) (replies []))).
Proof.
  apply (Login_reuses_token (session "" 0 "") (session "T1" (11 * Second) "")
           (world (10 * Second) (replies [Decoded (loggedIn "T1")]))
           (log LogLoginSuccessful
              {| clock := 11 * Second; service := replies [Decoded (loggedIn "T1")];
                 sent := [loginRequest (session "" 0 "")
                            (world (10 * Second) (replies [Decoded (loggedIn "T1")]))];
                 logged := [] |})).
  - reflexivity.
  - reflexivity.
  - reflexivity.
  - reflexivity.
  - reflexivity.
Defined.

(** ** Identifiers *)

Lemma isEmpty_true (s : string) : isEmpty s = true -> s = "".
Proof. unfold isEmpty. apply String.eqb_eq. Qed.

Lemma decimal_nonempty (z : Z) : isEmpty (fmt.decimal z) = false.
Proof.
  unfold fmt.decimal. destruct (Z.to_int z) as [d|d]; [|reflexivity].
  destruct d; reflexivity.
Qed.

Lemma Sprintf_nonempty (v : float64.t) : isEmpty (fmt.Sprintf_dot0f v) = false.
Proof.
  destruct v as [s|s| |s m e]; try (destruct s; reflexivity); [reflexivity|].
  unfold fmt.Sprintf_dot0f. destruct s; [reflexivity|]. apply decimal_nonempty.
Qed.

Lemma storeDeviceID_cases api field :
  storeDeviceID api field = api \/
  exists v, isEmpty v = false /\ storeDeviceID api field = setDeviceID api v.
Proof.
  destruct field as [[|?|f|v|?|?]|]; try (now left).
  - right. exists (fmt.Sprintf_dot0f f). split; [apply Sprintf_nonempty | reflexivity].
  - cbn. destruct (isEmpty v) eqn:E; [now left|]. right. exists v. now split.
Qed.

Lemma storeGroupID_DeviceID api field :
  DeviceID (storeGroupID api field) = DeviceID api.
Proof. destruct field as [[|?|?|?|?|?]|]; reflexivity. Qed.

Lemma discover_cases api deviceData :
  discover api deviceData = api \/
  exists v, isEmpty v = false /\ discover api deviceData = setDeviceID api v.
Proof.
  unfold discover.
  destruct (storeDeviceID_cases api (json.lookup deviceData "id")) as [E | (v & Hv & E)];
    rewrite E.
  - destruct (isEmpty (DeviceID api)); [|now left].
    apply storeDeviceID_cases.
  - cbn [DeviceID setDeviceID]. rewrite Hv. right. exists v. now split.
Qed.

Lemma discover_empty api deviceData :
  isEmpty (DeviceID (discover api deviceData)) = true ->
  discover api deviceData = api.
Proof.
  intros H. destruct (discover_cases api deviceData) as [E | (v & Hv & E)]; [exact E|].
  rewrite E in H. cbn [DeviceID setDeviceID] in H. congruence.
Qed.

(** [GetLightData], with the two attempts written as [discover]. *)
Lemma GetLightData_unfold api w :
  GetLightData api w
  = match ensureToken api w with
    | (Some err, api, w) => (inr err, api, w)
    | (None, api, w) =>
        let '(resp, w) := roundTrip (listRequest api w) w in
        match resp with
        | ConnError => (inr errTransport, api, w)
        | DecodeError => (inr errDecode, api, w)
        | Decoded resData =>
            if negb (codeIs resData "000") then
              (inr errRetrievingDevices, api,
               log (LogErrorInResponse (json.index resData "msg")) w)
            else
              let data :=
                match json.asObject (json.index resData "data") with
                | Some data => data
                | None => []
                end in
              match json.asArray (json.index data "list") with
              | None | Some [] => (inr errNoDevices, api, log LogNoLightDevices w)
              | Some (first :: _) =>
                  match json.asObject first with
                  | None => (inr errInvalidDeviceData, api, w)
                  | Some deviceData =>
                      let api := discover api deviceData in
                      if isEmpty (DeviceID api) then
                        (inr errDeviceIdNotFound, api, w)
                      else
                        let api := storeGroupID api (json.lookup deviceData "groupId") in
                        (inl
                         [ ("deviceName", json.index deviceData "deviceName");
                           ("deviceLightRate", json.index deviceData "deviceLightRate");
                           ("isClose", json.index deviceData "isClose");
                           ("id", json.String (DeviceID api));
                           ("deviceImage", json.index deviceData "deviceImg");
                           ("groupId", json.String (GroupID api)) ], api, w)
                  end
              end
        end
    end.
Proof. reflexivity. Qed.

(** ** Device discovery *)

Lemma ensureToken_ids api w :
  DeviceID (snd (fst (ensureToken api w))) = DeviceID api /\
  GroupID (snd (fst (ensureToken api w))) = GroupID api.
Proof.
  destruct (ensureToken_frame api w) as [E | (token & t & E)]; rewrite E; split; reflexivity.
Qed.

Lemma GetLightData_found api w lightData api' w' :
  GetLightData api w = (inl lightData, api', w') ->
  isEmpty (DeviceID api') = false /\
  json.index lightData "id" = json.String (DeviceID api') /\
  json.index lightData "groupId" = json.String (GroupID api').
Proof.
  rewrite GetLightData_unfold.
  destruct (ensureToken api w) as [[[err|] api1] w1]; [discriminate|].
  destruct (roundTrip _ w1) as [resp w2].
  destruct resp as [| |resData]; try discriminate.
  destruct (negb _); [discriminate|]. cbv zeta.
  destruct (json.asArray _) as [[|first rest]|]; try discriminate.
  destruct (json.asObject first) as [deviceData|]; [|discriminate].
  destruct (isEmpty (DeviceID (discover api1 deviceData))) eqn:E; [discriminate|].
  intros H. injection H as <- <- <-.
  rewrite storeGroupID_DeviceID. repeat split. exact E.
Qed.

Lemma GetLightData_failed api w err api' w' :
  GetLightData api w = (inr err, api', w') ->
  DeviceID api' = DeviceID api /\ GroupID api' = GroupID api.
Proof.
  rewrite GetLightData_unfold.
  pose proof (ensureToken_ids api w) as I.
  destruct (ensureToken api w) as [[[e|] api1] w1]; cbn [fst snd] in I.
  { intros H. injection H as <- <- <-. exact I. }
  destruct (roundTrip _ w1) as [resp w2].
  destruct resp as [| |resData]; try (intros H; injection H as <- <- <-; exact I).
  destruct (negb _); [intros H; injection H as <- <- <-; exact I|]. cbv zeta.
  destruct (json.asArray _) as [[|first rest]|];
    try (intros H; injection H as <- <- <-; exact I).
  destruct (json.asObject first) as [deviceData|];
    [|intros H; injection H as <- <- <-; exact I].
  destruct (isEmpty (DeviceID (discover api1 deviceData))) eqn:E; [|discriminate].
  intros H. injection H as <- <- <-.
  rewrite (discover_empty api1 deviceData E). exact I.
Qed.

(** X11.  [GetLightData] returns an error or an identified device: when it
    returns an error the [DeviceID] and the [GroupID] of the session are
    what they were before the call, and when it returns the device the
    [DeviceID] of the session is not empty and the ["id"] and ["groupId"]
    of the returned map are the session's. *)
Theorem GetLightData_outcome (api : MarsHydroAPI) (w : World) :
  match GetLightData api w with
  | (inr _, api', _) =>
      DeviceID api' = DeviceID api /\ GroupID api' = GroupID api
  | (inl lightData, api', _) =>
      isEmpty (DeviceID api') = false /\
      json.index lightData "id" = json.String (DeviceID api') /\
      json.index lightData "groupId" = json.String (GroupID api')
  end.
Proof.
  destruct (GetLightData api w) as [[[lightData|err] api'] w'] eqn:E.
  - exact (GetLightData_found api w lightData api' w' E).
  - exact (GetLightData_failed api w err api' w' E).
Qed.

(** X12.  Which field of the first device of the list becomes the
    [DeviceID]: a non-empty string under ["id"] is taken as it is, a number
    under ["id"] is written in decimal digits, ["deviceId"] is looked at
    when ["id"] gave nothing and the session had no [DeviceID], and a
    [DeviceID] the session had is kept when ["id"] is absent, whatever
    ["deviceId"] holds. *)
Theorem GetLightData_device_id (api : MarsHydroAPI) (w : World) (elapsed : Z)
    (resData data deviceData : json.object) (rest : list json.value) :
  isEmpty (Token api) = false ->
  service w (List.length (sent w)) = (elapsed, Decoded resData) ->
  codeIs resData "000" = true ->
  json.index resData "data" = json.Object data ->
  json.index data "list" = json.Array (json.Object deviceData :: rest) ->
  let id := DeviceID (snd (fst (GetLightData api w))) in
  (forall v, json.lookup deviceData "id" = Some (json.String v) ->
             isEmpty v = false -> id = v) /\
  (forall n, json.lookup deviceData "id" = Some (json.Number (float64.of_int n)) ->
             Z.abs n <= 2 ^ 53 -> id = fmt.decimal n) /\
  (forall v, json.lookup deviceData "id" = None \/
             json.lookup deviceData "id" = Some (json.String "") ->
             isEmpty (DeviceID api) = true ->
             json.lookup deviceData "deviceId" = Some (json.String v) ->
             isEmpty v = false -> id = v) /\
  (json.lookup deviceData "id" = None ->
   isEmpty (DeviceID api) = false -> id = DeviceID api).
Proof.
  intros Htok Hs Hc Hd Hl.
  assert (G : forall api2,
             discover api deviceData = api2 -> isEmpty (DeviceID api2) = false ->
             DeviceID (snd (fst (GetLightData api w))) = DeviceID api2).
  { intros api2 E2 Hne. rewrite GetLightData_unfold, (ensureToken_nonempty api w Htok).
    unfold roundTrip. rewrite Hs, Hc. cbn [negb]. cbv zeta.
    rewrite Hd. cbn [json.asObject]. rewrite Hl. cbn [json.asArray json.asObject].
    rewrite E2, Hne. cbn [fst snd]. apply storeGroupID_DeviceID. }
  cbv zeta. repeat split.
  - intros v Hid Hv. rewrite (G (setDeviceID api v)); [reflexivity | | exact Hv].
    unfold discover. rewrite Hid. cbn [storeDeviceID]. rewrite Hv.
    cbn [DeviceID setDeviceID]. rewrite Hv. reflexivity.
  - intros n Hid Hn.
    pose proof (report_facts.Sprintf_of_int n Hn) as P.
    rewrite (G (setDeviceID api (fmt.decimal n)));
      [reflexivity | | apply decimal_nonempty].
    unfold discover. rewrite Hid. cbn [storeDeviceID]. rewrite P.
    cbn [DeviceID setDeviceID]. rewrite decimal_nonempty. reflexivity.
  - intros v Hid He Halt Hv. rewrite (G (setDeviceID api v)); [reflexivity | | exact Hv].
    unfold discover.
    assert (E : storeDeviceID api (json.lookup deviceData "id") = api)
      by (destruct Hid as [Hid | Hid]; rewrite Hid; reflexivity).
    rewrite E, He, Halt. cbn [storeDeviceID]. rewrite Hv. reflexivity.
  - intros Hid Hne. rewrite (G api); [reflexivity | | exact Hne].
    unfold discover. rewrite Hid. cbn [storeDeviceID]. rewrite Hne. reflexivity.
Qed.

(** The reply [oneDevice]: the number 4711 under ["id"]. *)
Lemma GetLightData_device_id_witness :
  DeviceID (snd (fst (GetLightData (session "T1" 0 "")
                        (world (10 * Second) (replies [Decoded oneDevice])))))
  = "4711".
Proof.
  refine (proj1 (proj2 (GetLightData_device_id (session "T1" 0 "")
           (world (10 * Second) (replies [Decoded oneDevice])) Second oneDevice
           [("list", json.Array
               [json.Object [("id", json.Number (float64.of_int 4711));
                             ("deviceName", json.String "lamp")]])]
           [("id", json.Number (float64.of_int 4711));
            ("deviceName", json.String "lamp")] []
           eq_refl eq_refl eq_refl eq_refl eq_refl)) 4711 _ _).
  - reflexivity.
  - cbn. lia.
Defined.

(** ** The requests of [SetBrightness] *)

Lemma prepares_refl n w : prepares n w w.
Proof. exists []. rewrite app_nil_r. repeat split; [cbn; lia | constructor]. Qed.

Lemma prepares_log n l w w' : prepares n w w' -> prepares n w (log l w').
Proof. intros H. exact H. Qed.

Lemma prepares_weaken n m w w' : (n <= m)%nat -> prepares n w w' -> prepares m w w'.
Proof. intros H (l & E & L & F). exists l. repeat split; [exact E | lia | exact F]. Qed.

Lemma prepares_trans n m w1 w2 w3 :
  prepares n w1 w2 -> prepares m w2 w3 -> prepares (n + m) w1 w3.
Proof.
  intros (l1 & E1 & L1 & F1) (l2 & E2 & L2 & F2). exists (l1 ++ l2). repeat split.
  - rewrite E2, E1, app_assoc. reflexivity.
  - rewrite length_app. lia.
  - apply Forall_app. now split.
Qed.

Lemma prepares_roundTrip req w :
  isSessionRequest req -> prepares 1 w (snd (roundTrip req w)).
Proof.
  intros H. exists [req]. rewrite roundTrip_sent. repeat split; [cbn; lia|].
  constructor; [exact H | constructor].
Qed.

Lemma Login_prepares api w : prepares 1 w (snd (Login api w)).
Proof.
  unfold Login. destruct (_ && _); [apply prepares_log, prepares_refl|].
  pose proof (prepares_roundTrip
    {| endpoint := mailLogin; systemData := generateSystemData api w;
       payload := loginPayload (Email api) (Password api) |} w (or_introl eq_refl)) as H.
  destruct (roundTrip _ w) as [resp w1]. cbn [snd] in H.
  destruct resp as [| |resData]; try exact H.
  destruct (json.asObject _); [|exact H].
  destruct (json.asString _); exact H.
Qed.

Lemma ensureToken_prepares api w : prepares 1 w (snd (ensureToken api w)).
Proof.
  unfold ensureToken. destruct (isEmpty _); [apply Login_prepares | apply prepares_refl].
Qed.

Lemma GetLightData_prepares api w : prepares 2 w (snd (GetLightData api w)).
Proof.
  rewrite GetLightData_unfold.
  pose proof (ensureToken_prepares api w) as H0.
  destruct (ensureToken api w) as [[[err|] api1] w1]; cbn [snd] in H0 |- *;
    [apply (prepares_weaken 1); [lia | exact H0]|].
  pose proof (prepares_roundTrip (listRequest api1 w1) w1 (or_intror eq_refl)) as H.
  destruct (roundTrip _ w1) as [resp w2]. cbn [snd] in H.
  pose proof (prepares_trans _ _ _ _ _ H0 H) as H2. cbn [Nat.add] in H2.
  destruct resp as [| |resData]; try exact H2.
  destruct (negb _); [exact H2|]. cbv zeta.
  destruct (json.asArray _) as [[|first ?]|]; try exact H2.
  destruct (json.asObject first); [|exact H2].
  destruct (isEmpty (DeviceID _)); exact H2.
Qed.

Lemma SetBrightness_unfold b api w :
  SetBrightness b api w
  = match
      (if isEmpty (DeviceID api) then
         match GetLightData api w with
         | (inr err, api, w) => (Some err, api, w)
         | (inl _, api, w) => (None, api, w)
         end
       else (None, api, w))
    with
    | (Some err, api, w) => (Some err, api, w)
    | (None, api, w) => applyBrightness b api w
    end.
Proof. reflexivity. Qed.

Lemma applyBrightness_sent b api w res api' w' :
  applyBrightness b api w = (res, api', w') ->
  isEmpty (DeviceID api) = false ->
  exists w0,
    prepares 1 w w0 /\
    ((res <> None /\ sent w' = sent w0) \/
     (isEmpty (DeviceID api') = false /\
      sent w' = sent w0 ++ [adjustRequest b api' w0])).
Proof.
  unfold applyBrightness. intros H Hd.
  pose proof (ensureToken_prepares api w) as P.
  pose proof (ensureToken_ids api w) as [I _].
  destruct (ensureToken api w) as [[[err|] api1] w1]; cbn [fst snd] in P, I.
  { injection H as <- <- <-. exists w1. split; [exact P|]. left. split; [discriminate | reflexivity]. }
  pose proof (roundTrip_sent (adjustRequest b api1 w1) w1) as R.
  destruct (roundTrip _ w1) as [resp w2]. cbn [snd] in R.
  rewrite <- I in Hd.
  exists w1. split; [exact P|]. right.
  destruct resp as [| |resData].
  - injection H as <- <- <-. now split.
  - injection H as <- <- <-. now split.
  - destruct (negb _); injection H as <- <- <-; now split.
Qed.

Lemma SetBrightness_sent b api w res api' w' :
  SetBrightness b api w = (res, api', w') ->
  exists w0,
    prepares 3 w w0 /\
    ((res <> None /\ sent w' = sent w0) \/
     (isEmpty (DeviceID api') = false /\
      sent w' = sent w0 ++ [adjustRequest b api' w0])).
Proof.
  rewrite SetBrightness_unfold. destruct (isEmpty (DeviceID api)) eqn:E0.
  - pose proof (GetLightData_prepares api w) as P.
    destruct (GetLightData api w) as [[[lightData|err] api1] w1] eqn:G; cbn [snd] in P.
    + destruct (GetLightData_found _ _ _ _ _ G) as [Hd _]. intros H.
      destruct (applyBrightness_sent _ _ _ _ _ _ H Hd) as (w0 & P0 & C).
      exists w0. split; [|exact C]. exact (prepares_trans _ _ _ _ _ P P0).
    + intros H. injection H as <- <- <-. exists w1.
      split; [apply (prepares_weaken 2); [lia | exact P]|].
      left. split; [discriminate | reflexivity].
  - intros H. destruct (applyBrightness_sent _ _ _ _ _ _ H E0) as (w0 & P0 & C).
    exists w0. split; [|exact C]. apply (prepares_weaken 1); [lia | exact P0].
Qed.

(** X13.  [SetBrightness] sends at most three requests to log in and find
    the device, and then at most one request to [adjustLight], which is the
    last one, is never sent again, and carries the token and the device
    and group identifiers the session holds when the call returns.  When
    the call returns no error that request has been sent and its device
    identifier is not empty. *)
Theorem SetBrightness_requests (brightness : Z) (api : MarsHydroAPI) (w : World) :
  let '(res, api', w') := SetBrightness brightness api w in
  exists w0,
    prepares 3 w w0 /\
    ((res <> None /\ sent w' = sent w0) \/
     (isEmpty (DeviceID api') = false /\
      sent w' = sent w0 ++ [adjustRequest brightness api' w0])).
Proof.
  destruct (SetBrightness brightness api w) as [[res api'] w'] eqn:E.
  exact (SetBrightness_sent _ _ _ _ _ _ E).
Qed.

(** ** What no operation changes *)

Lemma credentials_setToken api token t :
  credentials (setToken api token t) = credentials api.
Proof. reflexivity. Qed.

Lemma Login_credentials api w :
  credentials (snd (fst (Login api w))) = credentials api.
Proof. destruct (Login_frame api w) as [E | [token E]]; rewrite E; reflexivity. Qed.

Lemma ensureToken_credentials api w :
  credentials (snd (fst (ensureToken api w))) = credentials api.
Proof. destruct (ensureToken_frame api w) as [E | (token & t & E)]; rewrite E; reflexivity. Qed.

Lemma discover_credentials api deviceData :
  credentials (discover api deviceData) = credentials api.
Proof. destruct (discover_cases api deviceData) as [E | (v & _ & E)]; rewrite E; reflexivity. Qed.

Lemma storeGroupID_credentials api field :
  credentials (storeGroupID api field) = credentials api.
Proof. destruct field as [[|?|?|?|?|?]|]; reflexivity. Qed.

Lemma GetLightData_credentials api w :
  credentials (snd (fst (GetLightData api w))) = credentials api.
Proof.
  rewrite GetLightData_unfold.
  pose proof (ensureToken_credentials api w) as I.
  destruct (ensureToken api w) as [[[e|] api1] w1]; cbn [fst snd] in I |- *; [exact I|].
  destruct (roundTrip _ w1) as [resp w2].
  destruct resp as [| |resData]; try exact I.
  destruct (negb _); [exact I|]. cbv zeta.
  destruct (json.asArray _) as [[|first rest]|]; try exact I.
  destruct (json.asObject first) as [deviceData|]; [|exact I].
  destruct (isEmpty (DeviceID (discover api1 deviceData))); cbn [fst snd];
    rewrite ?storeGroupID_credentials, discover_credentials; exact I.
Qed.

Lemma applyBrightness_credentials b api w :
  credentials (snd (fst (applyBrightness b api w))) = credentials api.
Proof.
  unfold applyBrightness.
  pose proof (ensureToken_credentials api w) as I.
  destruct (ensureToken api w) as [[[e|] api1] w1]; cbn [fst snd] in I |- *; [exact I|].
  destruct (roundTrip _ w1) as [resp w2].
  destruct resp as [| |resData]; try exact I.
  destruct (negb _); exact I.
Qed.

Lemma SetBrightness_credentials b api w :
  credentials (snd (fst (SetBrightness b api w))) = credentials api.
Proof.
  rewrite SetBrightness_unfold. destruct (isEmpty (DeviceID api)).
  - pose proof (GetLightData_credentials api w) as I.
    destruct (GetLightData api w) as [[[lightData|err] api1] w1]; cbn [fst snd] in I |- *;
      [|exact I].
    rewrite applyBrightness_credentials. exact I.
  - apply applyBrightness_credentials.
Qed.

Lemma ToggleSwitch_credentials (fuel : nat) :
  forall isClose deviceID api w r api' w',
  ToggleSwitch fuel isClose deviceID api w = Some (r, api', w') ->
  credentials api' = credentials api.
Proof.
  induction fuel as [|fuel IH]; intros isClose deviceID api w r api' w' H; [discriminate|].
  cbn [ToggleSwitch] in H.
  pose proof (ensureToken_credentials api w) as I.
  destruct (ensureToken api w) as [[[e|] api1] w1]; cbn [fst snd] in I.
  { injection H as <- <- <-. exact I. }
  destruct (roundTrip _ w1) as [resp w2].
  destruct resp as [| |resData]; try (injection H as <- <- <-; exact I).
  destruct (codeIs resData "102"); [|injection H as <- <- <-; exact I].
  pose proof (Login_credentials api1 (log LogTokenExpired w2)) as J.
  destruct (Login api1 (log LogTokenExpired w2)) as [[[e|] api3] w3]; cbn [fst snd] in J.
  { injection H as <- <- <-. congruence. }
  rewrite (IH _ _ _ _ _ _ _ H). congruence.
Qed.

(** X14.  No operation of the session changes what the account file and
    [NewMarsHydroAPI] have put into it: the e-mail address, the password,
    the Wi-Fi name, the time zone, the language, the base URL and the
    [LoginInterval] are the same after [Login], [GetLightData],
    [SetBrightness] and [ToggleSwitch], whatever the service answers. *)
Theorem credentials_never_change (api : MarsHydroAPI) (w : World) :
  credentials (snd (fst (Login api w))) = credentials api /\
  credentials (snd (fst (GetLightData api w))) = credentials api /\
  (forall brightness,
     credentials (snd (fst (SetBrightness brightness api w))) = credentials api) /\
  (forall fuel isClose deviceID r api' w',
     ToggleSwitch fuel isClose deviceID api w = Some (r, api', w') ->
     credentials api' = credentials api).
Proof.
  repeat split.
  - apply Login_credentials.
  - apply GetLightData_credentials.
  - intros b. apply SetBrightness_credentials.
  - intros fuel isClose deviceID r api' w'. apply ToggleSwitch_credentials.
Qed.

(** ** The response [ToggleSwitch] returns *)

(** X15.  The response [ToggleSwitch] hands to its caller is never one with
    the code "102", and it is the response to the last request sent, a
    command for the device asked for that carries the token the session
    holds when the call returns. *)
Theorem ToggleSwitch_returns_last_response (fuel : nat) :
  forall (isClose : bool) (deviceID : string) (api : MarsHydroAPI) (w : World)
         (resData : json.object) (api' : MarsHydroAPI) (w' : World),
  ToggleSwitch fuel isClose deviceID api w = Some (inl resData, api', w') ->
  codeIs resData "102" = false /\
  exists before w0,
    sent w' = sent w ++ before ++ [switchRequest isClose deviceID api' w0] /\
    service w (List.length (sent w ++ before)) = (clock w' - clock w0, Decoded resData).
Proof.
  induction fuel as [|fuel IH]; intros isClose deviceID api w resData api' w' H;
    [discriminate|].
  cbn [ToggleSwitch] in H.
  pose proof (ensureToken_extends api w) as [l0 E0].
  assert (S0 : service (snd (ensureToken api w)) = service w).
  { unfold ensureToken, Login, roundTrip. destruct (isEmpty _); [|reflexivity].
    destruct (_ && _); [reflexivity|]. destruct (service w _) as [e reply].
    destruct reply as [| |r]; try reflexivity.
    destruct (json.asObject _); [|reflexivity]. destruct (json.asString _); reflexivity. }
  destruct (ensureToken api w) as [[[e|] api1] w1]; cbn [snd] in E0, S0; [discriminate|].
  fold (switchRequest isClose deviceID api1 w1) in H.
  unfold roundTrip in H.
  destruct (service w1 (List.length (sent w1))) as [elapsed reply] eqn:Sv.
  destruct reply as [| |r]; try discriminate.
  destruct (codeIs r "102") eqn:C.
  - set (w2 := log LogTokenExpired _) in H.
    pose proof (Login_extends api1 w2) as [l2 E2].
    assert (S2 : service (snd (Login api1 w2)) = service w).
    { rewrite <- S0. unfold Login, roundTrip. destruct (_ && _); [reflexivity|].
      destruct (service w2 _) as [e reply].
      destruct reply as [| |r']; try reflexivity.
      destruct (json.asObject _); [|reflexivity]. destruct (json.asString _); reflexivity. }
    destruct (Login api1 w2) as [[[e|] api3] w3]; cbn [snd] in E2, S2; [discriminate|].
    destruct (IH _ _ _ _ _ _ _ H) as (Hc & before & w0 & Es & Ev).
    split; [exact Hc|].
    exists (l0 ++ [switchRequest isClose deviceID api1 w1] ++ l2 ++ before), w0.
    split.
    + rewrite Es, E2. cbn [sent w2 log]. rewrite E0. rewrite <- !app_assoc. reflexivity.
    + rewrite <- Ev, S2. f_equal. rewrite E2. cbn [sent w2 log]. rewrite E0.
      rewrite <- !app_assoc. reflexivity.
  - injection H as <- <- <-. split; [exact C|].
    exists l0, w1. cbn [sent clock]. split.
    + rewrite E0, <- app_assoc. reflexivity.
    + rewrite <- E0, <- S0, Sv. f_equal. f_equal. lia.
Qed.

(** Two expiries, then a success. *)
Lemma ToggleSwitch_returns_last_response_witness :
  codeIs success "102" = false /\
  exists before w0,
    sent afterRetries
    = sent flaky ++ before ++ [switchRequest false "4711" (session "T1" 0 "4711") w0] /\
    service flaky (List.length (sent flaky ++ before))
    = (clock afterRetries - clock w0, Decoded success).
Proof.
  apply (ToggleSwitch_returns_last_response 3 false "4711" (session "T1" 0 "4711")
           flaky success (session "T1" 0 "4711") afterRetries).
  reflexivity.
Defined.

End session_facts.

(* ================================================================== *)
(** * More about the loop *)

Module loop_facts.

Import api main sample api_facts session session_facts loop.

Local Open Scope string_scope.
Local Open Scope list_scope.
Local Open Scope Z_scope.

Lemma sentSince_later w w1 w2 r : sentSince w w1 r -> extends w1 w2 -> sentSince w w2 r.
Proof.
  intros (before & after & E) [l E2]. exists before, (after ++ l).
  rewrite E2, E, <- !app_assoc. reflexivity.
Qed.

Lemma sentSince_earlier w w1 w2 r : extends w w1 -> sentSince w1 w2 r -> sentSince w w2 r.
Proof.
  intros [l E1] (before & after & E). exists (l ++ before), after.
  rewrite E, E1, <- !app_assoc. reflexivity.
Qed.

(** ** One update *)

Lemma updateState_extends mhAccount last state w :
  extends w (snd (updateState mhAccount last state w)).
Proof.
  unfold updateState. destruct (_ && _); [apply extends_log|].
  pose proof (Login_extends
    (NewMarsHydroAPI (config.Email mhAccount) (config.Password mhAccount)
       (config.Wifiname mhAccount) (config.Timezone mhAccount)
       (config.Language mhAccount)) (log (LogSetting state) w)) as L.
  destruct (Login _ (log (LogSetting state) w)) as [[[err|] api1] w1]; cbn [snd] in L |- *;
    [exact L|].
  pose proof (SetBrightness_extends state api1 w1) as S.
  destruct (SetBrightness state api1 w1) as [[[err|] api2] w2]; cbn [snd] in S |- *;
    exact (extends_trans _ _ _ L S).
Qed.

Lemma updateState_records mhAccount last state w :
  fst (updateState mhAccount last state w) = last \/
  (fst (updateState mhAccount last state w) = state /\
   exists r, sentSince w (snd (updateState mhAccount last state w)) r /\
             setsBrightness state r).
Proof.
  unfold updateState. destruct (_ && _); [now left|].
  pose proof (Login_extends
    (NewMarsHydroAPI (config.Email mhAccount) (config.Password mhAccount)
       (config.Wifiname mhAccount) (config.Timezone mhAccount)
       (config.Language mhAccount)) (log (LogSetting state) w)) as L.
  destruct (Login _ (log (LogSetting state) w)) as [[[err|] api1] w1]; cbn [snd] in L;
    [now left|].
  destruct (SetBrightness state api1 w1) as [[[err|] api2] w2] eqn:E; [now left|].
  right. split; [reflexivity|].
  destruct (SetBrightness_sent _ _ _ _ _ _ E) as (w0 & (l & El & _) & [[C _] | [Hd Es]]);
    [congruence|].
  exists (adjustRequest state api2 w0). split.
  - apply (sentSince_earlier w w1); [exact L|]. exists l, []. cbn [snd sent log].
    rewrite Es, El, <- app_assoc. reflexivity.
  - split; [reflexivity|]. exists (DeviceID api2), (GroupID api2). now split.
Qed.

(** ** The loop *)

Lemma eventLoop_extends lt mhAccount ticks :
  forall last w, extends w (snd (eventLoop lt mhAccount ticks last w)).
Proof.
  induction ticks as [|tick ticks IH]; intros last w; [apply extends_refl|].
  cbn [eventLoop].
  pose proof (updateState_extends mhAccount last
                (timer.GetExpectedBrightness lt (tickNow tick)) (wait (tickAfter tick) w)) as U.
  destruct (updateState _ _ _ _) as [last1 w1]. cbn [snd] in U.
  exact (extends_trans _ _ _ U (IH last1 w1)).
Qed.

Lemma eventLoop_records lt mhAccount ticks :
  forall last w,
  fst (eventLoop lt mhAccount ticks last w) = last \/
  exists t r,
    In t (map tickNow ticks) /\
    fst (eventLoop lt mhAccount ticks last w) = timer.GetExpectedBrightness lt t /\
    sentSince w (snd (eventLoop lt mhAccount ticks last w)) r /\
    setsBrightness (timer.GetExpectedBrightness lt t) r.
Proof.
  induction ticks as [|tick ticks IH]; intros last w; [now left|].
  cbn [eventLoop map].
  pose proof (updateState_extends mhAccount last
                (timer.GetExpectedBrightness lt (tickNow tick)) (wait (tickAfter tick) w)) as X.
  pose proof (updateState_records mhAccount last
                (timer.GetExpectedBrightness lt (tickNow tick)) (wait (tickAfter tick) w)) as U.
  destruct (updateState _ _ _ _) as [last1 w1]. cbn [fst snd] in U, X.
  pose proof (eventLoop_extends lt mhAccount ticks last1 w1) as X1.
  destruct (IH last1 w1) as [E | (t & r & Ht & E & Hs & Hb)].
  - destruct U as [U | (U & r & Hs & Hb)]; [left; congruence|].
    right. exists (tickNow tick), r. split; [|split; [|split]].
    + now left.
    + congruence.
    + exact (sentSince_later _ _ _ _ Hs X1).
    + exact Hb.
  - right. exists t, r. split; [|split; [|split]].
    + now right.
    + exact E.
    + exact (sentSince_earlier _ _ _ _ X Hs).
    + exact Hb.
Qed.

(** X16.  The brightness [main] holds as applied is -1, when nothing was
    applied yet, or the expected brightness of the start or of one of the
    ticks, and then a request carrying that brightness to a named device
    is among the requests the run has sent. *)
Theorem recorded_brightness_was_sent (lt : timer.LightTimer)
    (mhAccount : config.MHAccountConfig) (now : timer.Time) (ticks : list Tick)
    (w : World) :
  let '(last, w') := run lt mhAccount now ticks w in
  last = -1 \/
  exists t r,
    In t (now :: map tickNow ticks) /\
    last = timer.GetExpectedBrightness lt t /\
    sentSince w w' r /\ setsBrightness last r.
Proof.
  unfold run.
  pose proof (updateState_extends mhAccount (-1)
                (timer.GetExpectedBrightness lt now) w) as X.
  pose proof (updateState_records mhAccount (-1)
                (timer.GetExpectedBrightness lt now) w) as U.
  destruct (updateState _ _ _ _) as [last1 w1]. cbn [fst snd] in U, X.
  pose proof (eventLoop_extends lt mhAccount ticks last1 w1) as X1.
  pose proof (eventLoop_records lt mhAccount ticks last1 w1) as R.
  destruct (eventLoop lt mhAccount ticks last1 w1) as [last w']. cbn [fst snd] in R, X1.
  destruct R as [E | (t & r & Ht & E & Hs & Hb)].
  - destruct U as [U | (U & r & Hs & Hb)]; [left; congruence|].
    right. exists now, r. split; [|split; [|split]].
    + now left.
    + congruence.
    + exact (sentSince_later _ _ _ _ Hs X1).
    + rewrite E, U. exact Hb.
  - right. exists t, r. split; [|split; [|split]].
    + now right.
    + exact E.
    + exact (sentSince_earlier _ _ _ _ X Hs).
    + rewrite E. exact Hb.
Qed.

(** X17.  While every tick asks for the brightness that is already
    applied, the loop sends nothing: the value is kept, no request goes
    out, and each tick writes one line to the log. *)
Theorem eventLoop_steady (lt : timer.LightTimer) (mhAccount : config.MHAccountConfig)
    (ticks : list Tick) (last : Z) (w : World) :
  last <> -1 ->
  Forall (fun tick => timer.GetExpectedBrightness lt (tickNow tick) = last) ticks ->
  fst (eventLoop lt mhAccount ticks last w) = last /\
  sent (snd (eventLoop lt mhAccount ticks last w)) = sent w /\
  logged (snd (eventLoop lt mhAccount ticks last w))
  = logged w ++ repeat (if last =? 0 then LogRemainsOff else LogRemainsOn last)
                       (List.length ticks).
Proof.
  intros Hl H. revert w. induction H as [|tick ticks Ht _ IH]; intros w.
  - cbn. rewrite app_nil_r. repeat split.
  - cbn [eventLoop]. rewrite (updateState_skip mhAccount last _ _ Hl Ht).
    destruct (IH (log (if timer.GetExpectedBrightness lt (tickNow tick) =? 0
                       then LogRemainsOff
                       else LogRemainsOn (timer.GetExpectedBrightness lt (tickNow tick)))
                      (wait (tickAfter tick) w))) as (E1 & E2 & E3).
    repeat split; [exact E1 | exact E2 |].
    rewrite E3, Ht. cbn [logged log wait List.length repeat].
    rewrite <- app_assoc. reflexivity.
Qed.

(** Two ticks on the plateau of the README's configuration. *)
Lemma eventLoop_steady_witness :
  fst (eventLoop readme account
         [ {| tickNow := at_ 12 0 0; tickAfter := 60 * Second |};
           {| tickNow := at_ 12 1 0; tickAfter := 60 * Second |} ]
         100 (world 0 (replies []))) = 100 /\
  sent (snd (eventLoop readme account
         [ {| tickNow := at_ 12 0 0; tickAfter := 60 * Second |};
           {| tickNow := at_ 12 1 0; tickAfter := 60 * Second |} ]
         100 (world 0 (replies [])))) = [] /\
  logged (snd (eventLoop readme account
         [ {| tickNow := at_ 12 0 0; tickAfter := 60 * Second |};
           {| tickNow := at_ 12 1 0; tickAfter := 60 * Second |} ]
         100 (world 0 (replies [])))) = [LogRemainsOn 100; LogRemainsOn 100].
Proof.
  apply (eventLoop_steady readme account
           [ {| tickNow := at_ 12 0 0; tickAfter := 60 * Second |};
             {| tickNow := at_ 12 1 0; tickAfter := 60 * Second |} ]
           100 (world 0 (replies []))).
  - discriminate.
  - repeat constructor.
Defined.

(** ** Without a connection *)

Lemma updateState_offline mhAccount state w :
  (forall k, snd (service w k) = ConnError) ->
  exists w',
    updateState mhAccount (-1) state w = (-1, w') /\
    sent w' = sent w ++ [firstLogin mhAccount (clock w)] /\
    service w' = service w.
Proof.
  intros H. unfold updateState, Login, roundTrip. cbn [negb andb Z.eqb].
  cbn [NewMarsHydroAPI Token isEmpty String.eqb negb andb].
  cbn [sent log service].
  pose proof (H (List.length (sent w))) as Hk.
  destruct (service w (List.length (sent w))) as [elapsed reply].
  cbn [snd] in Hk. subst reply.
  eexists. split; [reflexivity|]. split; reflexivity.
Qed.

Lemma eventLoop_offline lt mhAccount ticks :
  forall w,
  (forall k, snd (service w k) = ConnError) ->
  fst (eventLoop lt mhAccount ticks (-1) w) = -1 /\
  exists reqs,
    sent (snd (eventLoop lt mhAccount ticks (-1) w)) = sent w ++ reqs /\
    List.length reqs = List.length ticks /\
    Forall (fun r => exists t, r = firstLogin mhAccount t) reqs.
Proof.
  induction ticks as [|tick ticks IH]; intros w H.
  - split; [reflexivity|]. exists []. cbn. rewrite app_nil_r. repeat split. constructor.
  - cbn [eventLoop].
    destruct (updateState_offline mhAccount
                (timer.GetExpectedBrightness lt (tickNow tick)) (wait (tickAfter tick) w) H)
      as (w1 & E & Es & Ev).
    rewrite E.
    assert (H1 : forall k, snd (service w1 k) = ConnError)
      by (intros k; rewrite Ev; apply H).
    destruct (IH w1 H1) as (E1 & reqs & E2 & E3 & E4).
    split; [exact E1|].
    exists (firstLogin mhAccount (clock (wait (tickAfter tick) w)) :: reqs). repeat split.
    + rewrite E2, Es. cbn [sent wait]. rewrite <- app_assoc. reflexivity.
    + cbn. lia.
    + constructor; [eexists; reflexivity | exact E4].
Qed.

(** X18.  While the service cannot be reached, nothing is ever taken as
    applied: the start and every tick send one login request with neither
    token nor device identifier, and nothing else, whatever brightness is
    expected. *)
Theorem run_offline (lt : timer.LightTimer) (mhAccount : config.MHAccountConfig)
    (now : timer.Time) (ticks : list Tick) (w : World) :
  (forall k, snd (service w k) = ConnError) ->
  fst (run lt mhAccount now ticks w) = -1 /\
  exists reqs,
    sent (snd (run lt mhAccount now ticks w)) = sent w ++ reqs /\
    List.length reqs = S (List.length ticks) /\
    Forall (fun r => exists t, r = firstLogin mhAccount t) reqs.
Proof.
  intros H. unfold run.
  destruct (updateState_offline mhAccount (timer.GetExpectedBrightness lt now) w H)
    as (w1 & E & Es & Ev).
  rewrite E.
  assert (H1 : forall k, snd (service w1 k) = ConnError)
    by (intros k; rewrite Ev; apply H).
  destruct (eventLoop_offline lt mhAccount ticks w1 H1) as (E1 & reqs & E2 & E3 & E4).
  split; [exact E1|].
  exists (firstLogin mhAccount (clock w) :: reqs). repeat split.
  - rewrite E2, Es, <- app_assoc. reflexivity.
  - cbn. lia.
  - constructor; [eexists; reflexivity | exact E4].
Qed.

Lemma run_offline_witness :
  fst (run readme account (at_ 8 6 0)
         [ {| tickNow := at_ 8 7 0; tickAfter := 57 * Second |} ]
         (world 0 (replies []))) = -1 /\
  exists reqs,
    sent (snd (run readme account (at_ 8 6 0)
                 [ {| tickNow := at_ 8 7 0; tickAfter := 57 * Second |} ]
                 (world 0 (replies []))))
    = sent (world 0 (replies [])) ++ reqs /\
    List.length reqs = 2%nat /\
    Forall (fun r => exists t, r = firstLogin account t) reqs.
Proof.
  apply (run_offline readme account (at_ 8 6 0)
           [ {| tickNow := at_ 8 7 0; tickAfter := 57 * Second |} ]
           (world 0 (replies []))).
  intros k. cbn. destruct k; reflexivity.
Defined.

End loop_facts.

(* ================================================================== *)
(** * What goes over the wire *)

Module traffic_facts.

Import api main sample api_facts session session_facts loop loop_facts traffic.

Local Open Scope string_scope.
Local Open Scope list_scope.
Local Open Scope Z_scope.

Lemma fromAccount_credentials a b r :
  credentials a = credentials b -> fromAccount a r -> fromAccount b r.
Proof.
  unfold credentials, fromAccount. intros E. injection E as -> -> -> -> -> _ _.
  intros H. exact H.
Qed.

Lemma speaks_refl api w : speaks api w w.
Proof. exists []. rewrite app_nil_r. split; [reflexivity | constructor]. Qed.

Lemma speaks_log api l w w' : speaks api w w' -> speaks api w (log l w').
Proof. intros H. exact H. Qed.

Lemma speaks_trans api w1 w2 w3 : speaks api w1 w2 -> speaks api w2 w3 -> speaks api w1 w3.
Proof.
  intros (l1 & E1 & F1) (l2 & E2 & F2). exists (l1 ++ l2). split.
  - rewrite E2, E1, app_assoc. reflexivity.
  - apply Forall_app. now split.
Qed.

Lemma speaks_credentials a b w w' :
  credentials a = credentials b -> speaks a w w' -> speaks b w w'.
Proof.
  intros E (l & El & F). exists l. split; [exact El|].
  revert F. apply Forall_impl. intros r. now apply fromAccount_credentials.
Qed.

Lemma speaks_roundTrip api req w :
  fromAccount api req -> speaks api w (snd (roundTrip req w)).
Proof.
  intros H. exists [req]. rewrite roundTrip_sent. split; [reflexivity|].
  constructor; [exact H | constructor].
Qed.

Lemma Login_speaks api w : speaks api w (snd (Login api w)).
Proof.
  unfold Login. destruct (_ && _); [apply speaks_log, speaks_refl|].
  assert (H : speaks api w (snd (roundTrip
    {| endpoint := mailLogin; systemData := generateSystemData api w;
       payload := loginPayload (Email api) (Password api) |} w)))
    by (apply speaks_roundTrip; repeat split).
  destruct (roundTrip _ w) as [resp w1]. cbn [snd] in H.
  destruct resp as [| |resData]; try exact H.
  destruct (json.asObject _); [|exact H].
  destruct (json.asString _); exact H.
Qed.

Lemma ensureToken_speaks api w : speaks api w (snd (ensureToken api w)).
Proof.
  unfold ensureToken. destruct (isEmpty _); [apply Login_speaks | apply speaks_refl].
Qed.

Lemma GetLightData_speaks api w : speaks api w (snd (GetLightData api w)).
Proof.
  rewrite GetLightData_unfold.
  pose proof (ensureToken_speaks api w) as H0.
  pose proof (ensureToken_credentials api w) as C.
  destruct (ensureToken api w) as [[[err|] api1] w1]; cbn [fst snd] in H0, C |- *;
    [exact H0|].
  assert (H : speaks api w1 (snd (roundTrip (listRequest api1 w1) w1))).
  { apply (speaks_credentials api1); [exact C|]. apply speaks_roundTrip. repeat split. }
  destruct (roundTrip _ w1) as [resp w2]. cbn [snd] in H.
  pose proof (speaks_trans _ _ _ _ H0 H) as H2.
  destruct resp as [| |resData]; try exact H2.
  destruct (negb _); [exact H2|]. cbv zeta.
  destruct (json.asArray _) as [[|first ?]|]; try exact H2.
  destruct (json.asObject first); [|exact H2].
  destruct (isEmpty (DeviceID _)); exact H2.
Qed.

Lemma applyBrightness_speaks b api w : speaks api w (snd (applyBrightness b api w)).
Proof.
  unfold applyBrightness.
  pose proof (ensureToken_speaks api w) as H0.
  pose proof (ensureToken_credentials api w) as C.
  destruct (ensureToken api w) as [[[err|] api1] w1]; cbn [fst snd] in H0, C |- *;
    [exact H0|].
  assert (H : speaks api w1 (snd (roundTrip (adjustRequest b api1 w1) w1))).
  { apply (speaks_credentials api1); [exact C|]. apply speaks_roundTrip.
    repeat split. cbn. eexists _, _, _. reflexivity. }
  destruct (roundTrip _ w1) as [resp w2]. cbn [snd] in H.
  pose proof (speaks_trans _ _ _ _ H0 H) as H2.
  destruct resp as [| |resData]; try exact H2.
  destruct (negb _); exact H2.
Qed.

Lemma SetBrightness_speaks b api w : speaks api w (snd (SetBrightness b api w)).
Proof.
  rewrite SetBrightness_unfold. destruct (isEmpty (DeviceID api)).
  - pose proof (GetLightData_speaks api w) as H0.
    pose proof (GetLightData_credentials api w) as C.
    destruct (GetLightData api w) as [[[lightData|err] api1] w1]; cbn [fst snd] in H0, C |- *;
      [|exact H0].
    apply (speaks_trans _ _ _ _ H0). apply (speaks_credentials api1); [exact C|].
    apply applyBrightness_speaks.
  - apply applyBrightness_speaks.
Qed.

Lemma ToggleSwitch_speaks (fuel : nat) :
  forall isClose deviceID api w r api' w',
  ToggleSwitch fuel isClose deviceID api w = Some (r, api', w') -> speaks api w w'.
Proof.
  induction fuel as [|fuel IH]; intros isClose deviceID api w r api' w' H; [discriminate|].
  cbn [ToggleSwitch] in H.
  pose proof (ensureToken_speaks api w) as H0.
  pose proof (ensureToken_credentials api w) as C.
  destruct (ensureToken api w) as [[[e|] api1] w1]; cbn [fst snd] in H0, C.
  { injection H as <- <- <-. exact H0. }
  assert (H1 : speaks api w1 (snd (roundTrip (switchRequest isClose deviceID api1 w1) w1))).
  { apply (speaks_credentials api1); [exact C|]. apply speaks_roundTrip.
    repeat split. cbn. eexists _, _. reflexivity. }
  fold (switchRequest isClose deviceID api1 w1) in H.
  destruct (roundTrip _ w1) as [resp w2]. cbn [snd] in H1.
  pose proof (speaks_trans _ _ _ _ H0 H1) as H2.
  destruct resp as [| |resData]; try (injection H as <- <- <-; exact H2).
  destruct (codeIs resData "102"); [|injection H as <- <- <-; exact H2].
  pose proof (Login_speaks api1 (log LogTokenExpired w2)) as L.
  pose proof (Login_credentials api1 (log LogTokenExpired w2)) as CL.
  destruct (Login api1 (log LogTokenExpired w2)) as [[[e|] api3] w3]; cbn [fst snd] in L, CL;
    (assert (L' : speaks api w2 w3)
       by (apply (speaks_credentials api1); [exact C | exact L])).
  { injection H as <- <- <-. exact (speaks_trans _ _ _ _ H2 L'). }
  apply (speaks_trans api w w2 w'); [exact H2|].
  apply (speaks_trans api w2 w3 w'); [exact L'|].
  apply (speaks_credentials api3); [congruence|]. exact (IH _ _ _ _ _ _ _ H).
Qed.

Lemma updateState_speaks mhAccount last state w :
  speaks (freshSession mhAccount) w (snd (updateState mhAccount last state w)).
Proof.
  unfold updateState. destruct (_ && _); [apply speaks_log, speaks_refl|].
  fold (freshSession mhAccount).
  pose proof (Login_speaks (freshSession mhAccount) (log (LogSetting state) w)) as L.
  pose proof (Login_credentials (freshSession mhAccount) (log (LogSetting state) w)) as C.
  destruct (Login _ (log (LogSetting state) w)) as [[[err|] api1] w1]; cbn [fst snd] in L, C |- *;
    [exact L|].
  assert (S : speaks (freshSession mhAccount) w1 (snd (SetBrightness state api1 w1)))
    by (apply (speaks_credentials api1); [exact C | apply SetBrightness_speaks]).
  destruct (SetBrightness state api1 w1) as [[[err|] api2] w2]; cbn [snd] in S |- *;
    exact (speaks_trans _ _ _ _ L S).
Qed.

Lemma eventLoop_speaks lt mhAccount ticks :
  forall last w,
  speaks (freshSession mhAccount) w (snd (eventLoop lt mhAccount ticks last w)).
Proof.
  induction ticks as [|tick ticks IH]; intros last w; [apply speaks_refl|].
  cbn [eventLoop].
  pose proof (updateState_speaks mhAccount last
                (timer.GetExpectedBrightness lt (tickNow tick)) (wait (tickAfter tick) w)) as U.
  destruct (updateState _ _ _ _) as [last1 w1]. cbn [snd] in U.
  exact (speaks_trans _ _ _ _ U (IH last1 w1)).
Qed.

(** X19.  Every request an operation of the session sends is one of that
    session: its header carries the Wi-Fi name, the time zone and the
    language the session was built with, its body is the one of its
    endpoint, and the e-mail address and the password go to [mailLogin]
    alone.  So is every request of a run of [main], for the account it
    loaded. *)
Theorem requests_carry_account (api : MarsHydroAPI) (w : World) :
  speaks api w (snd (Login api w)) /\
  speaks api w (snd (GetLightData api w)) /\
  (forall brightness, speaks api w (snd (SetBrightness brightness api w))) /\
  (forall fuel isClose deviceID r api' w',
     ToggleSwitch fuel isClose deviceID api w = Some (r, api', w') -> speaks api w w') /\
  (forall lt mhAccount now ticks,
     speaks (freshSession mhAccount) w (snd (run lt mhAccount now ticks w))).
Proof.
  split; [apply Login_speaks|]. split; [apply GetLightData_speaks|].
  split; [intros b; apply SetBrightness_speaks|].
  split; [intros fuel isClose deviceID r api' w'; apply ToggleSwitch_speaks|].
  intros lt mhAccount now ticks. unfold run.
  pose proof (updateState_speaks mhAccount (-1)
                (timer.GetExpectedBrightness lt now) w) as U.
  destruct (updateState _ _ _ _) as [last1 w1]. cbn [snd] in U.
  exact (speaks_trans _ _ _ _ U (eventLoop_speaks lt mhAccount ticks last1 w1)).
Qed.

End traffic_facts.

(* ================================================================== *)
(** * Loading a configuration *)

Module loading_facts.

Import timer timer_facts sample.

Local Open Scope Z_scope.

(** X20.  A configuration that satisfies the invariant, with hours of a
    day, passes the check of [config.LoadLightTimerConfig] and both checks
    of [timer.LoadConfig]; and what [timer.LoadConfig] lets through,
    [config.LoadLightTimerConfig] lets through. *)
Theorem invariant_configurations_load (lt : LightTimer) :
  (config_invariant lt -> hours_of_day lt -> LoadConfig_accepts lt = true) /\
  (LoadConfig_accepts lt = true -> config.LoadLightTimerConfig_accepts lt = true).
Proof.
  unfold LoadConfig_accepts, config.LoadLightTimerConfig_accepts. split.
  - intros (Hw & Hs & Hm & _) (H1 & H2 & H3).
    apply andb_true_iff. split.
    + apply negb_true_iff, Z.leb_gt. unfold goint.add. rewrite wrap_small; [lia|].
      unfold goint.in_range, goint.minInt, goint.maxInt. lia.
    + apply Z.eqb_eq. unfold goint.rem. rewrite Z.rem_mod_nonneg by lia. exact Hm.
  - intros H. apply andb_true_iff in H. exact (proj1 H).
Qed.

(** The configuration of the README. *)
Lemma invariant_configurations_load_witness :
  LoadConfig_accepts readme = true.
Proof.
  apply (proj1 (invariant_configurations_load readme)).
  - unfold config_invariant; cbn; lia.
  - unfold hours_of_day; cbn; lia.
Defined.

End loading_facts.
